(** * retro-hunter dashboard: the gateway route and the resource loaders

    A shallow embedding of
    - [frontend/app/api/[...path]/route.ts]  (the reverse-proxy route),
    - [frontend/app/lib/api.ts]              ([apiFetch]),
    - [frontend/app/(app)/analysis/page.tsx] ([loadBlock], [wrap], [run],
      [toCsv], [recentPeByFilename], [generateYara]),
    - [frontend/app/(app)/page.tsx]          ([load], [toCsv]),
    - [frontend/app/(app)/scans/page.tsx]    ([load], [toCsv]),
    - [frontend/app/components/DataTable.tsx] (the text of a cell),
    and the properties the design document states about them.

    Promises are modelled by their settlement: an asynchronous function is a
    transition system whose events are the settlements of the promises it
    awaits and the clean-up of the React effect that started it. *)

From Stdlib Require Import ZArith NArith Ascii String DecimalString DecimalPos
  Strings.Byte.
From stdpp Require Import base tactics option list strings.

Open Scope string_scope.
Open Scope list_scope.

(** ** JavaScript strings *)

(** [String(n)] for a non-negative integer. *)
Definition decimal (n : N) : string := NilZero.string_of_uint (N.to_uint n).

(** A JavaScript string is held here as the bytes of its UTF-8 form: a
    code point takes one to four bytes, and the first byte tells how many.

    [String.prototype.trim] removes the white space and the line
    terminators of ECMAScript.  Those of one byte: the space and U+0009 to
    U+000D. *)
Definition is_space (c : ascii) : bool :=
  let n := nat_of_ascii c in
  (Nat.eqb n 32 || (Nat.leb 9 n && Nat.leb n 13))%bool.

(** Of two bytes: U+00A0. *)
Definition is_space2 (c1 c2 : ascii) : bool :=
  (Nat.eqb (nat_of_ascii c1) 194 && Nat.eqb (nat_of_ascii c2) 160)%bool.

(** Of three bytes: U+1680, U+2000 to U+200A, U+2028, U+2029, U+202F,
    U+205F, U+3000 and U+FEFF. *)
Definition is_space3 (c1 c2 c3 : ascii) : bool :=
  let n1 := nat_of_ascii c1 in
  let n2 := nat_of_ascii c2 in
  let n3 := nat_of_ascii c3 in
  ((Nat.eqb n1 225 && (Nat.eqb n2 154 && Nat.eqb n3 128))
   || (Nat.eqb n1 226
       && ((Nat.eqb n2 128
            && ((Nat.leb 128 n3 && Nat.leb n3 138)
                || Nat.eqb n3 168 || Nat.eqb n3 169 || Nat.eqb n3 175))
           || (Nat.eqb n2 129 && Nat.eqb n3 159)))
   || (Nat.eqb n1 227 && (Nat.eqb n2 128 && Nat.eqb n3 128))
   || (Nat.eqb n1 239 && (Nat.eqb n2 187 && Nat.eqb n3 191)))%bool.

Fixpoint trimStart (s : string) : string :=
  match s with
  | EmptyString => EmptyString
  | String c1 t1 =>
      if is_space c1 then trimStart t1
      else
        match t1 with
        | EmptyString => s
        | String c2 t2 =>
            if is_space2 c1 c2 then trimStart t2
            else
              match t2 with
              | EmptyString => s
              | String c3 t3 =>
                  if is_space3 c1 c2 c3 then trimStart t3 else s
              end
        end
  end.

(** Nothing but white space. *)
Definition blank (s : string) : bool :=
  match trimStart s with
  | EmptyString => true
  | String _ _ => false
  end.

(** The string up to the place from which all is white space. *)
Fixpoint trimEnd (s : string) : string :=
  match s with
  | EmptyString => EmptyString
  | String c t => if blank s then EmptyString else String c (trimEnd t)
  end.

Definition trim (s : string) : string := trimEnd (trimStart s).

(** Byte-lowercasing, the comparison key of header names. *)
Definition lower_ascii (c : ascii) : ascii :=
  let n := nat_of_ascii c in
  if (Nat.leb 65 n && Nat.leb n 90)%bool then ascii_of_nat (n + 32) else c.

Fixpoint lower (s : string) : string :=
  match s with
  | EmptyString => EmptyString
  | String c t => String (lower_ascii c) (lower t)
  end.

(** [Array.prototype.join] on an array of strings. *)
Definition join (sep : string) (parts : list string) : string :=
  String.concat sep parts.

(** [String.prototype.split] with a one-character separator. *)
Fixpoint split (sep : ascii) (s : string) : list string :=
  match s with
  | EmptyString => [EmptyString]
  | String c t =>
      if Ascii.eqb c sep then EmptyString :: split sep t
      else match split sep t with
           | [] => [String c EmptyString]
           | w :: ws => String c w :: ws
           end
  end.

Fixpoint contains (c : ascii) (s : string) : bool :=
  match s with
  | EmptyString => false
  | String d t => (Ascii.eqb d c || contains c t)%bool
  end.

(** The part of [s] before the first [c] (all of [s] when there is none). *)
Fixpoint before (c : ascii) (s : string) : string :=
  match s with
  | EmptyString => EmptyString
  | String d t => if Ascii.eqb d c then EmptyString else String d (before c t)
  end.

(** The part of [s] from the first [c] on (empty when there is none). *)
Fixpoint from (c : ascii) (s : string) : string :=
  match s with
  | EmptyString => EmptyString
  | String d t => if Ascii.eqb d c then s else from c t
  end.

(** The [search] getter of [new URL(u)] for a serialised URL [u] (such as
    [req.url]): the query with its leading question mark, the fragment
    excluded, and the empty string when the query is absent or empty. *)
Definition URL_search (u : string) : string :=
  let q := from "?" (before "#" u) in
  if String.eqb q "?" then "" else q.

(** ** The [Headers] class

    A header list in the sense of the Fetch standard: an ordered list of
    name/value pairs, names compared byte-case-insensitively, values kept as
    stored. *)

Definition Header : Type := string * string.
Definition Headers : Type := list Header.

Definition name_eqb (a b : string) : bool := String.eqb (lower a) (lower b).

(** [new Headers(init)]: a copy of the list. *)
Definition Headers_new (init : Headers) : Headers := init.

(** [headers.delete(name)]: every header of that name goes. *)
Definition Headers_delete (name : string) (h : Headers) : Headers :=
  List.filter (fun e => negb (name_eqb (fst e) name)) h.

(** [headers.has(name)]. *)
Definition Headers_has (name : string) (h : Headers) : bool :=
  existsb (fun e => name_eqb (fst e) name) h.

(** [headers.get(name)]: the values of that name joined with comma-space, or
    [null]. *)
Definition Headers_get (name : string) (h : Headers) : option string :=
  match List.filter (fun e => name_eqb (fst e) name) h with
  | [] => None
  | es => Some (join ", " (map snd es))
  end.

(** [headers.set(name, value)]: the first header of that name takes the value
    and the others go; appended when there is none. *)
Fixpoint Headers_set (name value : string) (h : Headers) : Headers :=
  match h with
  | [] => [(name, value)]
  | (k, w) :: t =>
      if name_eqb k name then (k, value) :: Headers_delete name t
      else (k, w) :: Headers_set name value t
  end.

(** ** The gateway: [app/api/[...path]/route.ts] *)

Definition Bytes : Type := list byte.

Record NextRequest := {
  req_url : string;
  req_method : string;
  req_headers : Headers;
  req_body : Bytes            (* what [req.arrayBuffer()] resolves to *)
}.

(** [ctx.params] once awaited: possibly undefined, its [path] possibly
    missing. *)
Record Params := { path : option (list string) }.
Record Ctx := { params : option Params }.

Record RequestInit := {
  init_method : string;
  init_headers : Headers;
  init_body : option Bytes    (* [undefined] is [None] *)
}.

(** A response: the upstream's, as [fetch] resolves it, and the one the
    handler returns.  [body] is [null] or the bytes of the stream. *)
Record Response := {
  resp_status : N;
  resp_headers : Headers;
  resp_body : option Bytes
}.

(** A thrown [Error] and its [message]. *)
Inductive Thrown := Err (message : string).

Definition message_of (e : Thrown) : string := let 'Err m := e in m.

(** What a handler does to the outside, in order. *)
Inductive Effect :=
| AwaitParams
| ArrayBuffer
| Fetch (target : string) (init : RequestInit).

(** An async function of the route: the effects it performed and the value
    its promise settles with ([inl] is a rejection). *)
Definition Task (A : Type) : Type := list Effect * (Thrown + A).

Definition resolve {A} (a : A) : Task A := ([], inr a).
Definition reject {A} (e : Thrown) : Task A := ([], inl e).
Definition perform (ef : Effect) : Task unit := ([ef], inr tt).

(** A step that makes no request: it gives a value or throws. *)
Definition settle {A} (r : Thrown + A) : Task A := ([], r).

Definition await {A B} (m : Task A) (k : A -> Task B) : Task B :=
  match m with
  | (t, inl e) => (t, inl e)
  | (t, inr a) => let '(t', r) := k a in (t ++ t', r)
  end.

Notation "'let*' x ':=' m 'in' k" := (await m (fun x => k))
  (at level 10, x name, m at level 100, k at level 200).

Definition effects {A} (m : Task A) : list Effect := fst m.
Definition settled {A} (m : Task A) : Thrown + A := snd m.

(** The statuses of a response that cannot have a body. *)
Definition null_body_status (status : N) : bool :=
  existsb (N.eqb status) [101; 103; 204; 205; 304]%N.

(** The [RangeError] and the [TypeError] of the [Response] constructor. *)
Definition status_range_error : Thrown :=
  Err "init.status must be in the range of 200 to 599, inclusive.".

Definition null_body_error (status : N) : Thrown :=
  Err ("Response constructor: Invalid response status code "
       +:+ decimal status).

(** [new Response(body, { status, headers })]: a status outside 200 to 599
    throws a [RangeError]; with a status in that range, a body that is not
    [null] together with a null-body status throws a [TypeError]. *)
Definition Response_new (body : option Bytes) (status : N) (headers : Headers)
  : Thrown + Response :=
  if negb (N.leb 200 status && N.leb status 599) then inl status_range_error
  else
    match body with
    | Some _ =>
        if null_body_status status then inl (null_body_error status)
        else inr {| resp_status := status; resp_headers := headers;
                    resp_body := body |}
    | None =>
        inr {| resp_status := status; resp_headers := headers;
               resp_body := body |}
    end.

Section Gateway.

(** The runtime's [fetch]: what the promise of [fetch(target, init)] settles
    with.  A [Response] here is the object the handler holds, that is the
    upstream's answer after [fetch] has followed redirects and undone the
    content coding of the body; the headers are the ones received. *)
Variable fetch : string -> RequestInit -> Thrown + Response.

Definition do_fetch (target : string) (init : RequestInit) : Task Response :=
  ([Fetch target init], fetch target init).

Definition getPathParts (ctx : Ctx) : Task (list string) :=
  let* _ := perform AwaitParams in
  let p := params ctx in
  resolve (default [] (p ≫= path)).

Definition proxy (req : NextRequest) (ctx : Ctx) : Task Response :=
  let* parts := getPathParts ctx in
  let search := URL_search (req_url req) in
  let target := "http://api:8000/" +:+ join "/" parts +:+ search in
  let headers := Headers_new (req_headers req) in
  let headers := Headers_delete "host" headers in
  let headers := Headers_delete "connection" headers in
  let headers :=
    Headers_set "accept"
      (default "application/json" (Headers_get "accept" headers)) headers in
  let* body :=
    if (negb (String.eqb (req_method req) "GET")
        && negb (String.eqb (req_method req) "HEAD"))%bool
    then let* _ := perform ArrayBuffer in resolve (Some (req_body req))
    else resolve None in
  let* upstream :=
    do_fetch target
      {| init_method := req_method req;
         init_headers := headers;
         init_body := body |} in
  let outHeaders := Headers_new (resp_headers upstream) in
  settle (Response_new (resp_body upstream) (resp_status upstream) outHeaders).

Definition Handler : Type := NextRequest -> Ctx -> Task Response.

Definition GET : Handler := fun req ctx => proxy req ctx.
Definition POST : Handler := fun req ctx => proxy req ctx.
Definition PUT : Handler := fun req ctx => proxy req ctx.
Definition DELETE : Handler := fun req ctx => proxy req ctx.
Definition PATCH : Handler := fun req ctx => proxy req ctx.

(** The handlers the module exports, by name. *)
Definition route_exports (name : string) : option Handler :=
  if String.eqb name "GET" then Some GET
  else if String.eqb name "POST" then Some POST
  else if String.eqb name "PUT" then Some PUT
  else if String.eqb name "DELETE" then Some DELETE
  else if String.eqb name "PATCH" then Some PATCH
  else None.

(** The routing layer around the route module (the App Router of Next.js,
    which is not code of this repository): a request goes to the export
    named after its method, and a module that exports [GET] and no [HEAD]
    has its [GET] export called for a [HEAD] request. *)
Definition app_router (exports : string -> option Handler) (method : string)
  : option Handler :=
  match exports method with
  | Some h => Some h
  | None => if String.eqb method "HEAD" then exports "GET" else None
  end.

End Gateway.

(** The response the handler builds from the upstream's. *)
Definition relay (upstream : Response) : Thrown + Response :=
  Response_new (resp_body upstream) (resp_status upstream)
    (Headers_new (resp_headers upstream)).

(** The upstream requests a handler issued, and whether it read the inbound
    body. *)
Definition fetches (t : list Effect) : list (string * RequestInit) :=
  flat_map (fun ef => match ef with Fetch u i => [(u, i)] | _ => [] end) t.

Definition reads_body (t : list Effect) : bool :=
  existsb (fun ef => match ef with ArrayBuffer => true | _ => false end) t.

(** The header names the route neither deletes nor sets. *)
Definition relayed_name (n : string) : bool :=
  negb (name_eqb n "host" || name_eqb n "connection" || name_eqb n "accept").

(** The methods the design document lists for the gateway. *)
Definition gateway_methods : list string :=
  ["GET"; "HEAD"; "POST"; "PUT"; "PATCH"; "DELETE"].

(** *** Sample traffic *)

Definition ctx_of (parts : list string) : Ctx :=
  {| params := Some {| path := Some parts |} |}.

(** An upstream that answers 404 with a two-byte body. *)
Definition upstream_404 : string -> RequestInit -> Thrown + Response :=
  fun _ _ =>
    inr {| resp_status := 404;
           resp_headers := [("content-type", "application/json")];
           resp_body := Some [x7b; x7d] |}.

Definition delete_user_7 : NextRequest :=
  {| req_url := "http://localhost:3000/api/admin/users/7?force=1";
     req_method := "DELETE";
     req_headers := [("Host", "localhost:3000"); ("Connection", "keep-alive");
                     ("Cookie", "session=abc")];
     req_body := [] |}.

Definition post_bytes : NextRequest :=
  {| req_url := "http://localhost:3000/api/yara/scan";
     req_method := "POST";
     req_headers := [("host", "localhost:3000"); ("Accept", "text/plain")];
     req_body := [x00; xff; x7b; x0a] |}.

Definition get_root : NextRequest :=
  {| req_url := "http://localhost:3000/api?limit=5";
     req_method := "GET";
     req_headers := [("host", "localhost:3000")];
     req_body := [] |}.

Definition head_root : NextRequest :=
  {| req_url := "http://localhost:3000/api/health";
     req_method := "HEAD";
     req_headers := [("host", "localhost:3000")];
     req_body := [] |}.


(** ** JSON values and the [fetch] responses the pages consume *)

(** What [res.json()] resolves to.  The pages look at numbers only through
    their truthiness, and integers stand for them; the properties of an
    object are listed once each, in insertion order. *)

#[warnings="-register-all"] Inductive JsonValue :=
| JNull
| JBool (b : bool)
| JNum (n : Z)
| JStr (s : string)
| JArr (elems : list JsonValue)
| JObj (props : list (string * JsonValue)).

(** Own properties of a parsed object, by name. *)
Fixpoint own_prop (name : string) (props : list (string * JsonValue))
  : option JsonValue :=
  match props with
  | [] => None
  | (k, v) :: t => if String.eqb k name then Some v else own_prop name t
  end.

(** [data.name] for a name no built-in prototype defines (such as [items]
    and [comparison_cnt]): a [TypeError] on [null], the own property of an
    object, [undefined] ([None]) on everything else. *)
Definition get_prop (name : string) (data : JsonValue)
  : Thrown + option JsonValue :=
  match data with
  | JNull =>
      inl (Err ("Cannot read properties of null (reading '" +:+ name +:+ "')"))
  | JObj props => inr (own_prop name props)
  | _ => inr None
  end.

Definition truthy (v : JsonValue) : bool :=
  match v with
  | JNull => false
  | JBool b => b
  | JNum n => negb (Z.eqb n 0)
  | JStr s => negb (String.eqb s "")
  | JArr _ | JObj _ => true
  end.

(** [x || d] on a possibly undefined value. *)
Definition or_else (x : option JsonValue) (d : JsonValue) : JsonValue :=
  match x with
  | Some v => if truthy v then v else d
  | None => d
  end.

(** [x ?? d]. *)
Definition nullish (x : option JsonValue) (d : JsonValue) : JsonValue :=
  match x with
  | Some JNull | None => d
  | Some v => v
  end.

Definition isArray (x : option JsonValue) : bool :=
  match x with
  | Some (JArr _) => true
  | _ => false
  end.

(** A JSON body that is an object with an array under [items]. *)
Definition has_records (data : JsonValue) : bool :=
  match data with
  | JObj props => isArray (own_prop "items" props)
  | _ => false
  end.

(** [m || d] on a message. *)
Definition message_or (m d : string) : string :=
  if String.eqb m "" then d else m.

(** Whether [ToPrimitive] throws on a parsed value.  It does on an object
    with an own [toString]: a parsed value is never callable, so that
    property is passed over, and [valueOf] gives the object back or is
    passed over as well.  It does on an array with such an element, since
    an array converts by joining the conversions of its elements. *)
Fixpoint ToPrimitive_throws (v : JsonValue) : bool :=
  match v with
  | JObj props =>
      match own_prop "toString" props with
      | Some _ => true
      | None => false
      end
  | JArr elems => existsb ToPrimitive_throws elems
  | _ => false
  end.

(** The [TypeError] of a conversion that fails. *)
Definition cannot_convert : Thrown :=
  Err "Cannot convert object to primitive value".

(** Sequencing of steps that may throw. *)
Definition and_then {A B} (r : Thrown + A) (k : A -> Thrown + B)
  : Thrown + B :=
  match r with
  | inl e => inl e
  | inr a => k a
  end.

(** [xs.map(f)] for a callback that may throw: the first throw ends it. *)
Fixpoint map_throwing {A B} (f : A -> Thrown + B) (xs : list A)
  : Thrown + list B :=
  match xs with
  | [] => inr []
  | x :: rest =>
      match f x with
      | inl e => inl e
      | inr y =>
          match map_throwing f rest with
          | inl e => inl e
          | inr ys => inr (y :: ys)
          end
      end
  end.

(** A response as the pages see it: the status line and what reading the
    body as text and as JSON settles with. *)
Record FetchResponse := {
  status : N;
  statusText : string;
  text : Thrown + string;
  json : Thrown + JsonValue
}.

(** [res.ok]: a status in the range 200 to 299. *)
Definition ok (res : FetchResponse) : bool :=
  (N.leb 200 (status res) && N.leb (status res) 299)%bool.

(** What the promise of a [fetch] settles with. *)
Inductive FetchOutcome :=
| Rejected (e : Thrown)
| Fulfilled (res : FetchResponse).

(** [app/lib/api.ts]: the page's requests go to the gateway prefix (with
    the credentials and a JSON content type, which the network here does
    not look at). *)
Definition apiFetch (fetch : string -> FetchOutcome) (path : string)
  : FetchOutcome :=
  fetch ("/api" +:+ path).

(** ** The deep-analysis page: [app/(app)/analysis/page.tsx] *)

Module Analysis.

Record BlockState := {
  loading : bool;
  items : JsonValue;
  error : option string
}.

(** The three phases of a block, read off its state. *)
Inductive Phase := Pending | Loaded | Failed.

Definition phase_of (b : BlockState) : Phase :=
  if loading b then Pending
  else match error b with
       | Some _ => Failed
       | None => Loaded
       end.

(** A call of a state setter. *)
Inductive Write :=
| SetBlock (i : nat) (s : BlockState)
| SetLoadingAll (b : bool).

(** The component state and the state of one effect run: the [alive]
    flag, which [wrap] calls still await their [fn()], whether [run] has
    resumed after [Promise.all], and the setter calls so far (latest
    first). *)
Record RunState := {
  alive : bool;
  awaiting : list bool;
  joined : bool;
  blocks : list BlockState;
  loadingAll : bool;
  writes : list Write
}.

Definition setter (i : nat) (b : BlockState) (s : RunState) : RunState :=
  {| alive := alive s; awaiting := awaiting s; joined := joined s;
     blocks := <[i := b]> (blocks s);
     loadingAll := loadingAll s;
     writes := SetBlock i b :: writes s |}.

Definition setLoadingAll (b : bool) (s : RunState) : RunState :=
  {| alive := alive s; awaiting := awaiting s; joined := joined s;
     blocks := blocks s;
     loadingAll := b;
     writes := SetLoadingAll b :: writes s |}.

Definition set_alive (b : bool) (s : RunState) : RunState :=
  {| alive := b; awaiting := awaiting s; joined := joined s;
     blocks := blocks s; loadingAll := loadingAll s; writes := writes s |}.

Definition set_awaiting (i : nat) (b : bool) (s : RunState) : RunState :=
  {| alive := alive s; awaiting := <[i := b]> (awaiting s);
     joined := joined s;
     blocks := blocks s; loadingAll := loadingAll s; writes := writes s |}.

Definition set_joined (s : RunState) : RunState :=
  {| alive := alive s; awaiting := awaiting s; joined := true;
     blocks := blocks s; loadingAll := loadingAll s; writes := writes s |}.

(** The eight blocks of the page, in the order of the [Promise.all]. *)
Definition block_paths : list string :=
  [ "/analysis/large-executables?limit=200";
    "/analysis/exes-in-appdata?limit=200";
    "/analysis/scripts-in-temp?limit=200";
    "/analysis/multi-use-hashes?limit=200";
    "/analysis/system-process-outside-system32?limit=200";
    "/analysis/high-entropy-suspicious-paths?limit=200";
    "/analysis/ifeo-debuggers-suspicious?limit=200";
    "/analysis/high-entropy-recent-pe?limit=200" ].

Definition pending_block : BlockState :=
  {| loading := true; items := JArr []; error := None |}.

(** The component as [useState] initialises it, for [k] blocks. *)
Definition mounted (k : nat) : RunState :=
  {| alive := false; awaiting := replicate k false; joined := false;
     blocks := replicate k pending_block;
     loadingAll := true;
     writes := [] |}.

(** The events of a run: the [fn()] awaited by the [i]-th [wrap] settles,
    [run] resumes after [Promise.all], the effect is cleaned up. *)
Inductive Event :=
| Settle (i : nat)
| Join
| Cleanup.

Section Run.

(** The network: what the browser's [fetch(url, ...)] settles with. *)
Variable fetch : string -> FetchOutcome.

Definition loadBlock (path : string) : Thrown + JsonValue :=
  match apiFetch fetch path with
  | Rejected e => inl e
  | Fulfilled res =>
      if negb (ok res) then
        let msg := match text res with inr t => t | inl _ => "" end in
        inl (Err (trim (decimal (status res) +:+ " " +:+ statusText res
                        +:+ " " +:+ msg)))
      else
        match json res with
        | inl e => inl e
        | inr data =>
            match get_prop "items" data with
            | inl e => inl e
            | inr its => inr (or_else its (JArr []))
            end
        end
  end.

(** [wrap(setter_i, fn)] up to its [await]. *)
Definition wrap_start (i : nat) (s : RunState) : RunState :=
  set_awaiting i true (setter i pending_block s).

(** [wrap(setter_i, fn)] from its [await] on, [fn()] having settled
    with [r]. *)
Definition wrap_resume (i : nat) (r : Thrown + JsonValue) (s : RunState)
  : RunState :=
  let s := set_awaiting i false s in
  match r with
  | inr its =>
      if negb (alive s) then s
      else setter i {| loading := false; items := its; error := None |} s
  | inl e =>
      if negb (alive s) then s
      else setter i {| loading := false; items := JArr [];
                       error := Some (message_or (message_of e) "Error") |} s
  end.

Fixpoint wrap_all (i : nat) (jobs : list string) (s : RunState) : RunState :=
  match jobs with
  | [] => s
  | _ :: rest => wrap_all (S i) rest (wrap_start i s)
  end.

(** The effect body up to the first suspension: [alive] is set, [run]
    raises [loadingAll] and starts every [wrap]. *)
Definition run (jobs : list string) : RunState :=
  wrap_all 0 jobs (setLoadingAll true (set_alive true (mounted (length jobs)))).

(** [run] after [await Promise.all(...)]. *)
Definition run_resume (s : RunState) : RunState :=
  let s := set_joined s in
  if negb (alive s) then s else setLoadingAll false s.

Definition all_settled (s : RunState) : bool :=
  forallb negb (awaiting s).

Definition step (jobs : list string) (s : RunState) (ev : Event)
  : option RunState :=
  match ev with
  | Cleanup => Some (set_alive false s)
  | Settle i =>
      match awaiting s !! i, jobs !! i with
      | Some true, Some p => Some (wrap_resume i (loadBlock p) s)
      | _, _ => None
      end
  | Join =>
      if (all_settled s && negb (joined s))%bool
      then Some (run_resume s) else None
  end.

Fixpoint steps (jobs : list string) (s : RunState) (evs : list Event)
  : option RunState :=
  match evs with
  | [] => Some s
  | ev :: rest =>
      match step jobs s ev with
      | Some s' => steps jobs s' rest
      | None => None
      end
  end.

End Run.

(** What the component shows, and the setter calls made. *)
Definition observed (s : RunState) := (blocks s, loadingAll s, writes s).

(** What holds of every state a run over [jobs] reaches: one flag and one
    block per job; in a live run a [wrap] that has resumed has settled its
    block; [loadingAll] is lowered only by [run] resuming, with every block
    settled; and [run] resumes only once every [wrap] has. *)
Record Inv (jobs : list string) (s : RunState) : Prop := {
  inv_awaiting : length (awaiting s) = length jobs;
  inv_blocks : length (blocks s) = length jobs;
  inv_settled : alive s = true -> forall i, awaiting s !! i = Some false ->
                exists b, blocks s !! i = Some b /\ loading b = false;
  inv_done : loadingAll s = false ->
             joined s = true /\ Forall (fun b => loading b = false) (blocks s);
  inv_joined : joined s = true -> all_settled s = true
}.

End Analysis.

(** *** Sample networks *)

Definition respond_json (data : JsonValue) : FetchOutcome :=
  Fulfilled {| status := 200; statusText := "OK";
               text := inr ""; json := inr data |}.

(** [/api/x] answers one record, [/api/y] answers 500, [/api/empty] answers
    the empty object, [/api/html] answers 200 with a body that is not JSON;
    nothing else is reachable. *)
Definition sample_net (url : string) : FetchOutcome :=
  if String.eqb url "/api/x" then
    respond_json (JObj [("items", JArr [JObj [("n", JNum 1)]])])
  else if String.eqb url "/api/y" then
    Fulfilled {| status := 500; statusText := "Internal Server Error";
                 text := inr "boom"; json := inl (Err "Unexpected token b") |}
  else if String.eqb url "/api/empty" then respond_json (JObj [])
  else if String.eqb url "/api/html" then
    Fulfilled {| status := 200; statusText := "OK";
                 text := inr "<html>";
                 json := inl (Err "Unexpected token <") |}
  else Rejected (Err "Failed to fetch").

(** ** The overview page: [app/(app)/page.tsx] *)

Module Overview.

(** The number [Number(v)] gives, kept symbolic: the page only stores
    it. *)
Inductive JsNumber := Number (v : JsonValue).

(** [Number(v)]: a [TypeError] when [v] does not convert to a primitive. *)
Definition Number_ (v : JsonValue) : Thrown + JsNumber :=
  if ToPrimitive_throws v then inl cannot_convert else inr (Number v).

Inductive Write :=
| SetKpis (v : JsonValue)
| SetItems (v : JsonValue)
| SetComparisonCnt (n : JsNumber)
| SetLoading (b : bool)
| SetErr (m : string).

(** Where [load] is suspended. *)
Inductive Stage :=
| AwaitAll
| AwaitKpiJson (kpiRes suspRes : FetchResponse)
| AwaitSuspJson (suspRes : FetchResponse)
| Done.

(** The component state and the state of one effect run: the [cancelled]
    flag, which of the two fetches have settled, what [Promise.all] has
    settled with (if it has), where [load] stands, and the setter calls so
    far (latest first). *)
Record LoadState := {
  cancelled : bool;
  kpiSettled : bool;
  suspSettled : bool;
  all : option (Thrown + FetchResponse * FetchResponse);
  phase : Stage;
  kpis : option JsonValue;
  items : JsonValue;
  comparisonCnt : JsNumber;
  loading : bool;
  err : string;
  writes : list Write
}.

Definition setKpis (v : JsonValue) (s : LoadState) : LoadState :=
  {| cancelled := cancelled s; kpiSettled := kpiSettled s;
     suspSettled := suspSettled s; all := all s; phase := phase s;
     kpis := Some v; items := items s; comparisonCnt := comparisonCnt s;
     loading := loading s; err := err s;
     writes := SetKpis v :: writes s |}.

Definition setItems (v : JsonValue) (s : LoadState) : LoadState :=
  {| cancelled := cancelled s; kpiSettled := kpiSettled s;
     suspSettled := suspSettled s; all := all s; phase := phase s;
     kpis := kpis s; items := v; comparisonCnt := comparisonCnt s;
     loading := loading s; err := err s;
     writes := SetItems v :: writes s |}.

Definition setComparisonCnt (n : JsNumber) (s : LoadState) : LoadState :=
  {| cancelled := cancelled s; kpiSettled := kpiSettled s;
     suspSettled := suspSettled s; all := all s; phase := phase s;
     kpis := kpis s; items := items s; comparisonCnt := n;
     loading := loading s; err := err s;
     writes := SetComparisonCnt n :: writes s |}.

Definition setLoading (b : bool) (s : LoadState) : LoadState :=
  {| cancelled := cancelled s; kpiSettled := kpiSettled s;
     suspSettled := suspSettled s; all := all s; phase := phase s;
     kpis := kpis s; items := items s; comparisonCnt := comparisonCnt s;
     loading := b; err := err s;
     writes := SetLoading b :: writes s |}.

Definition setErr (m : string) (s : LoadState) : LoadState :=
  {| cancelled := cancelled s; kpiSettled := kpiSettled s;
     suspSettled := suspSettled s; all := all s; phase := phase s;
     kpis := kpis s; items := items s; comparisonCnt := comparisonCnt s;
     loading := loading s; err := m;
     writes := SetErr m :: writes s |}.

Definition set_cancelled (b : bool) (s : LoadState) : LoadState :=
  {| cancelled := b; kpiSettled := kpiSettled s;
     suspSettled := suspSettled s; all := all s; phase := phase s;
     kpis := kpis s; items := items s; comparisonCnt := comparisonCnt s;
     loading := loading s; err := err s; writes := writes s |}.

Definition set_phase (p : Stage) (s : LoadState) : LoadState :=
  {| cancelled := cancelled s; kpiSettled := kpiSettled s;
     suspSettled := suspSettled s; all := all s; phase := p;
     kpis := kpis s; items := items s; comparisonCnt := comparisonCnt s;
     loading := loading s; err := err s; writes := writes s |}.

(** One of the two fetches settles: [kpi] tells which, [a] is what
    [Promise.all] has settled with after it. *)
Definition set_settled (kpi : bool)
  (a : option (Thrown + FetchResponse * FetchResponse)) (s : LoadState)
  : LoadState :=
  {| cancelled := cancelled s;
     kpiSettled := if kpi then true else kpiSettled s;
     suspSettled := if kpi then suspSettled s else true;
     all := a; phase := phase s;
     kpis := kpis s; items := items s; comparisonCnt := comparisonCnt s;
     loading := loading s; err := err s; writes := writes s |}.

(** What the component shows, and the setter calls made. *)
Definition observed (s : LoadState) :=
  (kpis s, items s, comparisonCnt s, loading s, err s, writes s).

(** The component as [useState] initialises it. *)
Definition mounted : LoadState :=
  {| cancelled := false; kpiSettled := false; suspSettled := false;
     all := None; phase := Done;
     kpis := None; items := JArr []; comparisonCnt := Number (JNum 0);
     loading := true; err := "";
     writes := [] |}.

(** The events of a run: one of the two fetches settles, [load] resumes
    after [Promise.all], the awaited [json()] of a response settles, the
    effect is cleaned up. *)
Inductive Event :=
| SettleKpi
| SettleSusp
| Resume
| SettleKpiJson
| SettleSuspJson
| Cleanup.

Section Load.

(** The network: what the browser's [fetch(url, ...)] settles with. *)
Variable fetch : string -> FetchOutcome.

Definition kpi_path : string := "/overview/kpis".
Definition susp_path : string := "/overview/suspicious?limit=200".

(** [Promise.all] of the two fetches after one of them settles: it rejects
    with the first rejection and fulfils once both are fulfilled. *)
Definition all_after (kpi : bool) (s : LoadState)
  : option (Thrown + FetchResponse * FetchResponse) :=
  match all s with
  | Some r => Some r
  | None =>
      match apiFetch fetch (if kpi then kpi_path else susp_path) with
      | Rejected e => Some (inl e)
      | Fulfilled _ =>
          if (if kpi then suspSettled s else kpiSettled s) then
            match apiFetch fetch kpi_path, apiFetch fetch susp_path with
            | Fulfilled k, Fulfilled u => Some (inr (k, u))
            | _, _ => None
            end
          else None
      end
  end.

(** The [finally] block. *)
Definition finally (s : LoadState) : LoadState :=
  set_phase Done (if negb (cancelled s) then setLoading false s else s).

(** The [catch] block, and the [finally] after it. *)
Definition catch (e : Thrown) (s : LoadState) : LoadState :=
  finally
    (if negb (cancelled s)
     then setErr (message_or (message_of e) "Failed to load overview") s
     else s).

(** The second [if] of the guarded block: the suspicious-files response. *)
Definition susp_branch (suspRes : FetchResponse) (s : LoadState) : LoadState :=
  if ok suspRes then set_phase (AwaitSuspJson suspRes) s
  else finally (setComparisonCnt (Number (JNum 0)) (setItems (JArr []) s)).

(** The effect body up to the first suspension. *)
Definition load : LoadState :=
  set_phase AwaitAll (setErr "" (setLoading true (set_cancelled false mounted))).

(** [load] after [await Promise.all(...)]. *)
Definition load_resume (r : Thrown + FetchResponse * FetchResponse)
  (s : LoadState) : LoadState :=
  match r with
  | inl e => catch e s
  | inr (kpiRes, suspRes) =>
      if negb (cancelled s) then
        if negb (ok kpiRes) then
          susp_branch suspRes
            (setErr ("KPI request failed (" +:+ decimal (status kpiRes) +:+ ")") s)
        else set_phase (AwaitKpiJson kpiRes suspRes) s
      else finally s
  end.

(** [load] after [await kpiRes.json()]. *)
Definition kpi_json_resume (kpiRes suspRes : FetchResponse) (s : LoadState)
  : LoadState :=
  match json kpiRes with
  | inl e => catch e s
  | inr v => susp_branch suspRes (setKpis v s)
  end.

(** [load] after [await suspRes.json()]. *)
Definition susp_json_resume (suspRes : FetchResponse) (s : LoadState)
  : LoadState :=
  match json suspRes with
  | inl e => catch e s
  | inr data =>
      match get_prop "items" data with
      | inl e => catch e s
      | inr its =>
          let s := setItems (if isArray its then default (JArr []) its
                             else JArr []) s in
          match get_prop "comparison_cnt" data with
          | inl e => catch e s
          | inr c =>
              match Number_ (nullish c (JNum 0)) with
              | inl e => catch e s
              | inr n => finally (setComparisonCnt n s)
              end
          end
      end
  end.

Definition step (s : LoadState) (ev : Event) : option LoadState :=
  match ev with
  | Cleanup => Some (set_cancelled true s)
  | SettleKpi =>
      if kpiSettled s then None
      else Some (set_settled true (all_after true s) s)
  | SettleSusp =>
      if suspSettled s then None
      else Some (set_settled false (all_after false s) s)
  | Resume =>
      match phase s, all s with
      | AwaitAll, Some r => Some (load_resume r s)
      | _, _ => None
      end
  | SettleKpiJson =>
      match phase s with
      | AwaitKpiJson kpiRes suspRes => Some (kpi_json_resume kpiRes suspRes s)
      | _ => None
      end
  | SettleSuspJson =>
      match phase s with
      | AwaitSuspJson suspRes => Some (susp_json_resume suspRes s)
      | _ => None
      end
  end.

Fixpoint steps (s : LoadState) (evs : list Event) : option LoadState :=
  match evs with
  | [] => Some s
  | ev :: rest =>
      match step s ev with
      | Some s' => steps s' rest
      | None => None
      end
  end.

End Load.

(** [load] stands at [Promise.all], or is over. *)
Definition at_rest (s : LoadState) : Prop :=
  phase s = AwaitAll \/ phase s = Done.

(** What holds of every state a run reaches: [Promise.all] is fulfilled
    only when both fetches have settled, and [load] is past it only then. *)
Record Inv (s : LoadState) : Prop := {
  inv_all : forall k u, all s = Some (inr (k, u)) ->
            kpiSettled s = true /\ suspSettled s = true;
  inv_phase : at_rest s \/ (kpiSettled s = true /\ suspSettled s = true)
}.

(** A network on which both requests of the page succeed. *)
Definition overview_net (url : string) : FetchOutcome :=
  if String.eqb url ("/api" +:+ kpi_path) then
    respond_json (JObj [("malware_matches", JNum 2); ("total_files", JNum 40)])
  else
    respond_json (JObj [("items", JArr [JObj [("host", JStr "srv1")]]);
                        ("comparison_cnt", JNum 3)]).

End Overview.

(** ** Text of a value, and CSV *)

Definition LF : ascii := "010"%char.
Definition DQ : ascii := "034"%char.
Definition COMMA : ascii := ","%char.

(** [r?.[name]] for a name that no built-in prototype defines and that is
    neither an index nor [length], as the column keys of the pages are:
    [undefined] on [null] and on everything that is not an object, the own
    property on an object.  (A name such as [length] or [toString] reads a
    built-in property instead, which this does not describe.) *)
Definition get_opt (name : string) (r : JsonValue) : option JsonValue :=
  match r with
  | JObj props => own_prop name props
  | _ => None
  end.

Record Column := { key : string; label : string }.

Section Text.

(** [Number.prototype.toString], not modelled. *)
Variable numberToString : Z -> string.

(** The text of a value that converts: an array is its elements joined
    by commas, [null] elements empty; an object is [[object Object]]. *)
Fixpoint text_of (v : JsonValue) : string :=
  match v with
  | JNull => "null"
  | JBool true => "true"
  | JBool false => "false"
  | JNum n => numberToString n
  | JStr s => s
  | JArr l =>
      join "," (map (fun e => match e with JNull => "" | _ => text_of e end) l)
  | JObj _ => "[object Object]"
  end.

(** [String(v)], and [v] in a template literal, on a parsed value: a
    [TypeError] when the value does not convert, its text otherwise. *)
Definition String_ (v : JsonValue) : Thrown + string :=
  if ToPrimitive_throws v then inl cannot_convert else inr (text_of v).

(** [DataTable]: the text of a cell, the [String] of [row?.[key]] with the
    empty string for [null] and [undefined]. *)
Definition DataTable_cell (row : JsonValue) (key : string)
  : Thrown + string :=
  String_ (nullish (get_opt key row) (JStr "")).

(** [DataTable]: the cells of a table row, one per column. *)
Definition DataTable_row (columns : list Column) (row : JsonValue)
  : Thrown + list string :=
  map_throwing (fun c => DataTable_cell row (key c)) columns.

(** [DataTable]: the rows of the table. *)
Definition DataTable_rows (columns : list Column) (rows : list JsonValue)
  : Thrown + list (list string) :=
  map_throwing (DataTable_row columns) rows.

End Text.

(** The test of [esc]: the string holds a double quote, a comma or a line
    feed. *)
Definition needs_quotes (str : string) : bool :=
  (contains DQ str || contains COMMA str || contains LF str)%bool.

(** [replaceAll] (and the global [replace]) of [esc]: every double quote
    is doubled. *)
Fixpoint double_quotes (str : string) : string :=
  match str with
  | EmptyString => EmptyString
  | String c t =>
      if Ascii.eqb c DQ then String DQ (String DQ (double_quotes t))
      else String c (double_quotes t)
  end.

(** *** [toCsv] of the deep-analysis page *)

Module AnalysisCsv.
Section ToCsv.

Variable numberToString : Z -> string.

(** The keys of the column lists of the page. *)
Definition column_keys : list string :=
  ["host"; "filename"; "path"; "size_mb"; "sha256"; "filename_count";
   "filenames"; "entropy"; "suspicious_structure"; "key_path"; "value_name";
   "value_data"; "rp_timestamp"; "hostname"; "magic_type"; "pe_timestamp";
   "pe_sections"].

Definition page_columns (columns : list Column) : bool :=
  forallb (fun c => existsb (String.eqb (key c)) column_keys) columns.

Definition esc (v : option JsonValue) : Thrown + string :=
  and_then (match v with
            | Some JNull | None => inr ""
            | Some v => String_ numberToString v
            end)
    (fun str =>
       let needs := needs_quotes str in
       let safe := double_quotes str in
       inr (if needs then String DQ safe +:+ String DQ "" else safe)).

Definition toCsv (items : list JsonValue) (columns : list Column)
  : Thrown + string :=
  if Nat.eqb (length items) 0 then inr ""
  else
    and_then (map_throwing (fun c => esc (Some (JStr (label c)))) columns)
      (fun heads =>
         let head := join "," heads in
         and_then
           (map_throwing
              (fun r =>
                 and_then
                   (map_throwing (fun c => esc (get_opt (key c) r)) columns)
                   (fun cells => inr (join "," cells)))
              items)
           (fun lines =>
              let body := join (String LF "") lines in
              inr (head +:+ String LF "" +:+ body +:+ String LF ""))).

End ToCsv.
End AnalysisCsv.

(** *** [toCsv] of the overview page *)

Module OverviewCsv.
Section ToCsv.

Variable numberToString : Z -> string.

Definition headers : list string :=
  ["Host"; "Filename"; "Path"; "Risk Level"; "RP Timestamp"; "RP Status";
   "Inserted At"; "SHA-256"; "VT Link"].

(** The eight properties a record is read for. *)
Definition fields : list string :=
  ["host"; "filename"; "path"; "risk_level"; "rp_timestamp"; "rp_status";
   "inserted_at"; "sha256"].

(** The link of a record: a template literal around a truthy [sha256]. *)
Definition vt_link (sha256 : option JsonValue) : Thrown + JsonValue :=
  match sha256 with
  | Some v =>
      if truthy v
      then and_then (String_ numberToString v)
             (fun t => inr (JStr ("https://www.virustotal.com/gui/file/"
                                  +:+ t)))
      else inr (JStr "")
  | None => inr (JStr "")
  end.

(** The nine cells of a record; reading a property of [null] throws, and so
    does a [sha256] that does not convert. *)
Definition row (r : JsonValue) : Thrown + list JsonValue :=
  match get_prop "host" r with
  | inl e => inl e
  | inr host =>
      let field name := nullish (get_opt name r) (JStr "") in
      and_then (vt_link (get_opt "sha256" r))
        (fun link =>
           inr [ nullish host (JStr "");
                 field "filename";
                 field "path";
                 field "risk_level";
                 field "rp_timestamp";
                 field "rp_status";
                 field "inserted_at";
                 field "sha256";
                 link ])
  end.

(** [items.map(r => [...])]: the first record that throws ends it. *)
Fixpoint rows (items : list JsonValue) : Thrown + list (list JsonValue) :=
  match items with
  | [] => inr []
  | r :: rest =>
      match row r with
      | inl e => inl e
      | inr cells =>
          match rows rest with
          | inl e => inl e
          | inr more => inr (cells :: more)
          end
      end
  end.

Definition esc (s : string) : string :=
  let v := s in
  if needs_quotes v then String DQ (double_quotes v) +:+ String DQ "" else v.

Definition toCsv (items : list JsonValue) : Thrown + string :=
  match rows items with
  | inl e => inl e
  | inr rs =>
      and_then
        (map_throwing
           (fun cells =>
              and_then
                (map_throwing
                   (fun c => and_then (String_ numberToString c)
                               (fun t => inr (esc t)))
                   cells)
                (fun fields => inr (join "," fields)))
           (map (map JStr) [headers] ++ rs))
        (fun lines => inr (join (String LF "") lines))
  end.

End ToCsv.
End OverviewCsv.

(** *** The scan-findings page: [app/(app)/scans/page.tsx] *)

Module Scans.
Section ToCsv.

Variable numberToString : Z -> string.

(** The keys of the two column lists of the page. *)
Definition column_keys : list string :=
  ["hostname"; "path"; "sha256"; "detection"; "rp_timestamp"; "rp_status";
   "scanned_at"; "share_name"; "file_path"; "scan_engine";
   "restore_point_time"].

Definition page_columns (columns : list Column) : bool :=
  forallb (fun c => existsb (String.eqb (key c)) column_keys) columns.

Definition esc (s : option JsonValue) : Thrown + string :=
  and_then (match s with
            | Some JNull | None => inr ""
            | Some v => String_ numberToString v
            end)
    (fun str =>
       let needs := needs_quotes str in
       let quoted := double_quotes str in
       inr (if needs then String DQ quoted +:+ String DQ "" else quoted)).

Definition toCsv (rows : list JsonValue) (columns : list Column)
  : Thrown + string :=
  and_then (map_throwing (fun c => esc (Some (JStr (label c)))) columns)
    (fun heads =>
       let header := join "," heads in
       and_then
         (map_throwing
            (fun r =>
               and_then
                 (map_throwing (fun c => esc (get_opt (key c) r)) columns)
                 (fun cells => inr (join "," cells)))
            rows)
         (fun lines =>
            let body := join (String LF "") lines in
            inr (header +:+ String LF "" +:+ body +:+ String LF ""))).

End ToCsv.
End Scans.

(** *** Sample rows *)

(** A number printer for the samples: integers in decimal. *)
Definition print_int (z : Z) : string :=
  if Z.ltb z 0 then "-" +:+ decimal (Z.to_N (Z.opp z)) else decimal (Z.to_N z).

Definition sample_columns : list Column :=
  [ {| key := "host"; label := "Host" |};
    {| key := "path"; label := "Path, full" |};
    {| key := "size_mb"; label := "Size (MB)" |} ].

(** A path that holds a comma between two double quotes. *)
Definition sample_path : string :=
  String "C" (String ":" (String DQ (String "a" (String ","
    (String "b" (String DQ "")))))).

(** A record whose path holds a comma and quotes, a [null] record, and a
    record without a host. *)
Definition sample_rows : list JsonValue :=
  [ JObj [("host", JStr "srv1");
          ("path", JStr sample_path);
          ("size_mb", JNum 51)];
    JNull;
    JObj [("path", JStr "tmp"); ("size_mb", JNull)] ].

(** Two columns of the scan-findings page and two findings, one of them
    with a quoted comma in its path. *)
Definition sample_scan_columns : list Column :=
  [ {| key := "hostname"; label := "Host" |};
    {| key := "path"; label := "Path" |} ].

Definition sample_findings : list JsonValue :=
  [ JObj [("hostname", JStr "srv1"); ("path", JStr sample_path)];
    JObj [("path", JStr "tmp"); ("detection", JNull)] ].

(** A record whose [sha256] is an object with a property named
    [toString]. *)
Definition odd_record : JsonValue :=
  JObj [("host", JStr "srv1");
        ("sha256", JObj [("toString", JNum 1)])].

(** *** A CSV reader

    Records end at a line feed, fields at a comma; a field in double quotes
    runs to its closing quote, a doubled quote inside standing for one. *)

Module CsvReader.

Inductive Mode :=
| Start       (* at the start of a record *)
| Plain       (* in a record, outside quotes *)
| Quoted      (* inside a quoted field *)
| QuoteSeen.  (* inside a quoted field, after a quote *)

(** Put a character in front of the first field of the first record. *)
Definition push (c : ascii) (rs : list (list string)) : list (list string) :=
  match rs with
  | (f :: fs) :: rest => (String c f :: fs) :: rest
  | [] :: rest => [String c ""] :: rest
  | [] => [[String c ""]]
  end.

(** Open a new field in front of the first record. *)
Definition new_field (rs : list (list string)) : list (list string) :=
  match rs with
  | fs :: rest => ("" :: fs) :: rest
  | [] => [[""; ""]]
  end.

Fixpoint read (m : Mode) (s : string) : list (list string) :=
  match s with
  | EmptyString =>
      match m with
      | Start => []
      | _ => [[""]]
      end
  | String c t =>
      match m with
      | Quoted =>
          if Ascii.eqb c DQ then read QuoteSeen t else push c (read Quoted t)
      | QuoteSeen =>
          if Ascii.eqb c DQ then push DQ (read Quoted t)
          else if Ascii.eqb c COMMA then new_field (read Plain t)
          else if Ascii.eqb c LF then [""] :: read Start t
          else push c (read Plain t)
      | Start | Plain =>
          if Ascii.eqb c DQ then read Quoted t
          else if Ascii.eqb c COMMA then new_field (read Plain t)
          else if Ascii.eqb c LF then [""] :: read Start t
          else push c (read Plain t)
      end
  end.

Definition read_csv (s : string) : list (list string) := read Start s.

(** What [esc] does to the text of a cell. *)
Definition esc_text (str : string) : string :=
  if needs_quotes str then String DQ (double_quotes str) +:+ String DQ ""
  else double_quotes str.

(** A record as a line: its fields escaped and joined by commas. *)
Definition line (cells : list string) : string :=
  join "," (map esc_text cells).

(** Put a string in front of the first field of the first record. *)
Fixpoint prepend (s : string) (rs : list (list string)) : list (list string) :=
  match s with
  | EmptyString => rs
  | String c t => push c (prepend t rs)
  end.

(** The rest of the text after a field: nothing, or a comma or a line feed
    and more. *)
Definition after_field (rest : string) : Prop :=
  match rest with
  | EmptyString => True
  | String c _ => c = COMMA \/ c = LF
  end.


End CsvReader.

(** ** More on the deep-analysis page *)

Module AnalysisMore.
Import Analysis.

(** The state [wrap] gives its block when [fn()] has settled with [r]. *)
Definition settled_block (r : Thrown + JsonValue) : BlockState :=
  match r with
  | inr its => {| loading := false; items := its; error := None |}
  | inl e => {| loading := false; items := JArr [];
                error := Some (message_or (message_of e) "Error") |}
  end.

(** The three shapes of a block: still pending, loaded, or failed with a
    detail that is not empty. *)
Definition well_formed (b : BlockState) : Prop :=
  b = pending_block \/
  (exists its, b = {| loading := false; items := its; error := None |}) \/
  (exists m, m <> "" /\
             b = {| loading := false; items := JArr []; error := Some m |}).

(** More of what holds of every state a run reaches: a settled block
    belongs to a [wrap] that has resumed; while the run is live, and after
    [loadingAll] is lowered, the block of a [wrap] that has resumed is what
    its own fetch settled with; every block has one of the three shapes. *)
Record Inv2 (fetch : string -> FetchOutcome) (jobs : list string)
  (s : RunState) : Prop := {
  inv_terminal : forall i b, blocks s !! i = Some b -> loading b = false ->
                 awaiting s !! i = Some false;
  inv_outcome : alive s = true \/ loadingAll s = false ->
                forall i p, awaiting s !! i = Some false -> jobs !! i = Some p ->
                blocks s !! i = Some (settled_block (loadBlock fetch p));
  inv_shape : Forall well_formed (blocks s)
}.

End AnalysisMore.

(** ** More on the overview page *)

Module OverviewMore.
Import Overview.

(** The two messages [load] shows. *)
Definition kpi_message (k : FetchResponse) : string :=
  "KPI request failed (" +:+ decimal (status k) +:+ ")".

Definition shown_message (e : Thrown) : string :=
  message_or (message_of e) "Failed to load overview".

(** A network on which the KPI request is answered 500 and the
    suspicious-files request 503. *)
Definition overview_net_down (url : string) : FetchOutcome :=
  if String.eqb url ("/api" +:+ kpi_path) then
    Fulfilled {| status := 500; statusText := "Internal Server Error";
                 text := inr ""; json := inl (Err "Unexpected end of JSON input") |}
  else
    Fulfilled {| status := 503; statusText := "Service Unavailable";
                 text := inr ""; json := inl (Err "Unexpected end of JSON input") |}.

(** A network on which the KPI request succeeds and the suspicious-files
    request is answered 503. *)
Definition overview_net_susp_down (url : string) : FetchOutcome :=
  if String.eqb url ("/api" +:+ kpi_path) then
    respond_json (JObj [("malware_matches", JNum 2); ("total_files", JNum 40)])
  else
    Fulfilled {| status := 503; statusText := "Service Unavailable";
                 text := inr ""; json := inl (Err "Unexpected end of JSON input") |}.

(** A network on which both requests succeed and the count of the
    suspicious-files body is an object with a property named [toString]. *)
Definition overview_net_odd_count (url : string) : FetchOutcome :=
  if String.eqb url ("/api" +:+ kpi_path) then
    respond_json (JObj [("malware_matches", JNum 2); ("total_files", JNum 40)])
  else
    respond_json (JObj [("items", JArr [JObj [("host", JStr "srv1")]]);
                        ("comparison_cnt", JObj [("toString", JNum 1)])]).

Section Load.

Variable fetch : string -> FetchOutcome.

(** What can make [load] throw [e]: a fetch that rejects with it, or a
    response with a success status whose body does not parse, or parses to
    [null], or holds a [comparison_cnt] that does not convert to a
    number. *)
Definition cause (e : Thrown) : Prop :=
  apiFetch fetch kpi_path = Rejected e \/
  apiFetch fetch susp_path = Rejected e \/
  (exists k, apiFetch fetch kpi_path = Fulfilled k /\ ok k = true /\
             json k = inl e) \/
  (exists u, apiFetch fetch susp_path = Fulfilled u /\ ok u = true /\
             (json u = inl e \/
              (exists data name, json u = inr data /\
                                 get_prop name data = inl e) \/
              (exists data c, json u = inr data /\
                              get_prop "comparison_cnt" data = inr c /\
                              Number_ (nullish c (JNum 0)) = inl e))).

(** One of the two requests failed in a way the page reports: the KPI
    request was answered with a status outside 200 to 299, or a fetch
    rejected. *)
Definition failed_request : Prop :=
  (exists k, apiFetch fetch kpi_path = Fulfilled k /\ ok k = false) \/
  (exists e, apiFetch fetch kpi_path = Rejected e) \/
  (exists e, apiFetch fetch susp_path = Rejected e).

(** What [Promise.all] and the stage of [load] hold comes from the
    network. *)
Record Ctl (s : LoadState) : Prop := {
  ctl_fulfilled : forall k u, all s = Some (inr (k, u)) ->
    apiFetch fetch kpi_path = Fulfilled k /\
    apiFetch fetch susp_path = Fulfilled u;
  ctl_rejected : forall e, all s = Some (inl e) ->
    apiFetch fetch kpi_path = Rejected e \/
    apiFetch fetch susp_path = Rejected e;
  ctl_phase :
    match phase s with
    | AwaitKpiJson k u =>
        apiFetch fetch kpi_path = Fulfilled k /\
        apiFetch fetch susp_path = Fulfilled u /\ ok k = true
    | AwaitSuspJson u =>
        apiFetch fetch susp_path = Fulfilled u /\ ok u = true /\
        exists k, apiFetch fetch kpi_path = Fulfilled k
    | _ => True
    end
}.

(** What the page shows comes from the bodies of responses with a success
    status. *)
Record Prov (s : LoadState) : Prop := {
  prov_kpis : forall v, kpis s = Some v ->
    exists k u, apiFetch fetch kpi_path = Fulfilled k /\ ok k = true /\
                json k = inr v /\ apiFetch fetch susp_path = Fulfilled u;
  prov_items :
    items s = JArr [] \/
    exists u data l, apiFetch fetch susp_path = Fulfilled u /\ ok u = true /\
                     json u = inr data /\
                     get_prop "items" data = inr (Some (JArr l)) /\
                     items s = JArr l;
  prov_count :
    comparisonCnt s = Number (JNum 0) \/
    exists u data c, apiFetch fetch susp_path = Fulfilled u /\ ok u = true /\
                     json u = inr data /\
                     get_prop "comparison_cnt" data = inr c /\
                     comparisonCnt s = Number (nullish c (JNum 0))
}.

(** The loading flag is up until [load] is over. *)
Definition LoadingOk (s : LoadState) : Prop :=
  (phase s <> Done -> loading s = true) /\
  (phase s = Done -> cancelled s = false -> loading s = false).

(** An error on the page has a cause. *)
Definition ErrOk (s : LoadState) : Prop :=
  err s = "" \/
  (exists k, apiFetch fetch kpi_path = Fulfilled k /\ ok k = false /\
             err s = kpi_message k) \/
  (exists e, cause e /\ err s = shown_message e).

(** A failed request is on the page once [load] is past the KPI
    response. *)
Definition Reported (s : LoadState) : Prop :=
  cancelled s = false ->
  phase s = Done \/ (exists u, phase s = AwaitSuspJson u) ->
  failed_request -> err s <> "".

End Load.

End OverviewMore.


(** ** The scan-findings page: [app/(app)/scans/page.tsx] *)

Module ScansLoad.

Record PageState := {
  scanItems : JsonValue;
  nasItems : JsonValue;
  loading : bool
}.

Definition setScanItems (v : JsonValue) (s : PageState) : PageState :=
  {| scanItems := v; nasItems := nasItems s; loading := loading s |}.

Definition setNasItems (v : JsonValue) (s : PageState) : PageState :=
  {| scanItems := scanItems s; nasItems := v; loading := loading s |}.

Definition setLoading (b : bool) (s : PageState) : PageState :=
  {| scanItems := scanItems s; nasItems := nasItems s; loading := b |}.

(** The three [useState] initial values. *)
Definition mounted : PageState :=
  {| scanItems := JArr []; nasItems := JArr []; loading := true |}.

Definition scan_path : string := "/scan_findings?limit=5000".
Definition nas_path : string := "/nas_scan_findings?limit=5000".

(** The list one response gives: [data.items || []] of the parsed body when
    the response is ok, the empty list otherwise. *)
Definition items_of (res : FetchResponse) : Thrown + JsonValue :=
  if ok res then
    match json res with
    | inl e => inl e
    | inr data =>
        match get_prop "items" data with
        | inl e => inl e
        | inr its => inr (or_else its (JArr []))
        end
    end
  else inr (JArr []).

Section Load.

Variable fetch : string -> FetchOutcome.

(** Of two rejected fetches, [Promise.all] rejects with the error of the
    one that settles first. *)
Variable nas_first : bool.

(** [load()]: the state it leaves, and what its promise settles with.
    There is no [try]: an error ends the function where it is raised. *)
Definition load (s : PageState) : PageState * (Thrown + unit) :=
  let s := setLoading true s in
  match apiFetch fetch scan_path, apiFetch fetch nas_path with
  | Rejected e1, Rejected e2 => (s, inl (if nas_first then e2 else e1))
  | Rejected e, Fulfilled _ => (s, inl e)
  | Fulfilled _, Rejected e => (s, inl e)
  | Fulfilled scanRes, Fulfilled nasRes =>
      match items_of scanRes with
      | inl e => (s, inl e)
      | inr v =>
          let s := setScanItems v s in
          match items_of nasRes with
          | inl e => (s, inl e)
          | inr w => (setLoading false (setNasItems w s), inr tt)
          end
      end
  end.

End Load.

(** A network on which the NAS request fails. *)
Definition scans_net (url : string) : FetchOutcome :=
  if String.eqb url "/api/scan_findings?limit=5000" then
    respond_json (JObj [("items", JArr [JObj [("hostname", JStr "h1")]])])
  else Rejected (Err "Failed to fetch").

(** A network that answers every request with status 500. *)
Definition scans_net_500 (url : string) : FetchOutcome :=
  Fulfilled {| status := 500; statusText := "Internal Server Error";
               text := inr "boom"; json := inl (Err "Unexpected token") |}.

End ScansLoad.

(** ** The YARA panel of the deep-analysis page *)

Module Yara.

(** A JavaScript [Map] with string keys: the entries in insertion order,
    one per key. *)
Definition JsMap : Type := list (string * JsonValue).

(** [map.set(k, v)]: the value of an entry that is there is replaced where
    it stands, a new entry goes last. *)
Fixpoint Map_set (k : string) (v : JsonValue) (m : JsMap) : JsMap :=
  match m with
  | [] => [(k, v)]
  | (k', v') :: t =>
      if String.eqb k' k then (k', v) :: t else (k', v') :: Map_set k v t
  end.

(** [map.get(k)], [undefined] as [None]. *)
Fixpoint Map_get (k : string) (m : JsMap) : option JsonValue :=
  match m with
  | [] => None
  | (k', v) :: t => if String.eqb k' k then Some v else Map_get k t
  end.

(** [map.keys()]. *)
Definition Map_keys (m : JsMap) : list string := map fst m.

Record YaraState := {
  yaraMsg : string;
  yaraRule : JsonValue;
  yaraBusy : bool
}.

Definition setYaraMsg (m : string) (s : YaraState) : YaraState :=
  {| yaraMsg := m; yaraRule := yaraRule s; yaraBusy := yaraBusy s |}.

Definition setYaraRule (r : JsonValue) (s : YaraState) : YaraState :=
  {| yaraMsg := yaraMsg s; yaraRule := r; yaraBusy := yaraBusy s |}.

Definition setYaraBusy (b : bool) (s : YaraState) : YaraState :=
  {| yaraMsg := yaraMsg s; yaraRule := yaraRule s; yaraBusy := b |}.

(** The [useState] initial values of the panel. *)
Definition idle : YaraState :=
  {| yaraMsg := ""; yaraRule := JStr ""; yaraBusy := false |}.

Definition msg_none_selected : string := "Keine Datei ausgewählt.".
Definition msg_no_rule : string :=
  "⚠️ Keine Rule generiert – keine ungewöhnlichen PE Sections gefunden.".
Definition msg_rule : string := "✅ Rule generiert".

(** A property of the object literal handed to [JSON.stringify], which
    leaves out the ones that are [undefined]. *)
Definition stringify_prop (name : string) (row : JsonValue)
  : list (string * JsonValue) :=
  match get_opt name row with
  | Some v => [(name, v)]
  | None => []
  end.

(** The body of the request, before it is written out as text. *)
Definition yara_body (row : JsonValue) : JsonValue :=
  JObj (stringify_prop "filename" row ++ stringify_prop "sha256" row ++
        stringify_prop "pe_sections" row ++ stringify_prop "size" row).

(** Where [generateYara] stands when it returns to the event loop: at its
    end, or at the [await] of its request. *)
Inductive Started :=
| Returned (s : YaraState)
| Awaiting (s : YaraState) (body : JsonValue).

Section Panel.

Variable numberToString : Z -> string.

(** One turn of the loop of [recentPeByFilename]: a row whose
    [r?.filename] is truthy is filed under the [String] of it, which may
    throw. *)
Definition add_row (m : JsMap) (r : JsonValue) : Thrown + JsMap :=
  match get_opt "filename" r with
  | Some f =>
      if truthy f
      then and_then (String_ numberToString f)
             (fun name => inr (Map_set name r m))
      else inr m
  | None => inr m
  end.

Fixpoint add_rows (items : list JsonValue) (m : JsMap) : Thrown + JsMap :=
  match items with
  | [] => inr m
  | r :: rest => and_then (add_row m r) (add_rows rest)
  end.

(** [recentPeByFilename]: the rows of the block by the text of their
    [filename], in one pass over the rows; a throw ends the pass. *)
Definition recentPeByFilename (items : list JsonValue) : Thrown + JsMap :=
  add_rows items [].

(** The name a row is filed under: the text of its truthy [filename]. *)
Definition filename_of (r : JsonValue) : option string :=
  match get_opt "filename" r with
  | Some f => if truthy f then Some (text_of numberToString f) else None
  | None => None
  end.

(** The row [recentPeByFilename] is expected to hold for a name: the last
    row of the block with that name. *)
Definition has_name (name : string) (r : JsonValue) : bool :=
  match filename_of r with
  | Some n => String.eqb n name
  | None => false
  end.

(** [generateYara] up to the [await] of its request. *)
Definition generateYara_start (byFilename : JsMap) (yaraSelected : string)
  (s : YaraState) : Started :=
  let s := setYaraRule (JStr "") (setYaraMsg "" s) in
  match Map_get yaraSelected byFilename with
  | Some row =>
      if truthy row then Awaiting (setYaraBusy true s) (yara_body row)
      else Returned (setYaraMsg msg_none_selected s)
  | None => Returned (setYaraMsg msg_none_selected s)
  end.

(** What the [try] block does with the settled request: the state, or the
    error it throws. *)
Definition yara_try (r : FetchOutcome) (s : YaraState) : Thrown + YaraState :=
  match r with
  | Rejected e => inl e
  | Fulfilled res =>
      if negb (ok res) then
        let msg := match text res with inr t => t | inl _ => "" end in
        inl (Err (trim (decimal (status res) +:+ " " +:+ statusText res
                        +:+ " " +:+ msg)))
      else
        match json res with
        | inl e => inl e
        | inr data =>
            match get_prop "rule" data with
            | inl e => inl e
            | inr rule =>
                match rule with
                | Some v =>
                    if truthy v then inr (setYaraMsg msg_rule (setYaraRule v s))
                    else inr (setYaraMsg msg_no_rule s)
                | None => inr (setYaraMsg msg_no_rule s)
                end
            end
        end
  end.

(** [generateYara] from the [await] on: the [try], the [catch] and the
    [finally]. *)
Definition generateYara_resume (r : FetchOutcome) (s : YaraState) : YaraState :=
  setYaraBusy false
    match yara_try r s with
    | inr s' => s'
    | inl e => setYaraMsg (message_or (message_of e) "Error") s
    end.

Variable fetch : string -> FetchOutcome.

(** One click on Generate, run to its end. *)
Definition generateYara (byFilename : JsMap) (yaraSelected : string)
  (s : YaraState) : YaraState :=
  match generateYara_start byFilename yaraSelected s with
  | Returned s' => s'
  | Awaiting s' _ =>
      generateYara_resume (apiFetch fetch "/analysis/yara-rule") s'
  end.

End Panel.

(** Rows of the recent-PE block: two of one name, one without a name. *)
Definition sample_pe : list JsonValue :=
  [ JObj [("filename", JStr "a.exe"); ("sha256", JStr "11"); ("size", JNum 5)];
    JObj [("host", JStr "h")];
    JObj [("filename", JStr "b.dll"); ("sha256", JStr "22")];
    JObj [("filename", JStr "a.exe"); ("sha256", JStr "33")] ].

Definition yara_net (url : string) : FetchOutcome :=
  if String.eqb url "/api/analysis/yara-rule" then
    respond_json (JObj [("rule", JStr "rule r { condition: true }")])
  else Rejected (Err "Failed to fetch").

End Yara.
(** * Properties *)

(** ** Header lists *)

Lemma name_eqb_refl a : name_eqb a a = true.
Proof. unfold name_eqb. apply String.eqb_refl. Qed.

Lemma name_eqb_sym a b : name_eqb a b = name_eqb b a.
Proof. unfold name_eqb. apply String.eqb_sym. Qed.

Lemma name_eqb_left a b c :
  name_eqb a b = true -> name_eqb a c = name_eqb b c.
Proof. unfold name_eqb. rewrite String.eqb_eq. intros ->. reflexivity. Qed.

Section HeaderLemmas.

Variable n : string.

Lemma Headers_has_delete h : Headers_has n (Headers_delete n h) = false.
Proof.
  induction h as [|[k w] t IH]; simpl; [reflexivity|].
  destruct (name_eqb k n) eqn:E; simpl; [exact IH|].
  rewrite E. exact IH.
Qed.

(** A filter that keeps no header named [n] does not see [delete n]. *)
Lemma filter_delete (P : Header -> bool) h :
  (forall e, P e = true -> name_eqb (fst e) n = false) ->
  List.filter P (Headers_delete n h) = List.filter P h.
Proof.
  intros HP. induction h as [|e t IH]; simpl; [reflexivity|].
  destruct (name_eqb (fst e) n) eqn:E; simpl.
  - destruct (P e) eqn:Pe; [|exact IH].
    apply HP in Pe. congruence.
  - rewrite IH. reflexivity.
Qed.

(** Nor does it see [set n v]. *)
Lemma filter_set (P : Header -> bool) v h :
  (forall e, P e = true -> name_eqb (fst e) n = false) ->
  List.filter P (Headers_set n v h) = List.filter P h.
Proof.
  intros HP.
  assert (Hn : forall k x, name_eqb k n = true -> P (k, x) = false).
  { intros k x E. destruct (P (k, x)) eqn:Pk; [|reflexivity].
    apply HP in Pk. simpl in Pk. congruence. }
  induction h as [|[k w] t IH]; simpl.
  - rewrite Hn by apply name_eqb_refl. reflexivity.
  - destruct (name_eqb k n) eqn:E; simpl.
    + rewrite filter_delete by assumption.
      rewrite !Hn by assumption. reflexivity.
    + rewrite IH. reflexivity.
Qed.

Lemma other_name m (e : Header) :
  name_eqb m n = false -> name_eqb (fst e) m = true -> name_eqb (fst e) n = false.
Proof.
  intros Hmn Hem. rewrite (name_eqb_left _ _ _ Hem). exact Hmn.
Qed.

Lemma Headers_get_delete_other m h :
  name_eqb m n = false -> Headers_get m (Headers_delete n h) = Headers_get m h.
Proof.
  intros Hmn. unfold Headers_get.
  rewrite filter_delete; [reflexivity|].
  intros e. apply other_name. exact Hmn.
Qed.

Lemma Headers_get_set_other m v h :
  name_eqb m n = false -> Headers_get m (Headers_set n v h) = Headers_get m h.
Proof.
  intros Hmn. unfold Headers_get.
  rewrite filter_set; [reflexivity|].
  intros e. apply other_name. exact Hmn.
Qed.

Lemma Headers_has_delete_other m h :
  name_eqb m n = false -> Headers_has m (Headers_delete n h) = Headers_has m h.
Proof.
  intros Hmn. induction h as [|[k w] t IH]; simpl; [reflexivity|].
  destruct (name_eqb k n) eqn:E; simpl.
  - destruct (name_eqb k m) eqn:Ekm; [|exact IH].
    rewrite (name_eqb_left _ _ _ Ekm), Hmn in E. discriminate.
  - rewrite IH. reflexivity.
Qed.

Lemma Headers_has_set_other m v h :
  name_eqb m n = false -> Headers_has m (Headers_set n v h) = Headers_has m h.
Proof.
  intros Hmn. induction h as [|[k w] t IH]; simpl.
  - rewrite name_eqb_sym, Hmn. reflexivity.
  - destruct (name_eqb k n) eqn:E; simpl.
    + rewrite Headers_has_delete_other by assumption. reflexivity.
    + rewrite IH. reflexivity.
Qed.

Lemma filter_name_delete h :
  List.filter (fun e => name_eqb (fst e) n) (Headers_delete n h) = [].
Proof.
  induction h as [|[k w] t IH]; simpl; [reflexivity|].
  destruct (name_eqb k n) eqn:E; simpl; [exact IH|].
  rewrite E. exact IH.
Qed.

(** After [set n v] there is one header named [n], and it holds [v]. *)
Lemma Headers_get_set v h : Headers_get n (Headers_set n v h) = Some v.
Proof.
  unfold Headers_get. induction h as [|[k w] t IH]; simpl.
  - rewrite name_eqb_refl. reflexivity.
  - destruct (name_eqb k n) eqn:E; simpl; rewrite E.
    + rewrite filter_name_delete. reflexivity.
    + exact IH.
Qed.

End HeaderLemmas.

(** ** The gateway *)

(** [proxy] in one piece: what it does to the outside, and what it settles
    with. *)
Lemma proxy_run fetch req ctx :
  let hs := Headers_delete "connection" (Headers_delete "host" (req_headers req)) in
  let has_body :=
    (negb (String.eqb (req_method req) "GET")
     && negb (String.eqb (req_method req) "HEAD"))%bool in
  let target :=
    "http://api:8000/" +:+ join "/" (default [] (params ctx ≫= path))
      +:+ URL_search (req_url req) in
  let init :=
    {| init_method := req_method req;
       init_headers :=
         Headers_set "accept"
           (default "application/json" (Headers_get "accept" hs)) hs;
       init_body := if has_body then Some (req_body req) else None |} in
  proxy fetch req ctx =
    (AwaitParams :: (if has_body then [ArrayBuffer] else []) ++ [Fetch target init],
     match fetch target init with
     | inl e => inl e
     | inr upstream => relay upstream
     end).
Proof.
  unfold proxy, getPathParts, do_fetch, await, perform, resolve, settle, relay,
    Headers_new.
  simpl.
  destruct (negb (String.eqb (req_method req) "GET")
            && negb (String.eqb (req_method req) "HEAD"))%bool; simpl;
    match goal with |- context [fetch ?u ?i] => destruct (fetch u i) as [e|up] end;
    rewrite ?app_nil_r; reflexivity.
Qed.



(** Name the upstream request of [proxy fetch req ctx] as the witness of a
    goal that asks for it. *)
Ltac proxy_request fetch req ctx H :=
  pose proof (proxy_run fetch req ctx) as H; cbv zeta in H;
  match type of H with
  | _ = (_ :: _ ++ [Fetch ?u ?i], _) => exists u, i
  end.

Lemma fetches_proxy_trace (b : bool) target init :
  fetches (AwaitParams :: (if b then [ArrayBuffer] else []) ++ [Fetch target init])
  = [(target, init)].
Proof. destruct b; reflexivity. Qed.

(** C3.  The request [proxy] sends upstream has no [host] and no
    [connection] header; its [accept] header is the inbound one when there
    is one and [application/json] otherwise; every other inbound header is
    there unchanged, in the inbound order. *)
Theorem proxy_outbound_headers fetch req ctx :
  exists target init,
    fetches (effects (proxy fetch req ctx)) = [(target, init)] /\
    Headers_has "host" (init_headers init) = false /\
    Headers_has "connection" (init_headers init) = false /\
    Headers_get "accept" (init_headers init)
      = Some (default "application/json"
                (Headers_get "accept" (req_headers req))) /\
    List.filter (fun e => relayed_name (fst e)) (init_headers init)
      = List.filter (fun e => relayed_name (fst e)) (req_headers req) /\
    (forall n, relayed_name n = true ->
       Headers_get n (init_headers init) = Headers_get n (req_headers req)).
Proof.
  proxy_request fetch req ctx H. split; [|repeat split].
  - rewrite H. apply fetches_proxy_trace.
  - simpl. rewrite Headers_has_set_other by reflexivity.
    rewrite Headers_has_delete_other by reflexivity.
    apply Headers_has_delete.
  - simpl. rewrite Headers_has_set_other by reflexivity.
    apply Headers_has_delete.
  - simpl. rewrite Headers_get_set.
    rewrite !Headers_get_delete_other by reflexivity. reflexivity.
  - simpl.
    assert (Hrel : forall m (e : Header),
               (name_eqb m "host" || name_eqb m "connection"
                || name_eqb m "accept")%bool = true ->
               name_eqb (fst e) m = true -> relayed_name (fst e) = false).
    { intros m e Hm He. unfold relayed_name.
      rewrite !(name_eqb_left _ _ _ He), Hm. reflexivity. }
    assert (Hno : forall m,
               (name_eqb m "host" || name_eqb m "connection"
                || name_eqb m "accept")%bool = true ->
               forall e : Header, relayed_name (fst e) = true ->
                                  name_eqb (fst e) m = false).
    { intros m Hm e He. destruct (name_eqb (fst e) m) eqn:E; [|reflexivity].
      rewrite (Hrel m e Hm E) in He. discriminate. }
    rewrite filter_set by (apply Hno; reflexivity).
    rewrite !filter_delete by (apply Hno; reflexivity).
    reflexivity.
  - intros n Hn. simpl. unfold relayed_name in Hn.
    apply negb_true_iff in Hn.
    apply orb_false_iff in Hn as [Hn Ha].
    apply orb_false_iff in Hn as [Hh Hc].
    rewrite Headers_get_set_other by assumption.
    rewrite !Headers_get_delete_other by assumption.
    reflexivity.
Qed.

(** *** Splitting and joining *)

Lemma contains_app c s t :
  contains c (s +:+ t) = (contains c s || contains c t)%bool.
Proof.
  induction s as [|d s IH]; simpl; [reflexivity|].
  rewrite IH. apply orb_assoc.
Qed.

Lemma before_absent c s : contains c s = false -> before c s = s.
Proof.
  induction s as [|d s IH]; simpl; [reflexivity|].
  intros H. apply orb_false_iff in H as [Hd Hs].
  rewrite Hd, IH by assumption. reflexivity.
Qed.

Lemma from_absent c s : contains c s = false -> from c s = "".
Proof.
  induction s as [|d s IH]; simpl; [reflexivity|].
  intros H. apply orb_false_iff in H as [Hd Hs].
  rewrite Hd. apply IH, Hs.
Qed.

Lemma from_app c s t :
  contains c s = false -> from c (s +:+ String c t) = String c t.
Proof.
  induction s as [|d s IH]; simpl.
  - intros _. rewrite Ascii.eqb_refl. reflexivity.
  - intros H. apply orb_false_iff in H as [Hd Hs].
    rewrite Hd. apply IH, Hs.
Qed.

Lemma split_absent c s : contains c s = false -> split c s = [s].
Proof.
  induction s as [|d s IH]; simpl; [reflexivity|].
  intros H. apply orb_false_iff in H as [Hd Hs].
  rewrite Hd, IH by assumption. reflexivity.
Qed.

Lemma split_app c s t :
  contains c s = false -> split c (s +:+ String c t) = s :: split c t.
Proof.
  induction s as [|d s IH]; simpl.
  - intros _. rewrite Ascii.eqb_refl. reflexivity.
  - intros H. apply orb_false_iff in H as [Hd Hs].
    rewrite Hd, IH by assumption. reflexivity.
Qed.

(** Joining segments that hold no slash loses nothing: splitting the path
    at its slashes gives the segments back. *)
Lemma split_join parts :
  parts <> [] ->
  Forall (fun p => contains "/" p = false) parts ->
  split "/" (join "/" parts) = parts.
Proof.
  intros Hne Hall. induction Hall as [|p rest Hp Hrest IH]; [congruence|].
  destruct rest as [|q rest'].
  - simpl. apply split_absent, Hp.
  - change (join "/" (p :: q :: rest'))
      with (p +:+ String "/" (join "/" (q :: rest'))).
    rewrite split_app by exact Hp.
    rewrite IH by discriminate. reflexivity.
Qed.

(** The query of a serialised URL is what follows its first question
    mark. *)
Lemma URL_search_query base query :
  contains "?" base = false -> contains "#" base = false ->
  contains "#" query = false -> query <> "" ->
  URL_search (base +:+ "?" +:+ query) = "?" +:+ query.
Proof.
  intros Hq Hb Hf Hne. unfold URL_search.
  rewrite before_absent.
  - change ("?" +:+ query) with (String "?" query).
    rewrite from_app by exact Hq.
    destruct query; [congruence|reflexivity].
  - rewrite contains_app, Hb. simpl. exact Hf.
Qed.

Lemma URL_search_no_query url : contains "?" url = false -> URL_search url = "".
Proof.
  intros H. unfold URL_search.
  assert (Hb : contains "?" (before "#" url) = false).
  { induction url as [|d s IH]; simpl in *; [reflexivity|].
    apply orb_false_iff in H as [Hd Hs].
    destruct (Ascii.eqb d "#"); simpl; [reflexivity|].
    rewrite Hd. apply IH, Hs. }
  rewrite from_absent by exact Hb. reflexivity.
Qed.

(** C4.  For GET and HEAD [proxy] does not read the inbound body and sends
    none upstream; for every other method the body it sends is the inbound
    byte sequence itself. *)
Theorem proxy_body_roundtrip fetch req ctx :
  exists target init,
    fetches (effects (proxy fetch req ctx)) = [(target, init)] /\
    init_method init = req_method req /\
    (req_method req = "GET" \/ req_method req = "HEAD" ->
       init_body init = None /\
       reads_body (effects (proxy fetch req ctx)) = false) /\
    (req_method req <> "GET" -> req_method req <> "HEAD" ->
       init_body init = Some (req_body req) /\
       reads_body (effects (proxy fetch req ctx)) = true).
Proof.
  proxy_request fetch req ctx H. rewrite H. unfold effects. simpl.
  split; [apply fetches_proxy_trace|]. split; [reflexivity|]. split.
  - intros [-> | ->]; split; reflexivity.
  - intros HG HH.
    apply String.eqb_neq in HG, HH. rewrite HG, HH. split; reflexivity.
Qed.


(** C6.  The upstream URL is [http://api:8000/], the inbound segments
    joined with slashes, and the inbound query: segments that hold no
    slash are recovered from the path by splitting it, and the query is the
    inbound URL from its question mark on. *)
Theorem proxy_target_url fetch req ctx parts :
  params ctx = Some {| path := Some parts |} ->
  (exists init,
     fetches (effects (proxy fetch req ctx))
     = [("http://api:8000/" +:+ join "/" parts +:+ URL_search (req_url req),
         init)]) /\
  (parts <> [] -> Forall (fun p => contains "/" p = false) parts ->
   split "/" (join "/" parts) = parts) /\
  (forall base query,
     req_url req = base +:+ "?" +:+ query ->
     contains "?" base = false -> contains "#" base = false ->
     contains "#" query = false -> query <> "" ->
     URL_search (req_url req) = "?" +:+ query) /\
  (contains "?" (req_url req) = false -> URL_search (req_url req) = "").
Proof.
  intros Hp. repeat split.
  - pose proof (proxy_run fetch req ctx) as H. cbv zeta in H.
    rewrite Hp in H. simpl in H.
    match type of H with
    | _ = (_ :: _ ++ [Fetch _ ?i], _) => exists i
    end.
    rewrite H. apply fetches_proxy_trace.
  - apply split_join.
  - intros base query -> Hq Hb Hf Hne. apply URL_search_query; assumption.
  - apply URL_search_no_query.
Qed.

(** The route module exports a handler for GET, POST, PUT, PATCH and
    DELETE, each of them [proxy], and no other. *)
Lemma route_exports_five fetch :
  Forall (fun m => exists h, route_exports fetch m = Some h /\
                             forall req ctx, h req ctx = proxy fetch req ctx)
         ["GET"; "POST"; "PUT"; "PATCH"; "DELETE"] /\
  route_exports fetch "HEAD" = None /\
  (forall m h, route_exports fetch m = Some h ->
     In m ["GET"; "POST"; "PUT"; "PATCH"; "DELETE"]).
Proof.
  split; [|split].
  - repeat constructor; eexists; (split; [reflexivity|]); reflexivity.
  - reflexivity.
  - intros m h. unfold route_exports.
    repeat match goal with
           | |- context [String.eqb m ?x] =>
               destruct (String.eqb_spec m x) as [->|_]; [simpl; tauto|]
           end.
    discriminate.
Qed.

(** C7.  Each of the six methods GET, HEAD, POST, PUT, PATCH and DELETE
    has a handler, and that handler is [proxy]: five are exports of the
    route module, and a HEAD request is given to the GET export by the
    routing layer.  Served so, a HEAD request is sent upstream as HEAD,
    without reading or attaching a body. *)
Theorem gateway_serves_six_methods fetch :
  Forall (fun m => exists h,
            app_router (route_exports fetch) m = Some h /\
            forall req ctx, h req ctx = proxy fetch req ctx)
         gateway_methods /\
  (forall req ctx, req_method req = "HEAD" ->
     exists h target init,
       app_router (route_exports fetch) (req_method req) = Some h /\
       fetches (effects (h req ctx)) = [(target, init)] /\
       init_method init = "HEAD" /\ init_body init = None /\
       reads_body (effects (h req ctx)) = false).
Proof.
  split.
  - repeat constructor; eexists; (split; [reflexivity|]); reflexivity.
  - intros req ctx Hm. rewrite Hm. exists (GET fetch).
    pose proof (proxy_run fetch req ctx) as H. cbv zeta in H.
    rewrite Hm in H. simpl in H.
    match type of H with
    | _ = ([_; Fetch ?u ?i], _) => exists u, i
    end.
    split; [reflexivity|]. unfold GET. rewrite H.
    repeat split.
Qed.

(** C10.  Without a wildcard path ([params] undefined, [path] missing or
    empty) the segments are the empty list and [proxy] goes on: it asks the
    upstream for the root path with the inbound query, and from there on
    settles as for any other path, with the response built from what the
    upstream answers. *)
Theorem proxy_without_path fetch req ctx :
  params ctx = None \/ params ctx = Some {| path := None |}
  \/ params ctx = Some {| path := Some [] |} ->
  settled (getPathParts ctx) = inr [] /\
  exists init,
    fetches (effects (proxy fetch req ctx))
    = [("http://api:8000/" +:+ URL_search (req_url req), init)] /\
    settled (proxy fetch req ctx)
    = match fetch ("http://api:8000/" +:+ URL_search (req_url req)) init with
      | inl e => inl e
      | inr upstream => relay upstream
      end.
Proof.
  intros Hp.
  assert (Hparts : default [] (params ctx ≫= path) = []).
  { destruct Hp as [-> | [-> | ->]]; reflexivity. }
  split.
  - unfold getPathParts, settled, await, perform, resolve. simpl.
    rewrite Hparts. reflexivity.
  - pose proof (proxy_run fetch req ctx) as H. cbv zeta in H.
    rewrite Hparts in H. simpl in H.
    match type of H with
    | _ = (_ :: _ ++ [Fetch _ ?i], _) => exists i
    end.
    rewrite H. split; [apply fetches_proxy_trace|reflexivity].
Qed.

(** *** The gateway on the sample traffic *)

Lemma proxy_outbound_headers_witness :
  relayed_name "cookie" = true /\
  exists target init,
    fetches (effects (proxy upstream_404 delete_user_7
                        (ctx_of ["admin"; "users"; "7"])))
    = [(target, init)] /\
    Headers_get "accept" (init_headers init) = Some "application/json" /\
    Headers_get "cookie" (init_headers init) = Some "session=abc".
Proof.
  split; [reflexivity|].
  destruct (proxy_outbound_headers upstream_404 delete_user_7
              (ctx_of ["admin"; "users"; "7"]))
    as (target & init & Hf & _ & _ & Ha & _ & Hget).
  exists target, init. split; [exact Hf|]. split; [exact Ha|].
  rewrite (Hget "cookie" eq_refl). reflexivity.
Defined.

Lemma proxy_body_roundtrip_witness :
  (req_method get_root = "GET" \/ req_method get_root = "HEAD") /\
  req_method post_bytes <> "GET" /\ req_method post_bytes <> "HEAD" /\
  (exists target init,
     fetches (effects (proxy upstream_404 get_root (ctx_of []))) = [(target, init)] /\
     init_body init = None) /\
  (exists target init,
     fetches (effects (proxy upstream_404 post_bytes (ctx_of ["yara"; "scan"])))
     = [(target, init)] /\
     init_body init = Some [x00; xff; x7b; x0a]).
Proof.
  assert (HG : req_method get_root = "GET" \/ req_method get_root = "HEAD")
    by (left; reflexivity).
  assert (H1 : req_method post_bytes <> "GET") by discriminate.
  assert (H2 : req_method post_bytes <> "HEAD") by discriminate.
  split; [exact HG|]. split; [exact H1|]. split; [exact H2|]. split.
  - destruct (proxy_body_roundtrip upstream_404 get_root (ctx_of []))
      as (target & init & Hf & _ & Hget & _).
    exists target, init. split; [exact Hf|]. exact (proj1 (Hget HG)).
  - destruct (proxy_body_roundtrip upstream_404 post_bytes
                (ctx_of ["yara"; "scan"]))
      as (target & init & Hf & _ & _ & Hpost).
    exists target, init. split; [exact Hf|]. exact (proj1 (Hpost H1 H2)).
Defined.



Lemma gateway_serves_six_methods_witness :
  req_method head_root = "HEAD" /\
  exists h init,
    app_router (route_exports upstream_404) "HEAD" = Some h /\
    fetches (effects (h head_root (ctx_of ["health"])))
    = [("http://api:8000/health", init)] /\
    init_method init = "HEAD" /\ init_body init = None.
Proof.
  split; [reflexivity|].
  destruct (proj2 (gateway_serves_six_methods upstream_404) head_root
              (ctx_of ["health"]) eq_refl)
    as (h & target & init & Hh & Hf & Hm & Hb & _).
  exists h, init. split; [exact Hh|]. split; [|split; [exact Hm|exact Hb]].
  clear Hm Hb.
  assert (Hr : app_router (route_exports upstream_404) (req_method head_root)
               = Some (GET upstream_404)) by reflexivity.
  rewrite Hr in Hh. injection Hh as <-.
  assert (Ht : fetches (effects (GET upstream_404 head_root (ctx_of ["health"])))
               = [("http://api:8000/health",
                   {| init_method := "HEAD"; init_headers := [("accept", "application/json")];
                      init_body := None |})]) by reflexivity.
  rewrite Hf in Ht. injection Ht as -> _. exact Hf.
Defined.

Lemma proxy_target_url_witness :
  params (ctx_of ["admin"; "users"; "7"])
  = Some {| path := Some ["admin"; "users"; "7"] |} /\
  (exists init,
     fetches (effects (proxy upstream_404 delete_user_7
                         (ctx_of ["admin"; "users"; "7"])))
     = [("http://api:8000/admin/users/7?force=1", init)]) /\
  split "/" "admin/users/7" = ["admin"; "users"; "7"] /\
  URL_search (req_url delete_user_7) = "?force=1".
Proof.
  assert (Hp : params (ctx_of ["admin"; "users"; "7"])
               = Some {| path := Some ["admin"; "users"; "7"] |})
    by reflexivity.
  destruct (proxy_target_url upstream_404 delete_user_7 _ _ Hp)
    as (Hurl & Hsplit & Hquery & _).
  split; [exact Hp|]. split; [exact Hurl|]. split.
  - apply Hsplit; [discriminate|]. repeat constructor.
  - apply (Hquery "http://localhost:3000/api/admin/users/7" "force=1");
      solve [reflexivity | discriminate].
Defined.

Lemma proxy_without_path_witness :
  (params {| params := None |} = None
   \/ params {| params := None |} = Some {| path := None |}
   \/ params {| params := None |} = Some {| path := Some [] |}) /\
  settled (getPathParts {| params := None |}) = inr [] /\
  exists init,
    fetches (effects (proxy upstream_404 get_root {| params := None |}))
    = [("http://api:8000/?limit=5", init)] /\
    settled (proxy upstream_404 get_root {| params := None |})
    = match upstream_404 "http://api:8000/?limit=5" init with
      | inl e => inl e
      | inr upstream => relay upstream
      end.
Proof.
  assert (Hp : params {| params := None |} = None
               \/ params {| params := None |} = Some {| path := None |}
               \/ params {| params := None |} = Some {| path := Some [] |})
    by (left; reflexivity).
  split; [exact Hp|].
  exact (proxy_without_path upstream_404 get_root {| params := None |} Hp).
Defined.

(** ** Decimal numerals and trimming *)

(** A byte below 128 that is no white space: white space does not start
    with it. *)
Lemma trimStart_head c t :
  is_space c = false -> Nat.ltb (nat_of_ascii c) 128 = true ->
  trimStart (String c t) = String c t.
Proof.
  intros Hc Hn. apply Nat.ltb_lt in Hn.
  assert (H2 : forall c2, is_space2 c c2 = false).
  { intros c2. unfold is_space2.
    destruct (Nat.eqb_spec (nat_of_ascii c) 194); [lia|reflexivity]. }
  assert (H3 : forall c2 c3, is_space3 c c2 c3 = false).
  { intros c2 c3. unfold is_space3. cbv zeta.
    destruct (Nat.eqb_spec (nat_of_ascii c) 225); [lia|].
    destruct (Nat.eqb_spec (nat_of_ascii c) 226); [lia|].
    destruct (Nat.eqb_spec (nat_of_ascii c) 227); [lia|].
    destruct (Nat.eqb_spec (nat_of_ascii c) 239); [lia|].
    reflexivity. }
  simpl. rewrite Hc.
  destruct t as [|c2 [|c3 t3]]; [reflexivity| |].
  - rewrite H2. reflexivity.
  - rewrite H2, H3. reflexivity.
Qed.

Lemma decimal_head n :
  exists c t, decimal n = String c t /\ is_space c = false /\
              Nat.ltb (nat_of_ascii c) 128 = true.
Proof.
  unfold decimal.
  assert (Hnn : N.to_uint n <> Decimal.Nil).
  { destruct n as [|p]; simpl; [discriminate|].
    apply DecimalPos.Unsigned.to_uint_nonnil. }
  destruct (N.to_uint n); try congruence; simpl; eexists _, _;
    (split; [reflexivity|split; reflexivity]).
Qed.

Lemma trimEnd_head c t :
  is_space c = false -> Nat.ltb (nat_of_ascii c) 128 = true ->
  trimEnd (String c t) <> "".
Proof.
  intros Hc Hn.
  change (trimEnd (String c t))
    with (if blank (String c t) then "" else String c (trimEnd t)).
  unfold blank. rewrite (trimStart_head c t Hc Hn). discriminate.
Qed.

(** A string that starts with a numeral does not trim to the empty string,
    so [e.message || "Error"] is the message. *)
Lemma message_or_trim_decimal n rest d :
  message_or (trim (decimal n +:+ rest)) d = trim (decimal n +:+ rest).
Proof.
  destruct (decimal_head n) as (c & t & -> & Hc & Hn).
  unfold message_or, trim.
  change (String c t +:+ rest) with (String c (t +:+ rest)).
  rewrite (trimStart_head c _ Hc Hn).
  destruct (String.eqb_spec (trimEnd (String c (t +:+ rest))) "") as [E|_];
    [|reflexivity].
  exfalso. exact (trimEnd_head c _ Hc Hn E).
Qed.

(** ** The deep-analysis page *)

Module AnalysisFacts.
Import Analysis.

Section Run.

Variable fetch : string -> FetchOutcome.
Variable jobs : list string.

(** *** The start of a run *)

Lemma replicate_cons_app {A} (x : A) n l :
  replicate n x ++ x :: l = x :: replicate n x ++ l.
Proof. induction n as [|n IH]; simpl; [|rewrite IH]; reflexivity. Qed.

Lemma wrap_all_fields js : forall i s,
  awaiting s = replicate i true ++ replicate (length js) false ->
  blocks s = replicate (i + length js) pending_block ->
  let s' := wrap_all i js s in
  alive s' = alive s /\ joined s' = joined s /\ loadingAll s' = loadingAll s /\
  awaiting s' = replicate (i + length js) true /\
  blocks s' = replicate (i + length js) pending_block.
Proof.
  induction js as [|p rest IH]; intros i s Ha Hb; simpl in *.
  - rewrite Nat.add_0_r, app_nil_r in *. auto.
  - specialize (IH (S i) (wrap_start i s)).
    replace (i + S (length rest)) with (S i + length rest) in * by lia.
    destruct IH as (H1 & H2 & H3 & H4 & H5).
    + simpl. rewrite Ha.
      rewrite insert_app_r_alt by (rewrite length_replicate; lia).
      rewrite length_replicate, Nat.sub_diag.
      simpl. apply replicate_cons_app.
    + change (blocks (wrap_start i s)) with (<[i := pending_block]> (blocks s)).
      rewrite Hb. apply insert_replicate.
    + auto.
Qed.

Lemma run_fields :
  alive (run jobs) = true /\ joined (run jobs) = false /\
  loadingAll (run jobs) = true /\
  awaiting (run jobs) = replicate (length jobs) true /\
  blocks (run jobs) = replicate (length jobs) pending_block.
Proof.
  unfold run.
  destruct (wrap_all_fields jobs 0
              (setLoadingAll true (set_alive true (mounted (length jobs)))))
    as (H1 & H2 & H3 & H4 & H5); try reflexivity.
  simpl in *. auto.
Qed.

(** *** What holds of every state a run reaches *)

Local Abbreviation Inv := (Analysis.Inv jobs).

Lemma Inv_run : Inv (run jobs).
Proof.
  destruct run_fields as (Ha & Hj & Hl & Hw & Hb).
  split.
  - rewrite Hw. apply length_replicate.
  - rewrite Hb. apply length_replicate.
  - intros _ i Hi. rewrite Hw in Hi.
    apply lookup_replicate in Hi as [? _]. discriminate.
  - rewrite Hl. discriminate.
  - rewrite Hj. discriminate.
Qed.

Lemma all_settled_lookup s i :
  all_settled s = true -> awaiting s !! i = Some true -> False.
Proof.
  unfold all_settled. rewrite forallb_forall. intros H Hi.
  apply list_elem_of_lookup_2, list_elem_of_In, H in Hi. discriminate.
Qed.

Lemma all_settled_insert s i :
  all_settled s = true -> forallb negb (<[i := false]> (awaiting s)) = true.
Proof.
  unfold all_settled. rewrite !forallb_forall. intros H x Hx.
  apply list_elem_of_In, list_elem_of_lookup in Hx as [j Hj].
  apply list_lookup_insert_Some in Hj as [(_ & <- & _) | (_ & Hj)];
    [reflexivity|].
  apply H, list_elem_of_In, list_elem_of_lookup. eauto.
Qed.

(** A [wrap] that resumes in a live run leaves its block settled. *)
Lemma wrap_resume_block i r s :
  alive s = true -> i < length (blocks s) ->
  exists b, blocks (wrap_resume i r s) !! i = Some b /\ loading b = false.
Proof.
  intros Ha Hi. unfold wrap_resume. simpl. rewrite Ha. simpl.
  destruct r as [e|its]; simpl; rewrite list_lookup_insert_eq by exact Hi;
    eauto.
Qed.

(** It touches no other block. *)
Lemma wrap_resume_others i r s j :
  j <> i -> blocks (wrap_resume i r s) !! j = blocks s !! j.
Proof.
  intros Hj. unfold wrap_resume. simpl.
  destruct r as [e|its]; destruct (alive s) eqn:E; simpl; rewrite ?E; simpl;
    rewrite ?list_lookup_insert_ne by congruence; reflexivity.
Qed.

Lemma wrap_resume_fields i r s :
  alive (wrap_resume i r s) = alive s /\
  joined (wrap_resume i r s) = joined s /\
  loadingAll (wrap_resume i r s) = loadingAll s /\
  awaiting (wrap_resume i r s) = <[i := false]> (awaiting s) /\
  length (blocks (wrap_resume i r s)) = length (blocks s).
Proof.
  unfold wrap_resume. simpl.
  destruct r as [e|its]; destruct (alive s) eqn:E; simpl; rewrite ?E; simpl;
    rewrite ?length_insert; repeat split.
Qed.

Lemma run_Inv_step s ev s' : Inv s -> step fetch jobs s ev = Some s' -> Inv s'.
Proof.
  intros [Hla Hlb Hset Hdone Hjoin] Hstep. destruct ev as [i| |]; simpl in Hstep.
  - destruct (awaiting s !! i) as [[|]|] eqn:Hi; try discriminate.
    destruct (jobs !! i) as [p|] eqn:Hp; try discriminate.
    injection Hstep as <-.
    destruct (wrap_resume_fields i (loadBlock fetch p) s)
      as (Ea & Ej & El & Ew & Eb).
    assert (Hlt : i < length (blocks s)).
    { rewrite Hlb. apply lookup_lt_is_Some. eauto. }
    split.
    + rewrite Ew, length_insert. exact Hla.
    + rewrite Eb. exact Hlb.
    + rewrite Ea, Ew. intros Ha j Hj.
      destruct (decide (j = i)) as [->|Hne].
      * apply wrap_resume_block; assumption.
      * rewrite wrap_resume_others by exact Hne.
        rewrite list_lookup_insert_ne in Hj by congruence. eauto.
    + rewrite El, Ej. intros Hl. destruct (Hdone Hl) as [Hj _].
      exfalso. eapply all_settled_lookup; eauto.
    + rewrite Ej. intros Hj.
      exfalso. eapply all_settled_lookup; eauto.
  - destruct (all_settled s && negb (joined s))%bool eqn:E; try discriminate.
    apply andb_true_iff in E as [Hall Hnj]. apply negb_true_iff in Hnj.
    injection Hstep as <-. unfold run_resume. simpl.
    destruct (alive s) eqn:Ha; simpl.
    + split; simpl; try assumption.
      * intros _. exact (Hset eq_refl).
      * intros _. split; [reflexivity|].
        apply Forall_lookup. intros i b Hb.
        assert (Hi : awaiting s !! i = Some false).
        { assert (Hlt : i < length (awaiting s)).
          { rewrite Hla, <- Hlb. apply lookup_lt_is_Some. eauto. }
          apply lookup_lt_is_Some in Hlt as [[|] Hx]; [|exact Hx].
          exfalso. eapply all_settled_lookup; eauto. }
        destruct (Hset eq_refl i Hi) as (b' & Hb' & Hload). congruence.
      * intros _. exact Hall.
    + split; simpl; try assumption.
      * intros ?; congruence.
      * intros Hl. destruct (Hdone Hl) as [Hj _]. congruence.
      * intros _. exact Hall.
  - injection Hstep as <-. split; simpl; try assumption. intros ?; congruence.
Qed.

Lemma run_Inv_steps evs : forall s s',
  Inv s -> steps fetch jobs s evs = Some s' -> Inv s'.
Proof.
  induction evs as [|ev rest IH]; simpl; intros s s' Hs Hst.
  - injection Hst as <-. exact Hs.
  - destruct (step fetch jobs s ev) as [s1|] eqn:E; [|discriminate].
    eapply IH; [|exact Hst]. eapply run_Inv_step; eauto.
Qed.

Lemma steps_app evs1 : forall evs2 s,
  steps fetch jobs s (evs1 ++ evs2)
  = match steps fetch jobs s evs1 with
    | Some s1 => steps fetch jobs s1 evs2
    | None => None
    end.
Proof.
  induction evs1 as [|ev rest IH]; simpl; intros evs2 s; [reflexivity|].
  destruct (step fetch jobs s ev); [apply IH|reflexivity].
Qed.


Lemma steps_one s ev : steps fetch jobs s [ev] = step fetch jobs s ev.
Proof. simpl. destruct (step fetch jobs s ev); reflexivity. Qed.

(** *** After the clean-up *)

Lemma step_dead s ev s' :
  alive s = false -> step fetch jobs s ev = Some s' ->
  alive s' = false /\ blocks s' = blocks s /\
  loadingAll s' = loadingAll s /\ writes s' = writes s.
Proof.
  intros Ha Hstep. destruct ev as [i| |]; simpl in Hstep.
  - destruct (awaiting s !! i) as [[|]|]; try discriminate.
    destruct (jobs !! i) as [p|]; try discriminate.
    injection Hstep as <-. unfold wrap_resume. simpl. rewrite Ha.
    destruct (loadBlock fetch p); simpl; auto.
  - destruct (all_settled s && negb (joined s))%bool; try discriminate.
    injection Hstep as <-. unfold run_resume. simpl. rewrite Ha. simpl. auto.
  - injection Hstep as <-. simpl. auto.
Qed.

Lemma steps_dead evs : forall s s',
  alive s = false -> steps fetch jobs s evs = Some s' ->
  alive s' = false /\ blocks s' = blocks s /\
  loadingAll s' = loadingAll s /\ writes s' = writes s.
Proof.
  induction evs as [|ev rest IH]; simpl; intros s s' Ha Hst.
  - injection Hst as <-. auto.
  - destruct (step fetch jobs s ev) as [s1|] eqn:E; [|discriminate].
    destruct (step_dead _ _ _ Ha E) as (Ha1 & Hb1 & Hl1 & Hw1).
    destruct (IH _ _ Ha1 Hst) as (Ha2 & Hb2 & Hl2 & Hw2).
    repeat split; congruence.
Qed.

(** Once the effect is cleaned up, whatever settles later calls no setter:
    the blocks, [loadingAll] and the list of setter calls stay as the
    clean-up found them. *)
Lemma run_cleanup_silent pre post s' :
  steps fetch jobs (run jobs) (pre ++ Cleanup :: post) = Some s' ->
  exists s,
    steps fetch jobs (run jobs) pre = Some s /\
    blocks s' = blocks s /\ loadingAll s' = loadingAll s /\
    writes s' = writes s.
Proof.
  rewrite steps_app.
  destruct (steps fetch jobs (run jobs) pre) as [s|]; [|discriminate].
  intros Hpost. exists s. split; [reflexivity|].
  simpl in Hpost.
  destruct (steps_dead post (set_alive false s) s' eq_refl Hpost)
    as (_ & Hb & Hl & Hw).
  auto.
Qed.

(** *** Settling *)

(** In a live run, the [i]-th [wrap] resuming sets block [i] to what
    [loadBlock] settled with, and no other block. *)
Lemma step_settle s i p :
  Inv s -> alive s = true ->
  awaiting s !! i = Some true -> jobs !! i = Some p ->
  exists s',
    step fetch jobs s (Settle i) = Some s' /\
    blocks s' !! i
    = Some (match loadBlock fetch p with
            | inr its => {| loading := false; items := its; error := None |}
            | inl e => {| loading := false; items := JArr [];
                          error := Some (message_or (message_of e) "Error") |}
            end) /\
    (forall j, j <> i -> blocks s' !! j = blocks s !! j) /\
    alive s' = true /\ joined s' = joined s /\
    awaiting s' = <[i := false]> (awaiting s).
Proof.
  intros HI Ha Hi Hp. simpl. rewrite Hi, Hp. eexists. split; [reflexivity|].
  assert (Hlt : i < length (blocks s)).
  { rewrite (inv_blocks _ _ HI), <- (inv_awaiting _ _ HI).
    apply lookup_lt_is_Some. eauto. }
  split; [|split; [|split; [|split]]].
  - unfold wrap_resume. simpl. rewrite Ha. simpl.
    destruct (loadBlock fetch p); simpl;
      apply list_lookup_insert_eq; exact Hlt.
  - intros j Hj. apply wrap_resume_others. exact Hj.
  - rewrite (proj1 (wrap_resume_fields _ _ _)). exact Ha.
  - apply wrap_resume_fields.
  - apply wrap_resume_fields.
Qed.

(** Every [fn()] settles, in the order of the array, and nothing else
    happens: each [wrap] resumes in turn. *)
Lemma settle_in_order n :
  n <= length jobs ->
  exists s,
    steps fetch jobs (run jobs) (map Settle (seq 0 n)) = Some s /\
    alive s = true /\ joined s = false /\
    awaiting s = replicate n false ++ replicate (length jobs - n) true.
Proof.
  induction n as [|n IH]; intros Hn.
  - exists (run jobs). destruct run_fields as (Ha & Hj & _ & Hw & _).
    rewrite Nat.sub_0_r. simpl. auto.
  - destruct IH as (s & Hs & Ha & Hj & Hw); [lia|].
    assert (HI : Inv s) by (eapply run_Inv_steps; [apply Inv_run|exact Hs]).
    assert (Hi : awaiting s !! n = Some true).
    { rewrite Hw, lookup_app_r by (rewrite length_replicate; lia).
      rewrite length_replicate, Nat.sub_diag.
      apply lookup_replicate_2. lia. }
    destruct (lookup_lt_is_Some_2 jobs n) as [p Hp]; [lia|].
    destruct (step_settle s n p HI Ha Hi Hp)
      as (s' & Hstep & _ & _ & Ha' & Hj' & Hw').
    exists s'. split; [|split; [exact Ha'|split; [congruence|]]].
    + rewrite seq_S, map_app, steps_app, Hs.
      change (map Settle [0 + n]) with [Settle n].
      rewrite steps_one. exact Hstep.
    + rewrite Hw', Hw.
      rewrite insert_app_r_alt by (rewrite length_replicate; lia).
      rewrite length_replicate, Nat.sub_diag.
      replace (length jobs - n) with (S (length jobs - S n)) by lia.
      simpl. apply replicate_cons_app.
Qed.

Lemma all_settled_replicate s :
  awaiting s = replicate (length jobs) false -> all_settled s = true.
Proof.
  intros H. unfold all_settled. rewrite H. apply forallb_forall.
  intros x Hx. apply list_elem_of_In, elem_of_replicate in Hx as [-> _].
  reflexivity.
Qed.


(** Whatever the network answers, once every fetch has settled [run]
    resumes and lowers [loadingAll]. *)
Lemma settle_all_then_join :
  exists s',
    steps fetch jobs (run jobs)
      (map Settle (seq 0 (length jobs)) ++ [Join]) = Some s' /\
    loadingAll s' = false.
Proof.
  destruct (settle_in_order (length jobs) (le_n _)) as (t & Ht & Ha & Hj & Hw).
  rewrite Nat.sub_diag, app_nil_r in Hw.
  rewrite steps_app, Ht, steps_one. simpl.
  rewrite (all_settled_replicate _ Hw), Hj. simpl.
  eexists. split; [reflexivity|].
  unfold run_resume. simpl. rewrite Ha. reflexivity.
Qed.

(** *** What [loadBlock] settles with *)

Lemma loadBlock_not_ok p res :
  apiFetch fetch p = Fulfilled res -> ok res = false ->
  loadBlock fetch p
  = inl (Err (trim (decimal (status res) +:+ " " +:+ statusText res +:+ " "
                    +:+ match text res with inr t => t | inl _ => "" end))).
Proof. intros Hp Hok. unfold loadBlock. rewrite Hp, Hok. reflexivity. Qed.

Lemma loadBlock_ok p res :
  apiFetch fetch p = Fulfilled res -> ok res = true ->
  loadBlock fetch p
  = match json res with
    | inl e => inl e
    | inr data =>
        match get_prop "items" data with
        | inl e => inl e
        | inr its => inr (or_else its (JArr []))
        end
    end.
Proof. intros Hp Hok. unfold loadBlock. rewrite Hp, Hok. reflexivity. Qed.

(** C2.  In every state a run reaches: [loadingAll] is false only when
    every [wrap] has resumed and every block is Loaded or Failed; a [wrap]
    that resumes, with a failure or not, changes no block but its own; a
    live run whose [wrap]s have all resumed does lower [loadingAll]; and
    whatever the network answers, failures included, the run in which every
    fetch settles comes to lower it. *)
Theorem run_aggregate_done evs s :
  steps fetch jobs (run jobs) evs = Some s ->
  (loadingAll s = false ->
     all_settled s = true /\ length (blocks s) = length jobs /\
     Forall (fun b => phase_of b = Loaded \/ phase_of b = Failed) (blocks s)) /\
  (forall i s', step fetch jobs s (Settle i) = Some s' ->
     forall j, j <> i -> blocks s' !! j = blocks s !! j) /\
  (alive s = true -> all_settled s = true -> joined s = false ->
     exists s', step fetch jobs s Join = Some s' /\
                loadingAll s' = false /\ blocks s' = blocks s) /\
  (exists s',
     steps fetch jobs (run jobs)
       (map Settle (seq 0 (length jobs)) ++ [Join]) = Some s' /\
     loadingAll s' = false).
Proof.
  intros Hs.
  assert (HI : Inv s) by (eapply run_Inv_steps; [apply Inv_run|exact Hs]).
  split; [|split; [|split]].
  - intros Hl. destruct (inv_done _ _ HI Hl) as [Hj Hall].
    split; [exact (inv_joined _ _ HI Hj)|]. split; [exact (inv_blocks _ _ HI)|].
    eapply Forall_impl; [exact Hall|].
    intros b Hb. unfold phase_of. rewrite Hb. destruct (error b); auto.
  - intros i s' Hstep j Hj. simpl in Hstep.
    destruct (awaiting s !! i) as [[|]|]; try discriminate.
    destruct (jobs !! i) as [p|]; try discriminate.
    injection Hstep as <-. apply wrap_resume_others. exact Hj.
  - intros Ha Hall Hj. simpl. rewrite Hall, Hj. simpl.
    eexists. split; [reflexivity|].
    unfold run_resume. simpl. rewrite Ha. simpl. auto.
  - apply settle_all_then_join.
Qed.

(** C8.  In a live run, a fetch answered with a status outside 200 to 299
    puts its block, and no other, in the Failed phase; the error detail is
    the status code, the status text and the body text (empty when the body
    cannot be read), joined by spaces and trimmed. *)
Theorem non_success_status_fails evs s i p res :
  steps fetch jobs (run jobs) evs = Some s ->
  alive s = true ->
  awaiting s !! i = Some true -> jobs !! i = Some p ->
  apiFetch fetch p = Fulfilled res -> ok res = false ->
  exists s' b,
    step fetch jobs s (Settle i) = Some s' /\
    blocks s' !! i = Some b /\
    phase_of b = Failed /\
    error b
    = Some (trim (decimal (status res) +:+ " " +:+ statusText res +:+ " "
                  +:+ match text res with inr t => t | inl _ => "" end)) /\
    items b = JArr [] /\
    (forall j, j <> i -> blocks s' !! j = blocks s !! j).
Proof.
  intros Hs Ha Hi Hp Hres Hok.
  assert (HI : Inv s) by (eapply run_Inv_steps; [apply Inv_run|exact Hs]).
  destruct (step_settle s i p HI Ha Hi Hp) as (s' & Hstep & Hb & Hoth & _).
  rewrite (loadBlock_not_ok p res Hres Hok) in Hb. simpl in Hb.
  rewrite message_or_trim_decimal in Hb.
  eexists s', _. split; [exact Hstep|]. split; [exact Hb|].
  repeat split. exact Hoth.
Qed.

(** C9 (as amended).  In a live run, a fetch answered with a status in 200
    to 299: when the body does not parse as JSON the block is Failed with
    the parse error's message as detail; when the body parses to [null] it
    is Failed with the message of the error that reading [items] of [null]
    throws as detail; when the body parses to anything else the block is
    Loaded, with the value of [items] when that is truthy (an array under
    [items] in particular) and with the empty list otherwise. *)
Theorem success_body_outcome evs s i p res :
  steps fetch jobs (run jobs) evs = Some s ->
  alive s = true ->
  awaiting s !! i = Some true -> jobs !! i = Some p ->
  apiFetch fetch p = Fulfilled res -> ok res = true ->
  exists s' b,
    step fetch jobs s (Settle i) = Some s' /\
    blocks s' !! i = Some b /\
    (forall e, json res = inl e ->
       phase_of b = Failed /\
       error b = Some (message_or (message_of e) "Error")) /\
    (json res = inr JNull ->
       phase_of b = Failed /\
       error b = Some "Cannot read properties of null (reading 'items')") /\
    (forall data, json res = inr data -> data <> JNull ->
       phase_of b = Loaded /\
       items b = or_else (match data with
                          | JObj props => own_prop "items" props
                          | _ => None
                          end) (JArr [])) /\
    (forall props l, json res = inr (JObj props) ->
       own_prop "items" props = Some (JArr l) -> items b = JArr l) /\
    (forall props, json res = inr (JObj props) ->
       own_prop "items" props = None ->
       phase_of b = Loaded /\ items b = JArr []).
Proof.
  intros Hs Ha Hi Hp Hres Hok.
  assert (HI : Inv s) by (eapply run_Inv_steps; [apply Inv_run|exact Hs]).
  destruct (step_settle s i p HI Ha Hi Hp) as (s' & Hstep & Hb & _).
  rewrite (loadBlock_ok p res Hres Hok) in Hb.
  eexists s', _. split; [exact Hstep|]. split; [exact Hb|].
  split; [|split; [|split; [|split]]].
  - intros e ->. split; reflexivity.
  - intros ->. split; reflexivity.
  - intros data -> Hnn. destruct data; try congruence; split; reflexivity.
  - intros props l -> Hl. simpl. rewrite Hl. reflexivity.
  - intros props -> Hn. simpl. rewrite Hn. split; reflexivity.
Qed.

End Run.

(** The page itself: eight blocks, and [loadingAll] is lowered once the
    eight fetches have settled, whatever each of them settled with. *)
Corollary page_settles fetch :
  exists s',
    steps fetch block_paths (run block_paths)
      [Settle 0; Settle 1; Settle 2; Settle 3; Settle 4; Settle 5; Settle 6;
       Settle 7; Join] = Some s' /\
    loadingAll s' = false.
Proof. exact (settle_all_then_join fetch block_paths). Qed.

(** The scenario of the design document: [/x] answers one record, [/y]
    answers 500 first. *)
Lemma run_aggregate_done_witness :
  exists s,
    steps sample_net ["/x"; "/y"] (run ["/x"; "/y"]) [Settle 1; Settle 0; Join]
    = Some s /\
    loadingAll s = false /\
    all_settled s = true /\
    Forall (fun b => phase_of b = Loaded \/ phase_of b = Failed) (blocks s).
Proof.
  eexists. split; [reflexivity|]. split; [reflexivity|].
  destruct (run_aggregate_done sample_net ["/x"; "/y"]
              [Settle 1; Settle 0; Join] _ eq_refl) as (Hdone & _).
  destruct (Hdone eq_refl) as (Hall & _ & Hterm).
  split; [exact Hall|exact Hterm].
Defined.

Lemma non_success_status_fails_witness :
  exists s' b,
    step sample_net ["/x"; "/y"] (run ["/x"; "/y"]) (Settle 1) = Some s' /\
    blocks s' !! 1 = Some b /\
    phase_of b = Failed /\
    error b = Some "500 Internal Server Error boom".
Proof.
  destruct (non_success_status_fails sample_net ["/x"; "/y"] [] _ 1 "/y" _
              eq_refl eq_refl eq_refl eq_refl eq_refl eq_refl)
    as (s' & b & Hstep & Hb & Hph & Herr & _).
  exists s', b. split; [exact Hstep|]. split; [exact Hb|].
  split; [exact Hph|exact Herr].
Defined.

(** C9, as stated, fails on the empty object: a 200 whose body is [{}]
    holds no array under [items], and the block is Loaded with the empty
    list. *)
Lemma empty_object_loads_empty :
  apiFetch sample_net "/empty" = respond_json (JObj []) /\
  has_records (JObj []) = false /\
  blocks <$> step sample_net ["/empty"] (run ["/empty"]) (Settle 0)
  = Some [{| loading := false; items := JArr []; error := None |}] /\
  phase_of {| loading := false; items := JArr []; error := None |} = Loaded.
Proof. repeat split. Qed.

Lemma success_body_outcome_witness :
  exists s' b,
    step sample_net ["/html"; "/x"] (run ["/html"; "/x"]) (Settle 0) = Some s' /\
    blocks s' !! 0 = Some b /\
    phase_of b = Failed /\ error b = Some "Unexpected token <".
Proof.
  destruct (success_body_outcome sample_net ["/html"; "/x"] [] _ 0 "/html" _
              eq_refl eq_refl eq_refl eq_refl eq_refl eq_refl)
    as (s' & b & Hstep & Hb & Hparse & _).
  exists s', b. split; [exact Hstep|]. split; [exact Hb|].
  exact (Hparse _ eq_refl).
Defined.

End AnalysisFacts.

(** ** The overview page *)

Module OverviewFacts.
Import Overview.

Section Load.

Variable fetch : string -> FetchOutcome.

(** *** What holds of every state a run reaches *)

Lemma Inv_load : Inv load.
Proof. split; [discriminate|]. left. left. reflexivity. Qed.

Lemma finally_fields s :
  cancelled (finally s) = cancelled s /\
  kpiSettled (finally s) = kpiSettled s /\
  suspSettled (finally s) = suspSettled s /\
  all (finally s) = all s /\ phase (finally s) = Done.
Proof.
  unfold finally. destruct (cancelled s) eqn:E; simpl; rewrite ?E; repeat split.
Qed.

Lemma catch_fields e s :
  cancelled (catch e s) = cancelled s /\
  kpiSettled (catch e s) = kpiSettled s /\
  suspSettled (catch e s) = suspSettled s /\
  all (catch e s) = all s /\ phase (catch e s) = Done.
Proof.
  unfold catch.
  destruct (finally_fields
              (if negb (cancelled s)
               then setErr (message_or (message_of e) "Failed to load overview") s
               else s)) as (H1 & H2 & H3 & H4 & H5).
  rewrite H1, H2, H3, H4, H5.
  destruct (cancelled s) eqn:E; simpl; rewrite ?E; repeat split.
Qed.

Lemma susp_branch_fields u s :
  cancelled (susp_branch u s) = cancelled s /\
  kpiSettled (susp_branch u s) = kpiSettled s /\
  suspSettled (susp_branch u s) = suspSettled s /\
  all (susp_branch u s) = all s.
Proof.
  unfold susp_branch. destruct (ok u); [simpl; repeat split|].
  destruct (finally_fields
              (setComparisonCnt (Number (JNum 0)) (setItems (JArr []) s)))
    as (H1 & H2 & H3 & H4 & _).
  rewrite H1, H2, H3, H4. repeat split.
Qed.

(** Close [f (g s) = f s] for a field [f] that [g] keeps, from the lemma
    that lists the fields [g] keeps. *)
Ltac kept L := solve [ apply L | etransitivity; [apply L | reflexivity] ].

Lemma Inv_keep s t :
  Inv s -> kpiSettled s = true -> suspSettled s = true ->
  kpiSettled t = kpiSettled s -> suspSettled t = suspSettled s -> Inv t.
Proof.
  intros _ Hk Hu E1 E2. split; rewrite E1, E2; auto.
Qed.

Lemma all_after_fulfilled kpi s k u :
  Inv s -> all_after fetch kpi s = Some (inr (k, u)) ->
  (if kpi then suspSettled s else kpiSettled s) = true.
Proof.
  intros HI. unfold all_after. destruct (all s) as [r|] eqn:Ha.
  - intros [= ->]. destruct (inv_all _ HI _ _ Ha). destruct kpi; assumption.
  - destruct (apiFetch fetch (if kpi then kpi_path else susp_path));
      [discriminate|].
    destruct (if kpi then suspSettled s else kpiSettled s);
      [reflexivity|discriminate].
Qed.

Lemma load_Inv_step s ev s' : Inv s -> step fetch s ev = Some s' -> Inv s'.
Proof.
  intros HI Hstep. destruct ev; simpl in Hstep.
  - (* the KPI fetch settles *)
    destruct (kpiSettled s) eqn:Hk; [discriminate|]. injection Hstep as <-.
    split; simpl.
    + intros k u Ha. split; [reflexivity|].
      apply (all_after_fulfilled true s k u HI Ha).
    + destruct (inv_phase _ HI) as [Hr | [Hk' _]]; [left; exact Hr|congruence].
  - (* the suspicious-files fetch settles *)
    destruct (suspSettled s) eqn:Hu; [discriminate|]. injection Hstep as <-.
    split; simpl.
    + intros k u Ha. split; [|reflexivity].
      apply (all_after_fulfilled false s k u HI Ha).
    + destruct (inv_phase _ HI) as [Hr | [_ Hu']]; [left; exact Hr|congruence].
  - (* [load] resumes *)
    destruct (phase s) eqn:Hp; try discriminate.
    destruct (all s) as [[e|[k u]]|] eqn:Ha; try discriminate;
      injection Hstep as <-; simpl.
    + destruct (catch_fields e s) as (_ & H2 & H3 & H4 & H5).
      split.
      * rewrite H2, H3, H4. apply (inv_all _ HI).
      * left. right. exact H5.
    + destruct (inv_all _ HI _ _ Ha) as [Hk Hu].
      destruct (cancelled s); simpl.
      * apply (Inv_keep s _ HI Hk Hu); kept finally_fields.
      * destruct (ok k); simpl.
        -- apply (Inv_keep s _ HI Hk Hu); reflexivity.
        -- apply (Inv_keep s _ HI Hk Hu); kept susp_branch_fields.
  - (* [kpiRes.json()] settles *)
    destruct (phase s) eqn:Hp; try discriminate. injection Hstep as <-.
    destruct (inv_phase _ HI) as [[Hr|Hr] | [Hk Hu]]; try congruence.
    unfold kpi_json_resume. destruct (json kpiRes).
    + apply (Inv_keep s _ HI Hk Hu); kept catch_fields.
    + apply (Inv_keep s _ HI Hk Hu); kept susp_branch_fields.
  - (* [suspRes.json()] settles *)
    destruct (phase s) eqn:Hp; try discriminate. injection Hstep as <-.
    destruct (inv_phase _ HI) as [[Hr|Hr] | [Hk Hu]]; try congruence.
    unfold susp_json_resume. destruct (json suspRes) as [e|data].
    + apply (Inv_keep s _ HI Hk Hu); kept catch_fields.
    + destruct (get_prop "items" data).
      * apply (Inv_keep s _ HI Hk Hu); kept catch_fields.
      * destruct (get_prop "comparison_cnt" data) as [e|c].
        -- apply (Inv_keep s _ HI Hk Hu); kept catch_fields.
        -- destruct (Number_ (nullish c (JNum 0))).
           ++ apply (Inv_keep s _ HI Hk Hu); kept catch_fields.
           ++ apply (Inv_keep s _ HI Hk Hu); kept finally_fields.
  - (* the clean-up *)
    injection Hstep as <-. split; simpl.
    + apply (inv_all _ HI).
    + apply (inv_phase _ HI).
Qed.

Lemma load_Inv_steps evs : forall s s',
  Inv s -> steps fetch s evs = Some s' -> Inv s'.
Proof.
  induction evs as [|ev rest IH]; simpl; intros s s' Hs Hst.
  - injection Hst as <-. exact Hs.
  - destruct (step fetch s ev) as [s1|] eqn:E; [|discriminate].
    eapply IH; [|exact Hst]. eapply load_Inv_step; eauto.
Qed.

(** While a fetch is outstanding, [load] has not gone past [Promise.all]
    (or is over, a fetch having failed). *)
Lemma outstanding_at_rest s :
  Inv s -> kpiSettled s = false \/ suspSettled s = false -> at_rest s.
Proof.
  intros [_ [Hr | [Hk Hu]]] [H | H]; try exact Hr; congruence.
Qed.

(** *** After the clean-up *)

Lemma step_cancelled s ev s' :
  cancelled s = true -> at_rest s -> step fetch s ev = Some s' ->
  cancelled s' = true /\ at_rest s' /\ observed s' = observed s.
Proof.
  intros Hc Hr Hstep. destruct ev; simpl in Hstep.
  - destruct (kpiSettled s); [discriminate|]. injection Hstep as <-.
    simpl. auto.
  - destruct (suspSettled s); [discriminate|]. injection Hstep as <-.
    simpl. auto.
  - destruct (phase s) eqn:Hp; try discriminate.
    destruct (all s) as [[e|[k u]]|]; try discriminate;
      injection Hstep as <-; simpl.
    + unfold catch, finally. rewrite Hc. simpl. rewrite Hc. simpl.
      split; [exact Hc|]. split; [right; reflexivity|reflexivity].
    + rewrite Hc. simpl. unfold finally. rewrite Hc. simpl.
      split; [exact Hc|]. split; [right; reflexivity|reflexivity].
  - destruct Hr as [Hr|Hr]; rewrite Hr in Hstep; discriminate.
  - destruct Hr as [Hr|Hr]; rewrite Hr in Hstep; discriminate.
  - injection Hstep as <-. simpl. auto.
Qed.

Lemma steps_cancelled evs : forall s s',
  cancelled s = true -> at_rest s -> steps fetch s evs = Some s' ->
  observed s' = observed s.
Proof.
  induction evs as [|ev rest IH]; simpl; intros s s' Hc Hr Hst.
  - injection Hst as <-. reflexivity.
  - destruct (step fetch s ev) as [s1|] eqn:E; [|discriminate].
    destruct (step_cancelled _ _ _ Hc Hr E) as (Hc1 & Hr1 & Ho1).
    rewrite <- Ho1. eapply IH; eauto.
Qed.

(** A clean-up that comes while a fetch is outstanding silences the run:
    whatever settles later, no setter is called. *)
Lemma load_cleanup_silent pre post s s' :
  steps fetch load pre = Some s ->
  kpiSettled s = false \/ suspSettled s = false ->
  steps fetch s (Cleanup :: post) = Some s' ->
  observed s' = observed s.
Proof.
  intros Hs Hout Hpost. simpl in Hpost.
  assert (Hr : at_rest s).
  { apply outstanding_at_rest; [|exact Hout].
    eapply load_Inv_steps; [apply Inv_load|exact Hs]. }
  apply (steps_cancelled post (set_cancelled true s) s' eq_refl Hr Hpost).
Qed.

End Load.
End OverviewFacts.

(** ** Clean-up *)

(** Where the clean-up does silence a run: whatever settles afterwards,
    with a value or with an error, no setter is called, so no block, no
    list and no loading flag changes.  On the analysis page this holds of a
    clean-up at any moment; on the overview page, only of a clean-up that
    finds one of the two fetches outstanding. *)
Lemma cleanup_silences_run fetch :
  (forall jobs pre post s',
     Analysis.steps fetch jobs (Analysis.run jobs)
       (pre ++ Analysis.Cleanup :: post) = Some s' ->
     exists s,
       Analysis.steps fetch jobs (Analysis.run jobs) pre = Some s /\
       Analysis.observed s' = Analysis.observed s) /\
  (forall pre post s s',
     Overview.steps fetch Overview.load pre = Some s ->
     Overview.kpiSettled s = false \/ Overview.suspSettled s = false ->
     Overview.steps fetch s (Overview.Cleanup :: post) = Some s' ->
     Overview.observed s' = Overview.observed s).
Proof.
  split.
  - intros jobs pre post s' Hs'.
    destruct (AnalysisFacts.run_cleanup_silent fetch jobs pre post s' Hs')
      as (s & Hs & Hb & Hl & Hw).
    exists s. split; [exact Hs|].
    unfold Analysis.observed. rewrite Hb, Hl, Hw. reflexivity.
  - intros pre post s s'.
    apply OverviewFacts.load_cleanup_silent.
Qed.

Lemma cleanup_silences_run_witness :
  (exists s,
     Analysis.steps sample_net ["/x"; "/y"] (Analysis.run ["/x"; "/y"])
       [Analysis.Settle 1] = Some s /\
     (Analysis.observed
        <$> Analysis.steps sample_net ["/x"; "/y"] (Analysis.run ["/x"; "/y"])
              ([Analysis.Settle 1]
               ++ Analysis.Cleanup :: [Analysis.Settle 0; Analysis.Join]))
     = Some (Analysis.observed s)) /\
  (exists s,
     Overview.steps Overview.overview_net Overview.load [Overview.SettleKpi]
     = Some s /\
     (Overview.kpiSettled s = false \/ Overview.suspSettled s = false) /\
     (Overview.observed
        <$> Overview.steps Overview.overview_net s
              (Overview.Cleanup :: [Overview.SettleSusp; Overview.Resume]))
     = Some (Overview.observed s)).
Proof.
  split.
  - destruct (proj1 (cleanup_silences_run sample_net) ["/x"; "/y"]
                [Analysis.Settle 1] [Analysis.Settle 0; Analysis.Join] _ eq_refl)
      as (s & Hs & Hobs).
    exists s. split; [exact Hs|]. rewrite <- Hobs. reflexivity.
  - eexists. split; [reflexivity|].
    assert (Hout : Overview.kpiSettled
                     (Overview.set_settled true
                        (Overview.all_after Overview.overview_net true Overview.load)
                        Overview.load) = false
                   \/ Overview.suspSettled
                        (Overview.set_settled true
                           (Overview.all_after Overview.overview_net true Overview.load)
                           Overview.load) = false)
      by (right; reflexivity).
    split; [exact Hout|].
    rewrite <- (proj2 (cleanup_silences_run Overview.overview_net)
                  [Overview.SettleKpi] [Overview.SettleSusp; Overview.Resume]
                  _ _ eq_refl Hout eq_refl).
    reflexivity.
Defined.

(** C1.  The overview page where the claim fails.  Both requests are
    answered with a success status, [load] resumes after [Promise.all],
    finds [cancelled] false and awaits the body of the KPI response; the
    clean-up comes then.  The two bodies settle after the clean-up, and
    [setKpis], [setItems] and [setComparisonCnt] are called all the same:
    [load] reads [cancelled] before it awaits the bodies and not again
    until the [finally] block (which does leave [loading] alone). *)
Theorem load_cleanup_while_reading_body :
  exists s1 sc s2,
    Overview.steps Overview.overview_net Overview.load
      [Overview.SettleKpi; Overview.SettleSusp; Overview.Resume] = Some s1 /\
    Overview.cancelled s1 = false /\ Overview.phase s1 <> Overview.Done /\
    Overview.steps Overview.overview_net s1 [Overview.Cleanup] = Some sc /\
    Overview.cancelled sc = true /\
    Overview.steps Overview.overview_net sc
      [Overview.SettleKpiJson; Overview.SettleSuspJson] = Some s2 /\
    Overview.writes s2
    = [Overview.SetComparisonCnt (Overview.Number (JNum 3));
       Overview.SetItems (JArr [JObj [("host", JStr "srv1")]]);
       Overview.SetKpis
         (JObj [("malware_matches", JNum 2); ("total_files", JNum 40)])]
      ++ Overview.writes sc /\
    Overview.kpis sc = None /\
    Overview.kpis s2
    = Some (JObj [("malware_matches", JNum 2); ("total_files", JNum 40)]) /\
    Overview.observed s2 <> Overview.observed sc /\
    Overview.loading s2 = true.
Proof.
  eexists _, _, _.
  split; [reflexivity|]. split; [reflexivity|]. split; [discriminate|].
  split; [reflexivity|]. split; [reflexivity|]. split; [reflexivity|].
  split; [reflexivity|]. split; [reflexivity|]. split; [reflexivity|].
  split; [discriminate|reflexivity].
Qed.

(** ** CSV export *)

Module CsvFacts.
Import CsvReader.

Lemma append_cons x (a b : string) : String x a +:+ b = String x (a +:+ b).
Proof. reflexivity. Qed.

Lemma append_assoc_s (a b c : string) : (a +:+ b) +:+ c = a +:+ (b +:+ c).
Proof.
  induction a as [|x a IH]; [reflexivity|].
  rewrite !append_cons, IH. reflexivity.
Qed.

Lemma append_nil_r (a : string) : a +:+ "" = a.
Proof.
  induction a as [|x a IH]; [reflexivity|]. rewrite append_cons, IH.
  reflexivity.
Qed.

Lemma prepend_field s f fs rs :
  prepend s ((f :: fs) :: rs) = ((s +:+ f) :: fs) :: rs.
Proof.
  induction s as [|c s IH]; [reflexivity|].
  simpl. rewrite IH. reflexivity.
Qed.

Lemma double_quotes_plain s : contains DQ s = false -> double_quotes s = s.
Proof.
  induction s as [|c s IH]; simpl; [reflexivity|].
  intros H. apply orb_false_iff in H as [Hc Hs].
  rewrite Hc, IH by exact Hs. reflexivity.
Qed.

Lemma needs_quotes_cons c s :
  needs_quotes (String c s) = false ->
  Ascii.eqb c DQ = false /\ Ascii.eqb c COMMA = false /\
  Ascii.eqb c LF = false /\ needs_quotes s = false.
Proof.
  unfold needs_quotes. simpl. intros H.
  apply orb_false_iff in H as [H Hl]. apply orb_false_iff in H as [Hq Hc].
  apply orb_false_iff in Hl as [Hl1 Hl2].
  apply orb_false_iff in Hq as [Hq1 Hq2].
  apply orb_false_iff in Hc as [Hc1 Hc2].
  rewrite Hq2, Hc2, Hl2. auto.
Qed.

Lemma needs_quotes_no_quote s : needs_quotes s = false -> contains DQ s = false.
Proof.
  unfold needs_quotes. intros H.
  apply orb_false_iff in H as [H _]. apply orb_false_iff in H as [H _].
  exact H.
Qed.

(** A string that needs no quotes is written as it is. *)
Lemma esc_text_plain s : needs_quotes s = false -> esc_text s = s.
Proof.
  intros H. unfold esc_text. rewrite H.
  apply double_quotes_plain, needs_quotes_no_quote, H.
Qed.

Lemma read_Start_Plain s : s <> "" -> read Start s = read Plain s.
Proof. destruct s; [congruence|reflexivity]. Qed.

Lemma read_QuoteSeen_Plain s :
  match s with String c _ => Ascii.eqb c DQ = false | EmptyString => True end ->
  read QuoteSeen s = read Plain s.
Proof. destruct s as [|c t]; [reflexivity|]. simpl. intros ->. reflexivity. Qed.

Lemma after_field_no_quote rest :
  after_field rest ->
  match rest with String c _ => Ascii.eqb c DQ = false | EmptyString => True end.
Proof. destruct rest as [|c t]; [trivial|]. intros [-> | ->]; reflexivity. Qed.

Lemma read_plain_text s rest :
  needs_quotes s = false ->
  read Plain (s +:+ rest) = prepend s (read Plain rest).
Proof.
  induction s as [|c s IH]; [reflexivity|].
  intros H. apply needs_quotes_cons in H as (Hq & Hc & Hl & Hs).
  rewrite append_cons. simpl. rewrite Hq, Hc, Hl, IH by exact Hs.
  reflexivity.
Qed.

Lemma read_Plain_DQ t : read Plain (String DQ t) = read Quoted t.
Proof. reflexivity. Qed.

Lemma read_Quoted_DQ t : read Quoted (String DQ t) = read QuoteSeen t.
Proof. reflexivity. Qed.

Lemma read_QuoteSeen_DQ t :
  read QuoteSeen (String DQ t) = push DQ (read Quoted t).
Proof. reflexivity. Qed.

Lemma read_Quoted_other c t :
  Ascii.eqb c DQ = false -> read Quoted (String c t) = push c (read Quoted t).
Proof. intros H. simpl. rewrite H. reflexivity. Qed.

Lemma read_quoted_text s rest :
  read Quoted (double_quotes s +:+ String DQ rest)
  = prepend s (read QuoteSeen rest).
Proof.
  induction s as [|c s IH].
  - reflexivity.
  - simpl double_quotes. destruct (Ascii.eqb c DQ) eqn:E.
    + rewrite !append_cons, read_Quoted_DQ, read_QuoteSeen_DQ, IH.
      apply Ascii.eqb_eq in E as ->. reflexivity.
    + rewrite append_cons, read_Quoted_other, IH by exact E. reflexivity.
Qed.

(** Reading an escaped field gives the text back, in front of what the
    rest of the input reads as. *)
Lemma read_field s rest :
  after_field rest ->
  read Plain (esc_text s +:+ rest) = prepend s (read Plain rest).
Proof.
  intros Hrest. unfold esc_text. destruct (needs_quotes s) eqn:E.
  - rewrite append_assoc_s, !append_cons, read_Plain_DQ.
    change ("" +:+ rest) with rest.
    rewrite read_quoted_text, read_QuoteSeen_Plain; [reflexivity|].
    apply after_field_no_quote, Hrest.
  - rewrite double_quotes_plain by (apply needs_quotes_no_quote, E).
    apply read_plain_text, E.
Qed.

Lemma line_cons c c' more :
  line (c :: c' :: more) = esc_text c +:+ String COMMA (line (c' :: more)).
Proof. reflexivity. Qed.

Lemma read_comma t : read Plain (String COMMA t) = new_field (read Plain t).
Proof. reflexivity. Qed.

Lemma read_LF t : read Plain (String LF t) = [""] :: read Start t.
Proof. reflexivity. Qed.

(** Reading a line gives its record back. *)
Lemma read_line cells :
  cells <> [] ->
  read Plain (line cells) = [cells] /\
  forall t, read Plain (line cells +:+ String LF t) = cells :: read Start t.
Proof.
  induction cells as [|c more IH]; [congruence|]. intros _.
  destruct more as [|c' more].
  - change (line [c]) with (esc_text c). split.
    + rewrite <- (append_nil_r (esc_text c)).
      rewrite read_field by exact I.
      change (read Plain "") with [[""]].
      rewrite prepend_field, append_nil_r. reflexivity.
    + intros t. rewrite read_field by (right; reflexivity).
      rewrite read_LF, prepend_field, append_nil_r. reflexivity.
  - destruct IH as [IH1 IH2]; [discriminate|].
    rewrite line_cons. split.
    + rewrite read_field by (left; reflexivity).
      rewrite read_comma, IH1. simpl new_field.
      rewrite prepend_field, append_nil_r. reflexivity.
    + intros t. rewrite append_assoc_s, append_cons.
      rewrite read_field by (left; reflexivity).
      rewrite read_comma, IH2. simpl new_field.
      rewrite prepend_field, append_nil_r. reflexivity.
Qed.

Lemma line_LF_nonempty cells t : line cells +:+ String LF t <> "".
Proof. destruct (line cells); discriminate. Qed.

Lemma read_Start_line cells t :
  cells <> [] ->
  read Start (line cells +:+ String LF t) = cells :: read Start t.
Proof.
  intros H. rewrite read_Start_Plain by apply line_LF_nonempty.
  apply read_line, H.
Qed.

Lemma join_cons2 sep (x y : string) rest :
  join sep (x :: y :: rest) = x +:+ sep +:+ join sep (y :: rest).
Proof. reflexivity. Qed.

(** Lines that each end with a line feed read as their records. *)
Lemma read_lines_terminated rows :
  Forall (fun cells => cells <> []) rows -> rows <> [] ->
  read Start (join (String LF "") (map line rows) +:+ String LF "") = rows.
Proof.
  induction 1 as [|r rest Hr Hrest IH]; [congruence|]. intros _.
  destruct rest as [|r' rest].
  - change (join (String LF "") (map line [r])) with (line r).
    rewrite read_Start_line by exact Hr. reflexivity.
  - change (map line (r :: r' :: rest))
      with (line r :: line r' :: map line rest).
    rewrite join_cons2, !append_assoc_s, append_cons.
    rewrite read_Start_line by exact Hr.
    change (line r' :: map line rest) with (map line (r' :: rest)).
    change ("" +:+ ?x) with x.
    rewrite IH by discriminate. reflexivity.
Qed.

(** So do lines of two fields or more of which the last has no line feed
    after it. *)
Lemma read_lines_open rows :
  Forall (fun cells => 2 <= length cells) rows ->
  read Start (join (String LF "") (map line rows)) = rows.
Proof.
  induction 1 as [|r rest Hr Hrest IH]; [reflexivity|].
  assert (Hne : r <> []) by (destruct r; [simpl in Hr; lia|discriminate]).
  destruct rest as [|r' rest].
  - change (join (String LF "") (map line [r])) with (line r).
    rewrite read_Start_Plain.
    + apply read_line, Hne.
    + destruct r as [|c [|c' more]]; simpl in Hr; try lia.
      rewrite line_cons. destruct (esc_text c); discriminate.
  - change (map line (r :: r' :: rest))
      with (line r :: line r' :: map line rest).
    rewrite join_cons2, append_cons.
    rewrite read_Start_line by exact Hne.
    change (line r' :: map line rest) with (map line (r' :: rest)).
    change ("" +:+ ?x) with x.
    rewrite IH. reflexivity.
Qed.



(** *** Steps that may throw *)

Lemma map_throwing_length {A B} (f : A -> Thrown + B) xs : forall ys,
  map_throwing f xs = inr ys -> length ys = length xs.
Proof.
  induction xs as [|x rest IH]; simpl; intros ys.
  - intros [= <-]. reflexivity.
  - destruct (f x); [discriminate|].
    destruct (map_throwing f rest); [discriminate|].
    intros [= <-]. simpl. f_equal. apply IH. reflexivity.
Qed.

Lemma map_throwing_pure {A B} (f : A -> Thrown + B) (g : A -> B) xs :
  (forall x, f x = inr (g x)) -> map_throwing f xs = inr (map g xs).
Proof.
  intros H. induction xs as [|x rest IH]; [reflexivity|].
  simpl. rewrite H, IH. reflexivity.
Qed.

(** A [map] throws exactly when its callback throws on an element. *)
Lemma map_throwing_inl {A B} (f : A -> Thrown + B) xs :
  (exists e, map_throwing f xs = inl e) <->
  (exists x, In x xs /\ exists e, f x = inl e).
Proof.
  induction xs as [|x rest IH]; simpl.
  - split; [intros [e H]; discriminate|intros (x & [] & _)].
  - destruct (f x) as [e|y] eqn:Ex.
    + split; [|eauto]. intros _. exists x. split; [left; reflexivity|eauto].
    + destruct (map_throwing f rest) as [e|ys].
      * split; [|eauto]. intros _.
        destruct (proj1 IH (ex_intro _ e eq_refl)) as (x' & Hin & He).
        exists x'. split; [right; exact Hin|exact He].
      * split; [intros [e H]; discriminate|].
        intros (x' & [<-|Hin] & e & He); [congruence|].
        destruct (proj2 IH (ex_intro _ x' (conj Hin (ex_intro _ e He))))
          as [e' He'].
        discriminate.
Qed.

Lemma map_throwing_In {A B} (f : A -> Thrown + B) xs : forall ys,
  map_throwing f xs = inr ys ->
  (forall x, In x xs -> exists y, f x = inr y /\ In y ys) /\
  (forall y, In y ys -> exists x, In x xs /\ f x = inr y).
Proof.
  induction xs as [|x rest IH]; simpl; intros ys.
  - intros [= <-]. split; [intros x []|intros y []].
  - destruct (f x) as [e|y0] eqn:Ex; [discriminate|].
    destruct (map_throwing f rest) as [e|ys0]; [discriminate|].
    intros [= <-]. destruct (IH ys0 eq_refl) as [H1 H2]. split.
    + intros x' [<-|Hin].
      * exists y0. split; [exact Ex|left; reflexivity].
      * destruct (H1 x' Hin) as (y & Hy & Hiny). exists y.
        split; [exact Hy|right; exact Hiny].
    + intros y [<-|Hin].
      * exists x. split; [left; reflexivity|exact Ex].
      * destruct (H2 y Hin) as (x' & Hx' & Hy). exists x'.
        split; [right; exact Hx'|exact Hy].
Qed.

Section Pages.

Variable num : Z -> string.

(** [String] and the test of conversion. *)
Lemma String_inr v t :
  String_ num v = inr t <->
  ToPrimitive_throws v = false /\ t = text_of num v.
Proof.
  unfold String_. destruct (ToPrimitive_throws v).
  - split; [discriminate|intros [H _]; discriminate].
  - split; [intros [= <-]; auto|intros [_ ->]; reflexivity].
Qed.

Lemma String_inl v :
  (exists e, String_ num v = inl e) <-> ToPrimitive_throws v = true.
Proof.
  unfold String_. destruct (ToPrimitive_throws v).
  - split; eauto.
  - split; [intros [e H]; discriminate|discriminate].
Qed.

(** The two [esc] that take a value write the text the table shows for
    it, escaped, and throw when the table does. *)
Lemma analysis_esc_text v :
  AnalysisCsv.esc num v
  = and_then (String_ num (nullish v (JStr "")))
      (fun t => inr (esc_text t)).
Proof. destruct v as [[]|]; reflexivity. Qed.

Lemma scans_esc_text v :
  Scans.esc num v
  = and_then (String_ num (nullish v (JStr "")))
      (fun t => inr (esc_text t)).
Proof. destruct v as [[]|]; reflexivity. Qed.

Lemma overview_esc_text s : OverviewCsv.esc s = esc_text s.
Proof.
  unfold OverviewCsv.esc, esc_text. destruct (needs_quotes s) eqn:E;
    [reflexivity|].
  symmetry. apply double_quotes_plain, needs_quotes_no_quote, E.
Qed.

Local Abbreviation shown := (DataTable_row num).
Local Abbreviation shown_all := (DataTable_rows num).

Section Table.

Variable esc : option JsonValue -> Thrown + string.
Hypothesis esc_shown : forall v,
  esc v = and_then (String_ num (nullish v (JStr "")))
            (fun t => inr (esc_text t)).

Lemma header_line columns :
  map_throwing (fun c => esc (Some (JStr (label c)))) columns
  = inr (map esc_text (map label columns)).
Proof.
  rewrite map_map. apply map_throwing_pure.
  intros c. rewrite esc_shown. reflexivity.
Qed.

Lemma row_cells columns r :
  map_throwing (fun c => esc (get_opt (key c) r)) columns
  = and_then (shown columns r) (fun texts => inr (map esc_text texts)).
Proof.
  unfold DataTable_row, DataTable_cell.
  induction columns as [|c rest IH]; [reflexivity|].
  simpl. rewrite esc_shown, IH.
  destruct (String_ num (nullish (get_opt (key c) r) (JStr ""))) as [e|t];
    [reflexivity|].
  simpl.
  destruct (map_throwing
              (fun c0 => String_ num (nullish (get_opt (key c0) r) (JStr "")))
              rest);
    reflexivity.
Qed.

Lemma body_lines columns items :
  map_throwing
    (fun r => and_then (map_throwing (fun c => esc (get_opt (key c) r)) columns)
                (fun cells => inr (join "," cells)))
    items
  = and_then (shown_all columns items) (fun texts => inr (map line texts)).
Proof.
  unfold DataTable_rows.
  induction items as [|r rest IH]; [reflexivity|].
  simpl. rewrite row_cells, IH.
  destruct (shown columns r) as [e|texts]; [reflexivity|]. simpl.
  destruct (map_throwing (shown columns) rest); reflexivity.
Qed.

(** The export of a table: the header line and the lines of the rows the
    table shows, each ended by a line feed, and the error of the table when
    a cell does not convert. *)
Lemma table_export columns items :
  and_then (map_throwing (fun c => esc (Some (JStr (label c)))) columns)
    (fun heads =>
       and_then
         (map_throwing
            (fun r =>
               and_then
                 (map_throwing (fun c => esc (get_opt (key c) r)) columns)
                 (fun cells => inr (join "," cells)))
            items)
         (fun lines =>
            inr (join "," heads +:+ String LF ""
                 +:+ join (String LF "") lines +:+ String LF "")))
  = and_then (shown_all columns items)
      (fun texts =>
         inr (line (map label columns) +:+ String LF ""
              +:+ join (String LF "") (map line texts) +:+ String LF "")).
Proof.
  rewrite header_line, body_lines. simpl.
  destruct (shown_all columns items); reflexivity.
Qed.

End Table.

(** A header, a line feed, the body lines joined by line feeds and a last
    line feed read as the header and the records. *)
Lemma read_table header (rows : list (list string)) :
  header <> [] -> rows <> [] -> Forall (fun cells => cells <> []) rows ->
  read_csv (line header +:+ String LF ""
            +:+ join (String LF "") (map line rows) +:+ String LF "")
  = header :: rows.
Proof.
  intros Hh Hr Hall. unfold read_csv.
  rewrite <- (read_lines_terminated (header :: rows));
    [|constructor; assumption|discriminate].
  f_equal.
  destruct rows as [|r rest]; [congruence|].
  change (map line (header :: r :: rest))
    with (line header :: line r :: map line rest).
  rewrite join_cons2, !append_assoc_s. reflexivity.
Qed.

Lemma shown_nonempty columns items texts :
  columns <> [] -> shown_all columns items = inr texts ->
  Forall (fun cells => cells <> []) texts.
Proof.
  intros Hc H. apply Forall_forall. intros cells Hin.
  apply list_elem_of_In in Hin.
  destruct (proj2 (map_throwing_In _ _ _ H) cells Hin) as (r & _ & Hr).
  apply map_throwing_length in Hr.
  destruct cells; [|discriminate].
  destruct columns; [congruence|discriminate].
Qed.

Lemma shown_rows columns items texts :
  items <> [] -> shown_all columns items = inr texts -> texts <> [].
Proof.
  intros Hi H. apply map_throwing_length in H.
  destruct texts; [|discriminate]. destruct items; [congruence|discriminate].
Qed.

(** X1.  [toCsv] of the deep-analysis page, for the columns of the page:
    with no record the export is empty, header and all; otherwise it
    throws exactly when the table does (a cell that does not convert to a
    string), with the same error, and when it returns a CSV reader finds
    in it the column labels and then, record by record, the texts the
    table shows, whatever quotes, commas and line feeds they hold. *)
Theorem analysis_toCsv_reads_back items columns :
  columns <> [] -> AnalysisCsv.page_columns columns = true ->
  AnalysisCsv.toCsv num [] columns = inr "" /\
  (items <> [] ->
   (forall csv, AnalysisCsv.toCsv num items columns = inr csv ->
      exists texts,
        shown_all columns items = inr texts /\
        read_csv csv = map label columns :: texts) /\
   (forall e, AnalysisCsv.toCsv num items columns = inl e <->
              shown_all columns items = inl e)).
Proof.
  intros Hc _. split; [reflexivity|]. intros Hi.
  assert (Hlen : Nat.eqb (length items) 0 = false)
    by (destruct items; [congruence|reflexivity]).
  assert (E : AnalysisCsv.toCsv num items columns
              = and_then (shown_all columns items)
                  (fun texts =>
                     inr (line (map label columns) +:+ String LF ""
                          +:+ join (String LF "") (map line texts)
                          +:+ String LF ""))).
  { unfold AnalysisCsv.toCsv. rewrite Hlen.
    apply (table_export _ analysis_esc_text). }
  rewrite E. destruct (shown_all columns items) as [e0|texts] eqn:Es; simpl.
  - split; [discriminate|]. intros e. split; intros [= ->]; reflexivity.
  - split; [|intros e; split; discriminate].
    intros csv [= <-]. exists texts. split; [reflexivity|].
    apply read_table.
    + destruct columns; [congruence|discriminate].
    + exact (shown_rows columns items texts Hi Es).
    + exact (shown_nonempty columns items texts Hc Es).
Qed.

(** X2.  [toCsv] of the scan-findings page, for the columns of the page:
    with no record it still writes the header, and a blank line after it,
    which reads as one record of one empty field; with records it throws
    exactly when the table does, and when it returns it reads back as the
    labels and the shown texts. *)
Theorem scans_toCsv_reads_back rows columns :
  columns <> [] -> Scans.page_columns columns = true ->
  (exists csv, Scans.toCsv num [] columns = inr csv /\
               read_csv csv = [map label columns; [""]]) /\
  (rows <> [] ->
   (forall csv, Scans.toCsv num rows columns = inr csv ->
      exists texts,
        shown_all columns rows = inr texts /\
        read_csv csv = map label columns :: texts) /\
   (forall e, Scans.toCsv num rows columns = inl e <->
              shown_all columns rows = inl e)).
Proof.
  intros Hc _.
  assert (Hl : map label columns <> [])
    by (destruct columns; [congruence|discriminate]).
  assert (E : forall rs,
             Scans.toCsv num rs columns
             = and_then (shown_all columns rs)
                 (fun texts =>
                    inr (line (map label columns) +:+ String LF ""
                         +:+ join (String LF "") (map line texts)
                         +:+ String LF ""))).
  { intros rs. unfold Scans.toCsv. apply (table_export _ scans_esc_text). }
  split.
  - rewrite E. simpl. eexists. split; [reflexivity|].
    unfold read_csv.
    change (read Start (line (map label columns) +:+ String LF (String LF ""))
            = [map label columns; [""]]).
    rewrite read_Start_line by exact Hl. reflexivity.
  - intros Hr. rewrite E.
    destruct (shown_all columns rows) as [e0|texts] eqn:Es; simpl.
    + split; [discriminate|]. intros e. split; intros [= ->]; reflexivity.
    + split; [|intros e; split; discriminate].
      intros csv [= <-]. exists texts. split; [reflexivity|].
      apply read_table; [exact Hl| |].
      * exact (shown_rows columns rows texts Hr Es).
      * exact (shown_nonempty columns rows texts Hc Es).
Qed.

(** *** The overview page *)

Lemma overview_rows_map items :
  OverviewCsv.rows num items = map_throwing (OverviewCsv.row num) items.
Proof.
  induction items as [|r rest IH]; [reflexivity|].
  simpl. rewrite IH. reflexivity.
Qed.

(** The link cell is a string. *)
Lemma vt_link_text sha256 link :
  OverviewCsv.vt_link num sha256 = inr link -> exists t, link = JStr t.
Proof.
  unfold OverviewCsv.vt_link. destruct sha256 as [v|]; [|intros [= <-]; eauto].
  destruct (truthy v); [|intros [= <-]; eauto].
  destruct (String_ num v); simpl; [discriminate|]. intros [= <-]. eauto.
Qed.

(** The link throws when [sha256] does not convert. *)
Lemma vt_link_inl sha256 :
  (exists e, OverviewCsv.vt_link num sha256 = inl e) <->
  exists v, sha256 = Some v /\ ToPrimitive_throws v = true.
Proof.
  unfold OverviewCsv.vt_link. destruct sha256 as [v|].
  - destruct (truthy v) eqn:T.
    + unfold String_. destruct (ToPrimitive_throws v) eqn:P; simpl.
      * split; eauto.
      * split; [intros [e H]; discriminate|].
        intros (v' & [= <-] & H). congruence.
    + split; [intros [e H]; discriminate|].
      intros (v' & [= <-] & H). destruct v; discriminate.
  - split; [intros [e H]; discriminate|]. intros (v & H & _). discriminate.
Qed.

(** The cells of a record that is not [null]. *)
Lemma overview_row_inr r cells :
  OverviewCsv.row num r = inr cells ->
  r <> JNull /\
  exists link t,
    OverviewCsv.vt_link num (get_opt "sha256" r) = inr link /\
    link = JStr t /\
    cells = map (fun name => nullish (get_opt name r) (JStr ""))
              OverviewCsv.fields ++ [link].
Proof.
  unfold OverviewCsv.row. destruct (get_prop "host" r) as [e|host] eqn:Eh;
    [discriminate|].
  destruct (OverviewCsv.vt_link num (get_opt "sha256" r)) as [e|link] eqn:El;
    [discriminate|].
  simpl. intros [= <-].
  split; [intros ->; discriminate|].
  destruct (vt_link_text _ _ El) as [t Et].
  exists link, t. split; [reflexivity|]. split; [exact Et|].
  assert (Hhost : host = get_opt "host" r)
    by (destruct r; try discriminate; injection Eh as <-; reflexivity).
  subst host. reflexivity.
Qed.

Lemma overview_row_inl r :
  (exists e, OverviewCsv.row num r = inl e) <->
  r = JNull \/
  exists v, get_opt "sha256" r = Some v /\ ToPrimitive_throws v = true.
Proof.
  unfold OverviewCsv.row. destruct (get_prop "host" r) as [e|host] eqn:Eh.
  - assert (r = JNull) as -> by (destruct r; simpl in Eh; congruence).
    split; eauto.
  - assert (Hr : r <> JNull) by (intros ->; discriminate).
    rewrite <- vt_link_inl.
    destruct (OverviewCsv.vt_link num (get_opt "sha256" r)) as [e|link];
      simpl.
    + split; eauto.
    + split; [intros [e H]; discriminate|].
      intros [H|[e H]]; [congruence|discriminate].
Qed.

Lemma overview_row_cells r cells :
  OverviewCsv.row num r = inr cells -> length cells = 9.
Proof.
  intros H. destruct (overview_row_inr r cells H) as (_ & link & t & _ & _ & ->).
  reflexivity.
Qed.

Lemma overview_rows_cells items rs :
  OverviewCsv.rows num items = inr rs ->
  Forall (fun cells : list JsonValue => length cells = 9) rs.
Proof.
  rewrite overview_rows_map. intros H.
  apply Forall_forall. intros cells Hin. apply list_elem_of_In in Hin.
  destruct (proj2 (map_throwing_In _ _ _ H) cells Hin) as (r & _ & Hr).
  exact (overview_row_cells r cells Hr).
Qed.

(** The fields of a line: the escaped texts of its cells, which all
    convert. *)
Lemma overview_fields cells : forall fields,
  map_throwing (fun c => and_then (String_ num c)
                           (fun t => inr (OverviewCsv.esc t))) cells
  = inr fields ->
  Forall (fun c => ToPrimitive_throws c = false) cells /\
  fields = map esc_text (map (text_of num) cells).
Proof.
  induction cells as [|c rest IH]; simpl; intros fields.
  - intros [= <-]. split; [constructor|reflexivity].
  - destruct (String_ num c) as [e|t] eqn:Ec; simpl; [discriminate|].
    apply String_inr in Ec as [Hc ->].
    destruct (map_throwing _ rest) as [e|fs]; [discriminate|].
    intros [= <-]. destruct (IH fs eq_refl) as [Hall ->].
    split; [constructor; assumption|].
    rewrite overview_esc_text. reflexivity.
Qed.

Lemma overview_lines rows : forall lines,
  map_throwing
    (fun cells =>
       and_then
         (map_throwing (fun c => and_then (String_ num c)
                                   (fun t => inr (OverviewCsv.esc t))) cells)
         (fun fields => inr (join "," fields)))
    rows
  = inr lines ->
  Forall (Forall (fun c => ToPrimitive_throws c = false)) rows /\
  lines = map line (map (map (text_of num)) rows).
Proof.
  induction rows as [|cells rest IH]; simpl; intros lines.
  - intros [= <-]. split; [constructor|reflexivity].
  - destruct (map_throwing _ cells) as [e|fields] eqn:Ec; simpl;
      [discriminate|].
    destruct (overview_fields cells fields Ec) as [Hc ->].
    destruct (map_throwing _ rest) as [e|ls]; [discriminate|].
    intros [= <-]. destruct (IH ls eq_refl) as [Hall ->].
    split; [constructor; assumption|reflexivity].
Qed.

Lemma overview_toCsv_lines items csv :
  OverviewCsv.toCsv num items = inr csv ->
  exists rs,
    OverviewCsv.rows num items = inr rs /\
    Forall (Forall (fun c => ToPrimitive_throws c = false)) rs /\
    csv = join (String LF "")
            (map line (OverviewCsv.headers :: map (map (text_of num)) rs)).
Proof.
  unfold OverviewCsv.toCsv.
  destruct (OverviewCsv.rows num items) as [e|rs]; [discriminate|].
  change (map (map JStr) [OverviewCsv.headers] ++ rs)
    with (map JStr OverviewCsv.headers :: rs).
  destruct (map_throwing _ (map JStr OverviewCsv.headers :: rs))
    as [e|lines] eqn:El; simpl; [discriminate|].
  intros [= <-]. exists rs. split; [reflexivity|].
  destruct (overview_lines _ lines El) as [Hall ->].
  apply Forall_cons in Hall as [_ Hall].
  split; [exact Hall|reflexivity].
Qed.

(** X3.  [toCsv] of the overview page, when it returns: every cell
    converts, and a CSV reader finds in the export the nine headers and
    then, record by record, the texts of the nine cells. *)
Theorem overview_toCsv_reads_back items csv :
  OverviewCsv.toCsv num items = inr csv ->
  exists rs,
    OverviewCsv.rows num items = inr rs /\
    length rs = length items /\
    Forall (fun cells : list JsonValue => length cells = 9) rs /\
    Forall (Forall (fun c => String_ num c = inr (text_of num c))) rs /\
    read_csv csv = OverviewCsv.headers :: map (map (text_of num)) rs.
Proof.
  intros Hcsv.
  destruct (overview_toCsv_lines items csv Hcsv) as (rs & Er & Hconv & ->).
  exists rs. split; [exact Er|].
  pose proof (overview_rows_cells items rs Er) as Hlen.
  split; [|split; [exact Hlen|split]].
  - rewrite overview_rows_map in Er.
    exact (map_throwing_length _ _ _ Er).
  - eapply Forall_impl; [exact Hconv|]. intros cells Hcells.
    eapply Forall_impl; [exact Hcells|]. intros c Hc.
    apply String_inr. auto.
  - apply read_lines_open.
    constructor; [simpl; lia|].
    apply Forall_forall. intros cells Hin.
    apply list_elem_of_In, in_map_iff in Hin as (cs & <- & Hin).
    rewrite length_map.
    rewrite Forall_forall in Hlen.
    rewrite (Hlen cs) by (apply list_elem_of_In, Hin). lia.
Qed.

(** A cell of a record that does not convert. *)
Local Abbreviation bad_cell r :=
  (exists name, In name OverviewCsv.fields /\
     ToPrimitive_throws (nullish (get_opt name r) (JStr "")) = true).

Lemma line_inl cells :
  (exists e,
     and_then
       (map_throwing (fun c => and_then (String_ num c)
                                 (fun t => inr (OverviewCsv.esc t))) cells)
       (fun fields => inr (join "," fields)) = inl e) <->
  exists c, In c cells /\ ToPrimitive_throws c = true.
Proof.
  split.
  - intros [e H].
    destruct (map_throwing _ cells) as [e1|fs] eqn:E; simpl in H;
      [|discriminate].
    destruct (proj1 (map_throwing_inl _ _) (ex_intro _ e1 E))
      as (c & Hin & e2 & Hc).
    exists c. split; [exact Hin|]. apply String_inl.
    destruct (String_ num c) as [e3|t]; simpl in Hc; [eauto|discriminate].
  - intros (c & Hin & Ht). apply String_inl in Ht as [e He].
    assert (H : exists e',
               map_throwing (fun c => and_then (String_ num c)
                                        (fun t => inr (OverviewCsv.esc t)))
                 cells = inl e').
    { apply map_throwing_inl. exists c. split; [exact Hin|].
      exists e. rewrite He. reflexivity. }
    destruct H as [e' ->]. simpl. eauto.
Qed.

(** X4.  [toCsv] of the overview page throws exactly when one of the
    records is [null] (it reads [r.host] of every record) or holds, under
    one of the eight properties it exports, a value that does not convert
    to a string; nothing else in a record makes it throw. *)
Theorem overview_toCsv_throws items :
  (exists e, OverviewCsv.toCsv num items = inl e) <->
  In JNull items \/ exists r, In r items /\ bad_cell r.
Proof.
  unfold OverviewCsv.toCsv.
  change (map (map JStr) [OverviewCsv.headers] ++ ?rs)
    with (map JStr OverviewCsv.headers :: rs).
  destruct (OverviewCsv.rows num items) as [e0|rs] eqn:Er;
    rewrite overview_rows_map in Er.
  - (* a record throws while the rows are built *)
    split; [intros _|eauto].
    destruct (proj1 (map_throwing_inl _ _) (ex_intro _ e0 Er))
      as (r & Hin & Hr).
    apply overview_row_inl in Hr as [->|(v & Hv & Hthrows)];
      [left; exact Hin|].
    right. exists r. split; [exact Hin|]. exists "sha256".
    split; [simpl; tauto|]. rewrite Hv.
    destruct v; simpl in Hthrows |- *; congruence.
  - destruct (map_throwing_In _ _ _ Er) as [Hto Hfrom].
    assert (Hnn : ~ In JNull items).
    { intros Hin. destruct (Hto _ Hin) as (cells & Hc & _). discriminate. }
    split.
    + (* a cell throws while the lines are written *)
      intros [e He].
      destruct (map_throwing _ (map JStr OverviewCsv.headers :: rs))
        as [e1|lines] eqn:El; simpl in He; [|discriminate].
      destruct (proj1 (map_throwing_inl _ _) (ex_intro _ e1 El))
        as (cells & Hin & Hcells).
      apply line_inl in Hcells as (c & Hc & Hthrows).
      destruct Hin as [<-|Hin].
      * apply in_map_iff in Hc as (h & <- & _). discriminate.
      * destruct (Hfrom cells Hin) as (r & Hr & Hrow).
        destruct (overview_row_inr r cells Hrow)
          as (_ & link & t & _ & -> & ->).
        right. exists r. split; [exact Hr|].
        apply in_app_iff in Hc as [Hc|[<-|[]]]; [|discriminate].
        apply in_map_iff in Hc as (name & <- & Hname).
        exists name. auto.
    + intros [Hnull|(r & Hr & name & Hname & Hthrows)]; [contradiction|].
      destruct (Hto r Hr) as (cells & Hrow & Hcells).
      destruct (overview_row_inr r cells Hrow)
        as (_ & link & t & _ & _ & Ecells).
      assert (Hline : exists c, In c cells /\ ToPrimitive_throws c = true).
      { exists (nullish (get_opt name r) (JStr "")). split; [|exact Hthrows].
        rewrite Ecells. apply in_app_iff. left.
        apply in_map_iff. exists name. auto. }
      apply line_inl in Hline.
      assert (Hall : exists e,
                 map_throwing
                   (fun cells =>
                      and_then
                        (map_throwing
                           (fun c => and_then (String_ num c)
                                       (fun t => inr (OverviewCsv.esc t)))
                           cells)
                        (fun fields => inr (join "," fields)))
                   (map JStr OverviewCsv.headers :: rs) = inl e).
      { apply map_throwing_inl. exists cells.
        split; [right; exact Hcells|exact Hline]. }
      destruct Hall as [e He]. rewrite He. simpl. eauto.
Qed.

(** X5.  The three pages escape a cell alike, and throw alike on a value
    that does not convert; a text that holds no quote, comma or line feed
    is exported as it is. *)
Theorem esc_agree v :
  AnalysisCsv.esc num v = Scans.esc num v /\
  AnalysisCsv.esc num v
  = and_then (String_ num (nullish v (JStr "")))
      (fun t => inr (OverviewCsv.esc t)) /\
  (forall t, String_ num (nullish v (JStr "")) = inr t ->
             needs_quotes t = false ->
             AnalysisCsv.esc num v = inr t).
Proof.
  rewrite analysis_esc_text, scans_esc_text.
  split; [reflexivity|]. split.
  - destruct (String_ num (nullish v (JStr ""))); simpl; [reflexivity|].
    rewrite overview_esc_text. reflexivity.
  - intros t -> Hq. simpl. rewrite (esc_text_plain t Hq). reflexivity.
Qed.

End Pages.

Lemma analysis_toCsv_reads_back_witness :
  sample_columns <> [] /\ sample_rows <> [] /\
  exists csv,
    AnalysisCsv.toCsv print_int sample_rows sample_columns = inr csv /\
    read_csv csv
    = [ ["Host"; "Path, full"; "Size (MB)"];
        ["srv1"; sample_path; "51"];
        [""; ""; ""];
        [""; "tmp"; ""] ].
Proof.
  assert (Hc : sample_columns <> []) by discriminate.
  assert (Hr : sample_rows <> []) by discriminate.
  split; [exact Hc|]. split; [exact Hr|].
  eexists. split; [reflexivity|].
  destruct (proj1 (proj2 (analysis_toCsv_reads_back print_int sample_rows
                            sample_columns Hc eq_refl) Hr) _ eq_refl)
    as (texts & Htexts & Hread).
  rewrite Hread. injection Htexts as <-. reflexivity.
Defined.

Lemma scans_toCsv_reads_back_witness :
  sample_scan_columns <> [] /\ sample_findings <> [] /\
  exists csv,
    Scans.toCsv print_int sample_findings sample_scan_columns = inr csv /\
    read_csv csv
    = [ ["Host"; "Path"]; ["srv1"; sample_path]; [""; "tmp"] ].
Proof.
  assert (Hc : sample_scan_columns <> []) by discriminate.
  assert (Hr : sample_findings <> []) by discriminate.
  split; [exact Hc|]. split; [exact Hr|].
  eexists. split; [reflexivity|].
  destruct (proj1 (proj2 (scans_toCsv_reads_back print_int sample_findings
                            sample_scan_columns Hc eq_refl) Hr) _ eq_refl)
    as (texts & Htexts & Hread).
  rewrite Hread. injection Htexts as <-. reflexivity.
Defined.

Lemma overview_toCsv_reads_back_witness :
  exists csv rs,
    OverviewCsv.toCsv print_int [JObj [("host", JStr "srv1"); ("sha256", JStr "ab12")]]
    = inr csv /\
    OverviewCsv.rows print_int [JObj [("host", JStr "srv1"); ("sha256", JStr "ab12")]]
    = inr rs /\
    read_csv csv = OverviewCsv.headers :: map (map (text_of print_int)) rs.
Proof.
  eexists.
  destruct (overview_toCsv_reads_back print_int
              [JObj [("host", JStr "srv1"); ("sha256", JStr "ab12")]] _ eq_refl)
    as (rs & Hrs & _ & _ & _ & Hread).
  exists rs. split; [reflexivity|]. split; [exact Hrs|exact Hread].
Defined.

Lemma overview_toCsv_throws_witness :
  In odd_record [odd_record] /\
  exists e, OverviewCsv.toCsv print_int [odd_record] = inl e.
Proof.
  split; [left; reflexivity|].
  apply (overview_toCsv_throws print_int [odd_record]).
  right. exists odd_record. split; [left; reflexivity|].
  exists "sha256". split; [simpl; tauto|reflexivity].
Defined.

Lemma esc_agree_witness :
  String_ print_int (nullish (Some (JNum 51)) (JStr "")) = inr "51" /\
  needs_quotes "51" = false /\
  AnalysisCsv.esc print_int (Some (JNum 51)) = inr "51".
Proof.
  split; [reflexivity|]. split; [reflexivity|].
  exact (proj2 (proj2 (esc_agree print_int (Some (JNum 51)))) "51"
           eq_refl eq_refl).
Defined.

End CsvFacts.

(** ** More on the deep-analysis page *)

Module AnalysisMoreFacts.
Import Analysis AnalysisMore AnalysisFacts.

Section Run.

Variable fetch : string -> FetchOutcome.
Variable jobs : list string.

Local Abbreviation Inv := (Analysis.Inv jobs).
Local Abbreviation Inv2 := (AnalysisMore.Inv2 fetch jobs).

Lemma wrap_resume_settled i r s :
  alive s = true -> i < length (blocks s) ->
  blocks (wrap_resume i r s) !! i = Some (settled_block r).
Proof.
  intros Ha Hi. unfold wrap_resume. simpl. rewrite Ha. simpl.
  destruct r as [e|its]; simpl; apply list_lookup_insert_eq; exact Hi.
Qed.

Lemma wrap_resume_dead i r s :
  alive s = false -> blocks (wrap_resume i r s) = blocks s.
Proof.
  intros Ha. unfold wrap_resume. simpl. rewrite Ha.
  destruct r; reflexivity.
Qed.

Lemma message_or_nonempty m d : d <> "" -> message_or m d <> "".
Proof.
  intros Hd. unfold message_or.
  destruct (String.eqb_spec m ""); [exact Hd|assumption].
Qed.

Lemma settled_block_well_formed r : well_formed (settled_block r).
Proof.
  destruct r as [e|its]; simpl.
  - right. right. eexists. split; [|reflexivity].
    apply message_or_nonempty. discriminate.
  - right. left. eauto.
Qed.

Lemma Inv2_run : Inv2 (run jobs).
Proof.
  destruct (run_fields jobs) as (Ha & Hj & Hl & Hw & Hb). split.
  - intros i b Hi Hload. rewrite Hb in Hi.
    apply lookup_replicate in Hi as [-> _]. discriminate.
  - intros _ i p Hi. rewrite Hw in Hi.
    apply lookup_replicate in Hi as [? _]. discriminate.
  - rewrite Hb. apply Forall_replicate. left. reflexivity.
Qed.

Lemma Inv2_step s ev s' :
  Inv s -> Inv2 s -> step fetch jobs s ev = Some s' -> Inv2 s'.
Proof.
  intros HI HI2 Hstep. destruct ev as [i| |]; simpl in Hstep.
  - destruct (awaiting s !! i) as [[|]|] eqn:Hi; try discriminate.
    destruct (jobs !! i) as [p|] eqn:Hp; try discriminate.
    injection Hstep as <-.
    destruct (wrap_resume_fields i (loadBlock fetch p) s)
      as (Ea & Ej & El & Ew & Eb).
    assert (Hlt : i < length (blocks s)).
    { rewrite (inv_blocks _ _ HI), <- (inv_awaiting _ _ HI).
      apply lookup_lt_is_Some. eauto. }
    assert (Hlt' : i < length (awaiting s)).
    { apply lookup_lt_is_Some. eauto. }
    split.
    + intros j b Hj Hload. rewrite Ew.
      destruct (decide (j = i)) as [->|Hne].
      * apply list_lookup_insert_eq. exact Hlt'.
      * rewrite list_lookup_insert_ne by congruence.
        rewrite wrap_resume_others in Hj by exact Hne.
        eapply inv_terminal; eauto.
    + rewrite Ea, El, Ew. intros Hlive j q Hj Hq.
      assert (Ha : alive s = true).
      { destruct Hlive as [Ha|Hl]; [exact Ha|].
        destruct (inv_done _ _ HI Hl) as [Hjd _].
        exfalso. eapply all_settled_lookup; [|exact Hi].
        apply (inv_joined _ _ HI Hjd). }
      destruct (decide (j = i)) as [->|Hne].
      * rewrite Hp in Hq. injection Hq as <-.
        apply wrap_resume_settled; assumption.
      * rewrite wrap_resume_others by exact Hne.
        rewrite list_lookup_insert_ne in Hj by congruence.
        apply (inv_outcome _ _ _ HI2); auto.
    + destruct (alive s) eqn:Ha.
      * apply Forall_lookup. intros j b Hj.
        destruct (decide (j = i)) as [->|Hne].
        -- rewrite wrap_resume_settled in Hj by assumption.
           injection Hj as <-. apply settled_block_well_formed.
        -- rewrite wrap_resume_others in Hj by exact Hne.
           eapply Forall_lookup_1; [apply (inv_shape _ _ _ HI2)|exact Hj].
      * rewrite wrap_resume_dead by exact Ha. apply (inv_shape _ _ _ HI2).
  - destruct (all_settled s && negb (joined s))%bool eqn:E; try discriminate.
    apply andb_true_iff in E as [Hall Hnj].
    injection Hstep as <-. unfold run_resume. simpl.
    destruct (alive s) eqn:Ha; simpl.
    + split; simpl.
      * apply (inv_terminal _ _ _ HI2).
      * intros _. apply (inv_outcome _ _ _ HI2). left. exact Ha.
      * apply (inv_shape _ _ _ HI2).
    + split; simpl.
      * apply (inv_terminal _ _ _ HI2).
      * rewrite Ha. intros [Hf|Hl]; [discriminate|].
        apply (inv_outcome _ _ _ HI2). right. exact Hl.
      * apply (inv_shape _ _ _ HI2).
  - injection Hstep as <-. split; simpl.
    + apply (inv_terminal _ _ _ HI2).
    + intros [Hf|Hl]; [discriminate|].
      apply (inv_outcome _ _ _ HI2). right. exact Hl.
    + apply (inv_shape _ _ _ HI2).
Qed.

Lemma Inv2_steps evs : forall s s',
  Inv s -> Inv2 s -> steps fetch jobs s evs = Some s' -> Inv s' /\ Inv2 s'.
Proof.
  induction evs as [|ev rest IH]; simpl; intros s s' Hs Hs2 Hst.
  - injection Hst as <-. auto.
  - destruct (step fetch jobs s ev) as [s1|] eqn:E; [|discriminate].
    eapply IH; [| |exact Hst].
    + eapply run_Inv_step; eauto.
    + eapply Inv2_step; eauto.
Qed.

Lemma reachable_Inv evs s :
  steps fetch jobs (run jobs) evs = Some s -> Inv s /\ Inv2 s.
Proof. apply Inv2_steps; [apply Inv_run|apply Inv2_run]. Qed.

(** X6.  When [loadingAll] is lowered, every block is what its own fetch
    settled with: the order in which the fetches settled has left no
    trace. *)
Theorem run_blocks_final evs s :
  steps fetch jobs (run jobs) evs = Some s ->
  loadingAll s = false ->
  blocks s = map (fun p => settled_block (loadBlock fetch p)) jobs.
Proof.
  intros Hs Hl. destruct (reachable_Inv evs s Hs) as [HI HI2].
  destruct (inv_done _ _ HI Hl) as [Hj _].
  pose proof (inv_joined _ _ HI Hj) as Hall.
  apply list_eq. intros i. rewrite list_lookup_fmap.
  destruct (jobs !! i) as [p|] eqn:Hp; simpl.
  - apply (inv_outcome _ _ _ HI2); [right; exact Hl| |exact Hp].
    assert (Hlt : i < length (awaiting s)).
    { rewrite (inv_awaiting _ _ HI). apply lookup_lt_is_Some. eauto. }
    apply lookup_lt_is_Some in Hlt as [[|] Hx]; [|exact Hx].
    exfalso. eapply all_settled_lookup; eauto.
  - apply lookup_ge_None. rewrite (inv_blocks _ _ HI).
    apply lookup_ge_None. exact Hp.
Qed.

Lemma step_keeps_settled s ev s' i b :
  Inv2 s -> step fetch jobs s ev = Some s' ->
  blocks s !! i = Some b -> loading b = false ->
  blocks s' !! i = Some b.
Proof.
  intros HI2 Hstep Hb Hload. destruct ev as [j| |]; simpl in Hstep.
  - destruct (awaiting s !! j) as [[|]|] eqn:Hj; try discriminate.
    destruct (jobs !! j) as [p|]; try discriminate.
    injection Hstep as <-.
    rewrite wrap_resume_others; [exact Hb|].
    intros ->. rewrite (inv_terminal _ _ _ HI2 _ _ Hb Hload) in Hj.
    discriminate.
  - destruct (all_settled s && negb (joined s))%bool; try discriminate.
    injection Hstep as <-. unfold run_resume. simpl.
    destruct (alive s); exact Hb.
  - injection Hstep as <-. exact Hb.
Qed.

Lemma step_keeps_lowered s ev s' :
  Inv s -> step fetch jobs s ev = Some s' ->
  loadingAll s = false -> loadingAll s' = false.
Proof.
  intros HI Hstep Hl. destruct ev as [j| |]; simpl in Hstep.
  - destruct (awaiting s !! j) as [[|]|]; try discriminate.
    destruct (jobs !! j) as [p|]; try discriminate.
    injection Hstep as <-.
    rewrite (proj1 (proj2 (proj2 (wrap_resume_fields _ _ _)))). exact Hl.
  - destruct (inv_done _ _ HI Hl) as [Hj _]. rewrite Hj in Hstep.
    rewrite andb_false_r in Hstep. discriminate.
  - injection Hstep as <-. exact Hl.
Qed.

(** X7.  A block settles once: when a run has put a block in Loaded or
    Failed, nothing that happens later in the run changes it, and
    [loadingAll], once lowered, stays lowered. *)
Theorem run_settles_once evs s evs' s' :
  steps fetch jobs (run jobs) evs = Some s ->
  steps fetch jobs s evs' = Some s' ->
  (forall i b, blocks s !! i = Some b -> loading b = false ->
               blocks s' !! i = Some b) /\
  (loadingAll s = false -> loadingAll s' = false).
Proof.
  intros Hs. destruct (reachable_Inv evs s Hs) as [HI HI2]. clear Hs.
  revert s s' HI HI2.
  induction evs' as [|ev rest IH]; simpl; intros s s' HI HI2 Hst.
  - injection Hst as <-. auto.
  - destruct (step fetch jobs s ev) as [s1|] eqn:E; [|discriminate].
    assert (HI' : Inv s1) by exact (run_Inv_step fetch jobs s ev s1 HI E).
    assert (HI2' : Inv2 s1) by exact (Inv2_step s ev s1 HI HI2 E).
    destruct (IH _ _ HI' HI2' Hst) as [Hb Hl]. split.
    + intros i b Hi Hload. apply Hb; [|exact Hload].
      exact (step_keeps_settled s ev s1 i b HI2 E Hi Hload).
    + intros Hlow. apply Hl. exact (step_keeps_lowered s ev s1 HI E Hlow).
Qed.

(** X8.  In every state a run reaches, a block is pending as it started,
    or loaded without an error, or failed with no items and a detail that
    is not the empty string, so that the page, which tests the detail for
    truthiness, shows it. *)
Theorem run_blocks_well_formed evs s i b :
  steps fetch jobs (run jobs) evs = Some s ->
  blocks s !! i = Some b ->
  (loading b = true -> b = pending_block) /\
  (forall m, error b = Some m ->
     m <> "" /\ loading b = false /\ items b = JArr []) /\
  (phase_of b = Loaded -> error b = None).
Proof.
  intros Hs Hb. destruct (reachable_Inv evs s Hs) as [_ HI2].
  pose proof (Forall_lookup_1 _ _ _ _ (inv_shape _ _ _ HI2) Hb) as Hwf.
  destruct Hwf as [-> | [[its ->] | (m & Hm & ->)]]; simpl.
  - split; [reflexivity|]. split; [discriminate|discriminate].
  - split; [discriminate|]. split; [discriminate|reflexivity].
  - split; [discriminate|]. split; [|discriminate].
    intros m' [= <-]. auto.
Qed.

(** X9.  In a live run, a fetch that rejects (the request never got an
    answer) puts its block, and no other, in the Failed phase, with the
    message of the error as detail, and with [Error] when the error has no
    message. *)
Theorem rejected_fetch_fails evs s i p e :
  steps fetch jobs (run jobs) evs = Some s ->
  alive s = true ->
  awaiting s !! i = Some true -> jobs !! i = Some p ->
  apiFetch fetch p = Rejected e ->
  exists s' b,
    step fetch jobs s (Settle i) = Some s' /\
    blocks s' !! i = Some b /\
    phase_of b = Failed /\
    error b = Some (if String.eqb (message_of e) "" then "Error"
                    else message_of e) /\
    (forall j, j <> i -> blocks s' !! j = blocks s !! j).
Proof.
  intros Hs Ha Hi Hp Hrej.
  destruct (reachable_Inv evs s Hs) as [HI _].
  destruct (step_settle fetch jobs s i p HI Ha Hi Hp)
    as (s' & Hstep & Hb & Hoth & _).
  assert (Hload : loadBlock fetch p = inl e)
    by (unfold loadBlock; rewrite Hrej; reflexivity).
  rewrite Hload in Hb.
  eexists s', _. split; [exact Hstep|]. split; [exact Hb|].
  repeat split. exact Hoth.
Qed.

End Run.

Lemma run_blocks_final_witness :
  exists s,
    steps sample_net ["/x"; "/y"] (run ["/x"; "/y"]) [Settle 1; Settle 0; Join]
    = Some s /\
    loadingAll s = false /\
    blocks s
    = [ {| loading := false; items := JArr [JObj [("n", JNum 1)]];
           error := None |};
        {| loading := false; items := JArr [];
           error := Some "500 Internal Server Error boom" |} ].
Proof.
  eexists. split; [reflexivity|]. split; [reflexivity|].
  rewrite (run_blocks_final sample_net ["/x"; "/y"]
             [Settle 1; Settle 0; Join] _ eq_refl eq_refl).
  reflexivity.
Defined.

Lemma run_settles_once_witness :
  exists s s' b,
    steps sample_net ["/x"; "/y"] (run ["/x"; "/y"]) [Settle 1] = Some s /\
    steps sample_net ["/x"; "/y"] s [Settle 0; Join; Cleanup] = Some s' /\
    blocks s !! 1 = Some b /\ loading b = false /\
    blocks s' !! 1 = Some b.
Proof.
  eexists _, _, _. split; [reflexivity|]. split; [reflexivity|].
  split; [reflexivity|]. split; [reflexivity|].
  apply (proj1 (run_settles_once sample_net ["/x"; "/y"]
                  [Settle 1] _ [Settle 0; Join; Cleanup] _ eq_refl eq_refl)
           1 _ eq_refl eq_refl).
Defined.

Lemma run_blocks_well_formed_witness :
  exists s b,
    steps sample_net ["/x"; "/y"] (run ["/x"; "/y"]) [Settle 1] = Some s /\
    blocks s !! 1 = Some b /\
    error b = Some "500 Internal Server Error boom" /\
    "500 Internal Server Error boom" <> "" /\ items b = JArr [].
Proof.
  eexists _, _. split; [reflexivity|]. split; [reflexivity|].
  split; [reflexivity|].
  destruct (proj1 (proj2 (run_blocks_well_formed sample_net ["/x"; "/y"]
                            [Settle 1] _ 1 _ eq_refl eq_refl))
              _ eq_refl) as (Hm & _ & Hits).
  split; [exact Hm|exact Hits].
Defined.

Lemma rejected_fetch_fails_witness :
  exists s' b,
    step sample_net ["/nowhere"] (run ["/nowhere"]) (Settle 0) = Some s' /\
    blocks s' !! 0 = Some b /\
    phase_of b = Failed /\ error b = Some "Failed to fetch".
Proof.
  destruct (rejected_fetch_fails sample_net ["/nowhere"] [] _ 0 "/nowhere" _
              eq_refl eq_refl eq_refl eq_refl eq_refl)
    as (s' & b & Hstep & Hb & Hph & Herr & _).
  exists s', b. split; [exact Hstep|]. split; [exact Hb|].
  split; [exact Hph|exact Herr].
Defined.

End AnalysisMoreFacts.

(** ** More on the overview page *)

Module OverviewMoreFacts.
Import Overview OverviewMore OverviewFacts.

Section Load.

Variable fetch : string -> FetchOutcome.

Local Abbreviation Ctl := (OverviewMore.Ctl fetch).
Local Abbreviation Prov := (OverviewMore.Prov fetch).
Local Abbreviation ErrOk := (OverviewMore.ErrOk fetch).
Local Abbreviation Reported := (OverviewMore.Reported fetch).

Ltac kept L := solve [ apply L | etransitivity; [apply L | reflexivity] ].

(** *** What the blocks of [load] do to the page *)

Lemma Number_inr v n : Number_ v = inr n -> n = Number v.
Proof.
  unfold Number_. destruct (ToPrimitive_throws v); [discriminate|].
  intros [= <-]. reflexivity.
Qed.

Lemma finally_view s :
  kpis (finally s) = kpis s /\ items (finally s) = items s /\
  comparisonCnt (finally s) = comparisonCnt s /\ err (finally s) = err s /\
  loading (finally s) = (if cancelled s then loading s else false).
Proof.
  unfold finally. destruct (cancelled s) eqn:E; simpl; rewrite ?E; repeat split.
Qed.

Lemma catch_view e s :
  kpis (catch e s) = kpis s /\ items (catch e s) = items s /\
  comparisonCnt (catch e s) = comparisonCnt s /\
  err (catch e s) = (if cancelled s then err s else shown_message e) /\
  loading (catch e s) = (if cancelled s then loading s else false).
Proof.
  unfold catch, finally.
  destruct (cancelled s) eqn:E; simpl; rewrite ?E; simpl; repeat split.
Qed.

Lemma susp_branch_ok u s :
  ok u = true -> susp_branch u s = set_phase (AwaitSuspJson u) s.
Proof. intros H. unfold susp_branch. rewrite H. reflexivity. Qed.

Lemma susp_branch_not_ok u s :
  ok u = false ->
  kpis (susp_branch u s) = kpis s /\ items (susp_branch u s) = JArr [] /\
  comparisonCnt (susp_branch u s) = Number (JNum 0) /\
  err (susp_branch u s) = err s /\
  loading (susp_branch u s) = (if cancelled s then loading s else false) /\
  phase (susp_branch u s) = Done /\
  cancelled (susp_branch u s) = cancelled s /\
  all (susp_branch u s) = all s.
Proof.
  intros H. unfold susp_branch, finally. rewrite H.
  destruct (cancelled s) eqn:E; simpl; rewrite ?E; simpl; rewrite ?E;
    repeat split.
Qed.

Lemma load_resume_all r s : all (load_resume r s) = all s.
Proof.
  unfold load_resume. destruct r as [e|[k u]].
  - apply catch_fields.
  - destruct (cancelled s); simpl; [kept finally_fields|].
    destruct (ok k); simpl; [reflexivity|]. kept susp_branch_fields.
Qed.

Lemma kpi_json_resume_all k u s : all (kpi_json_resume k u s) = all s.
Proof.
  unfold kpi_json_resume. destruct (json k).
  - apply catch_fields.
  - kept susp_branch_fields.
Qed.

Lemma susp_json_resume_all u s : all (susp_json_resume u s) = all s.
Proof.
  unfold susp_json_resume. destruct (json u) as [e|data].
  - apply catch_fields.
  - destruct (get_prop "items" data); [apply catch_fields|].
    destruct (get_prop "comparison_cnt" data) as [e|c].
    + kept catch_fields.
    + destruct (Number_ (nullish c (JNum 0)));
        [kept catch_fields|kept finally_fields].
Qed.

Lemma finally_phase s : phase (finally s) = Done.
Proof. exact (proj2 (proj2 (proj2 (proj2 (finally_fields s))))). Qed.

Lemma catch_phase e s : phase (catch e s) = Done.
Proof. exact (proj2 (proj2 (proj2 (proj2 (catch_fields e s))))). Qed.

Lemma susp_json_resume_phase u s : phase (susp_json_resume u s) = Done.
Proof.
  unfold susp_json_resume. destruct (json u) as [e|data].
  - apply catch_phase.
  - destruct (get_prop "items" data); [apply catch_phase|].
    destruct (get_prop "comparison_cnt" data) as [e|c].
    + apply catch_phase.
    + destruct (Number_ (nullish c (JNum 0)));
        [apply catch_phase|apply finally_phase].
Qed.

Lemma susp_branch_phase u s :
  phase (susp_branch u s) = (if ok u then AwaitSuspJson u else Done).
Proof.
  destruct (ok u) eqn:E.
  - rewrite susp_branch_ok by exact E. reflexivity.
  - apply susp_branch_not_ok, E.
Qed.

Lemma load_resume_phase r s :
  phase (load_resume r s)
  = match r with
    | inl _ => Done
    | inr (k, u) =>
        if cancelled s then Done
        else if ok k then AwaitKpiJson k u
        else if ok u then AwaitSuspJson u else Done
    end.
Proof.
  unfold load_resume. destruct r as [e|[k u]]; [apply catch_phase|].
  destruct (cancelled s); cbn [negb]; [apply finally_phase|].
  destruct (ok k); cbn [negb]; [reflexivity|]. apply susp_branch_phase.
Qed.

Lemma kpi_json_resume_phase k u s :
  phase (kpi_json_resume k u s)
  = match json k with
    | inl _ => Done
    | inr _ => if ok u then AwaitSuspJson u else Done
    end.
Proof.
  unfold kpi_json_resume. destruct (json k); [apply catch_phase|].
  apply susp_branch_phase.
Qed.

(** *** The control invariant *)

Lemma Ctl_load : Ctl load.
Proof. split; simpl; [discriminate|discriminate|exact I]. Qed.

Lemma all_after_Ctl kpi s :
  Ctl s ->
  (forall k u, all_after fetch kpi s = Some (inr (k, u)) ->
     apiFetch fetch kpi_path = Fulfilled k /\
     apiFetch fetch susp_path = Fulfilled u) /\
  (forall e, all_after fetch kpi s = Some (inl e) ->
     apiFetch fetch kpi_path = Rejected e \/
     apiFetch fetch susp_path = Rejected e).
Proof.
  intros HC. unfold all_after. destruct (all s) as [r|] eqn:Ha.
  - split.
    + intros k u [= ->]. apply (ctl_fulfilled _ _ HC _ _ Ha).
    + intros e [= ->]. apply (ctl_rejected _ _ HC _ Ha).
  - destruct (apiFetch fetch (if kpi then kpi_path else susp_path))
      as [e0|r0] eqn:E0.
    + split; [discriminate|]. intros e [= <-].
      destruct kpi; [left|right]; exact E0.
    + destruct (if kpi then suspSettled s else kpiSettled s);
        [|split; discriminate].
      destruct (apiFetch fetch kpi_path) as [|k0]; [split; discriminate|].
      destruct (apiFetch fetch susp_path) as [|u0]; [split; discriminate|].
      split; [|discriminate]. intros k u [= <- <-]. auto.
Qed.

Lemma Ctl_all_phase s t :
  Ctl s -> all t = all s ->
  match phase t with
  | AwaitKpiJson k u =>
      apiFetch fetch kpi_path = Fulfilled k /\
      apiFetch fetch susp_path = Fulfilled u /\ ok k = true
  | AwaitSuspJson u =>
      apiFetch fetch susp_path = Fulfilled u /\ ok u = true /\
      exists k, apiFetch fetch kpi_path = Fulfilled k
  | _ => True
  end ->
  Ctl t.
Proof.
  intros HC Ha Hp. split; [| |exact Hp]; rewrite Ha; apply HC.
Qed.

Lemma Ctl_step s ev s' : Ctl s -> step fetch s ev = Some s' -> Ctl s'.
Proof.
  intros HC Hstep. destruct ev; simpl in Hstep.
  - destruct (kpiSettled s); [discriminate|]. injection Hstep as <-.
    destruct (all_after_Ctl true s HC) as [H1 H2].
    split; simpl; [exact H1|exact H2|apply HC].
  - destruct (suspSettled s); [discriminate|]. injection Hstep as <-.
    destruct (all_after_Ctl false s HC) as [H1 H2].
    split; simpl; [exact H1|exact H2|apply HC].
  - destruct (phase s) eqn:Hp; try discriminate.
    destruct (all s) as [r|] eqn:Ha; try discriminate.
    injection Hstep as <-.
    apply (Ctl_all_phase s); [exact HC|apply load_resume_all|].
    rewrite load_resume_phase. destruct r as [e|[k u]]; [exact I|].
    destruct (ctl_fulfilled _ _ HC _ _ Ha) as [HK HU].
    destruct (cancelled s); [exact I|].
    destruct (ok k) eqn:Hk; [auto|].
    destruct (ok u) eqn:Hu; [eauto|exact I].
  - destruct (phase s) eqn:Hp; try discriminate. injection Hstep as <-.
    pose proof (ctl_phase _ _ HC) as Hph. rewrite Hp in Hph.
    destruct Hph as (HK & HU & Hok).
    apply (Ctl_all_phase s); [exact HC|apply kpi_json_resume_all|].
    rewrite kpi_json_resume_phase. destruct (json kpiRes); [exact I|].
    destruct (ok suspRes) eqn:Hu; [eauto|exact I].
  - destruct (phase s) eqn:Hp; try discriminate. injection Hstep as <-.
    apply (Ctl_all_phase s); [exact HC|apply susp_json_resume_all|].
    rewrite susp_json_resume_phase. exact I.
  - injection Hstep as <-. split; simpl; apply HC.
Qed.


(** *** Provenance *)

Lemma Prov_load : Prov load.
Proof.
  split; simpl; [discriminate|left; reflexivity|left; reflexivity].
Qed.

Lemma Prov_same s t :
  Prov s -> kpis t = kpis s -> items t = items s ->
  comparisonCnt t = comparisonCnt s -> Prov t.
Proof.
  intros [H1 H2 H3] E1 E2 E3. split; rewrite ?E1, ?E2, ?E3; assumption.
Qed.

Lemma Prov_finally s : Prov s -> Prov (finally s).
Proof. intros H. apply (Prov_same s); [exact H|..]; apply finally_view. Qed.

Lemma Prov_catch e s : Prov s -> Prov (catch e s).
Proof. intros H. apply (Prov_same s); [exact H|..]; apply catch_view. Qed.

Lemma Prov_susp_branch u s : Prov s -> Prov (susp_branch u s).
Proof.
  intros H. destruct (ok u) eqn:E.
  - rewrite susp_branch_ok by exact E.
    apply (Prov_same s); [exact H|..]; reflexivity.
  - destruct (susp_branch_not_ok u s E) as (E1 & E2 & E3 & _). split.
    + rewrite E1. apply H.
    + left. exact E2.
    + left. exact E3.
Qed.

Lemma Prov_step s ev s' :
  Ctl s -> Prov s -> step fetch s ev = Some s' -> Prov s'.
Proof.
  intros HC HP Hstep. destruct ev; simpl in Hstep.
  - destruct (kpiSettled s); [discriminate|]. injection Hstep as <-.
    apply (Prov_same s); [exact HP|..]; reflexivity.
  - destruct (suspSettled s); [discriminate|]. injection Hstep as <-.
    apply (Prov_same s); [exact HP|..]; reflexivity.
  - destruct (phase s) eqn:Hp; try discriminate.
    destruct (all s) as [r|] eqn:Ha; try discriminate.
    injection Hstep as <-.
    unfold load_resume. destruct r as [e|[k u]]; [apply Prov_catch, HP|].
    destruct (cancelled s); cbn [negb]; [apply Prov_finally, HP|].
    destruct (ok k); cbn [negb].
    + apply (Prov_same s); [exact HP|..]; reflexivity.
    + apply Prov_susp_branch.
      apply (Prov_same s); [exact HP|..]; reflexivity.
  - destruct (phase s) eqn:Hp; try discriminate. injection Hstep as <-.
    pose proof (ctl_phase _ _ HC) as Hph. rewrite Hp in Hph.
    destruct Hph as (HK & HU & Hok).
    unfold kpi_json_resume. destruct (json kpiRes) as [e|v] eqn:Hj.
    + apply Prov_catch, HP.
    + apply Prov_susp_branch. split; simpl.
      * intros v' [= <-]. eauto 10.
      * apply HP.
      * apply HP.
  - destruct (phase s) eqn:Hp; try discriminate. injection Hstep as <-.
    pose proof (ctl_phase _ _ HC) as Hph. rewrite Hp in Hph.
    destruct Hph as (HU & Hok & HK).
    unfold susp_json_resume. destruct (json suspRes) as [e|data] eqn:Hj.
    + apply Prov_catch, HP.
    + destruct (get_prop "items" data) as [e|its] eqn:Hi;
        [apply Prov_catch, HP|].
      assert (HPi : Prov (setItems (if isArray its then default (JArr []) its
                                    else JArr []) s)).
      { split; simpl; [apply HP| |apply HP].
        destruct its as [[]|]; simpl; try (left; reflexivity).
        right. eauto 10. }
      destruct (get_prop "comparison_cnt" data) as [e|c] eqn:Hc.
      * apply Prov_catch, HPi.
      * destruct (Number_ (nullish c (JNum 0))) as [e|n] eqn:Hn.
        -- apply Prov_catch, HPi.
        -- apply Number_inr in Hn. subst n.
           apply Prov_finally. split; simpl; [apply HPi|apply HPi|].
           right. eauto 10.
  - injection Hstep as <-. apply (Prov_same s); [exact HP|..]; reflexivity.
Qed.

(** *** The loading flag *)

Lemma LoadingOk_load : LoadingOk load.
Proof. split; simpl; [reflexivity|discriminate]. Qed.

Lemma LoadingOk_over s t :
  phase t = Done -> cancelled t = cancelled s ->
  loading t = (if cancelled s then loading s else false) ->
  LoadingOk t.
Proof.
  intros Hp Hc Hl. split; [congruence|].
  intros _ Hlive. rewrite Hl. rewrite Hc in Hlive. rewrite Hlive. reflexivity.
Qed.

Lemma LoadingOk_going s t :
  LoadingOk s -> phase s <> Done ->
  loading t = loading s -> phase t <> Done -> LoadingOk t.
Proof.
  intros [H1 _] Hp Hl Hp'. split; [|congruence].
  intros _. rewrite Hl. apply H1, Hp.
Qed.

Lemma LoadingOk_susp_branch u s :
  LoadingOk s -> phase s <> Done -> LoadingOk (susp_branch u s).
Proof.
  intros H Hp. destruct (ok u) eqn:E.
  - rewrite susp_branch_ok by exact E.
    apply (LoadingOk_going s); [exact H|exact Hp|reflexivity|discriminate].
  - destruct (susp_branch_not_ok u s E) as (_ & _ & _ & _ & El & Ep & Ec & _).
    apply (LoadingOk_over s); assumption.
Qed.

Lemma LoadingOk_step s ev s' :
  LoadingOk s -> step fetch s ev = Some s' -> LoadingOk s'.
Proof.
  intros HL Hstep. destruct ev; simpl in Hstep.
  - destruct (kpiSettled s); [discriminate|]. injection Hstep as <-.
    exact HL.
  - destruct (suspSettled s); [discriminate|]. injection Hstep as <-.
    exact HL.
  - destruct (phase s) eqn:Hp; try discriminate.
    destruct (all s) as [r|] eqn:Ha; try discriminate.
    injection Hstep as <-.
    assert (Hnd : phase s <> Done) by (rewrite Hp; discriminate).
    unfold load_resume. destruct r as [e|[k u]].
    + apply (LoadingOk_over s);
        [apply catch_phase|apply catch_fields|apply catch_view].
    + destruct (cancelled s) eqn:Hc; cbn [negb].
      * apply (LoadingOk_over s);
          [apply finally_phase|apply finally_fields|].
        rewrite (proj2 (proj2 (proj2 (proj2 (finally_view s))))), Hc.
        reflexivity.
      * destruct (ok k); cbn [negb].
        -- apply (LoadingOk_going s);
             [exact HL|exact Hnd|reflexivity|discriminate].
        -- apply LoadingOk_susp_branch.
           ++ apply (LoadingOk_going s);
                [exact HL|exact Hnd|reflexivity|simpl; exact Hnd].
           ++ simpl. exact Hnd.
  - destruct (phase s) eqn:Hp; try discriminate. injection Hstep as <-.
    assert (Hnd : phase s <> Done) by (rewrite Hp; discriminate).
    unfold kpi_json_resume. destruct (json kpiRes) as [e|v].
    + apply (LoadingOk_over s);
        [apply catch_phase|apply catch_fields|apply catch_view].
    + apply LoadingOk_susp_branch.
      * apply (LoadingOk_going s);
          [exact HL|exact Hnd|reflexivity|simpl; exact Hnd].
      * simpl. exact Hnd.
  - destruct (phase s) eqn:Hp; try discriminate. injection Hstep as <-.
    assert (Hnd : phase s <> Done) by (rewrite Hp; discriminate).
    unfold susp_json_resume. destruct (json suspRes) as [e|data].
    + apply (LoadingOk_over s);
        [apply catch_phase|apply catch_fields|apply catch_view].
    + destruct (get_prop "items" data) as [e|its].
      * apply (LoadingOk_over s);
          [apply catch_phase|apply catch_fields|apply catch_view].
      * destruct (get_prop "comparison_cnt" data) as [e|c];
          [|destruct (Number_ (nullish c (JNum 0))) as [e|n]].
        -- apply (LoadingOk_over s); [apply catch_phase| |].
           ++ kept catch_fields.
           ++ rewrite (proj2 (proj2 (proj2 (proj2 (catch_view _ _))))).
              reflexivity.
        -- apply (LoadingOk_over s); [apply catch_phase| |].
           ++ kept catch_fields.
           ++ rewrite (proj2 (proj2 (proj2 (proj2 (catch_view _ _))))).
              reflexivity.
        -- apply (LoadingOk_over s); [apply finally_phase| |].
           ++ kept finally_fields.
           ++ rewrite (proj2 (proj2 (proj2 (proj2 (finally_view _))))).
              reflexivity.
  - injection Hstep as <-. destruct HL as [H1 H2]. split; simpl.
    + exact H1.
    + discriminate.
Qed.


(** *** Errors *)

Lemma kpi_message_nonempty k : kpi_message k <> "".
Proof. unfold kpi_message. discriminate. Qed.

Lemma shown_message_nonempty e : shown_message e <> "".
Proof.
  unfold shown_message, message_or.
  destruct (String.eqb_spec (message_of e) ""); [discriminate|assumption].
Qed.

Lemma susp_branch_err u s : err (susp_branch u s) = err s.
Proof.
  destruct (ok u) eqn:E.
  - rewrite susp_branch_ok by exact E. reflexivity.
  - apply susp_branch_not_ok, E.
Qed.

Lemma susp_branch_cancelled u s : cancelled (susp_branch u s) = cancelled s.
Proof. apply susp_branch_fields. Qed.

Lemma catch_err e s :
  err (catch e s) = (if cancelled s then err s else shown_message e).
Proof. apply catch_view. Qed.

Lemma finally_err s : err (finally s) = err s.
Proof. apply finally_view. Qed.

Lemma ErrOk_load : ErrOk load.
Proof. left. reflexivity. Qed.

Lemma ErrOk_same s t : ErrOk s -> err t = err s -> ErrOk t.
Proof. unfold OverviewMore.ErrOk. intros H ->. exact H. Qed.

Lemma ErrOk_catch e s : ErrOk s -> cause fetch e -> ErrOk (catch e s).
Proof.
  intros H Hc. unfold OverviewMore.ErrOk. rewrite catch_err.
  destruct (cancelled s); [exact H|]. right. right. eauto.
Qed.

Lemma ErrOk_step s ev s' :
  Ctl s -> ErrOk s -> step fetch s ev = Some s' -> ErrOk s'.
Proof.
  intros HC HE Hstep. destruct ev; simpl in Hstep.
  - destruct (kpiSettled s); [discriminate|]. injection Hstep as <-.
    exact HE.
  - destruct (suspSettled s); [discriminate|]. injection Hstep as <-.
    exact HE.
  - destruct (phase s) eqn:Hp; try discriminate.
    destruct (all s) as [r|] eqn:Ha; try discriminate.
    injection Hstep as <-.
    unfold load_resume. destruct r as [e|[k u]].
    + apply ErrOk_catch; [exact HE|].
      destruct (ctl_rejected _ _ HC _ Ha) as [H|H];
        [left; exact H|right; left; exact H].
    + destruct (ctl_fulfilled _ _ HC _ _ Ha) as [HK HU].
      destruct (cancelled s); cbn [negb].
      * apply (ErrOk_same s); [exact HE|apply finally_err].
      * destruct (ok k) eqn:Hk; cbn [negb].
        -- exact HE.
        -- unfold OverviewMore.ErrOk. rewrite susp_branch_err. simpl.
           right. left. eauto.
  - destruct (phase s) eqn:Hp; try discriminate. injection Hstep as <-.
    pose proof (ctl_phase _ _ HC) as Hph. rewrite Hp in Hph.
    destruct Hph as (HK & HU & Hok).
    unfold kpi_json_resume. destruct (json kpiRes) as [e|v] eqn:Hj.
    + apply ErrOk_catch; [exact HE|]. right. right. left. eauto.
    + apply (ErrOk_same s); [exact HE|]. rewrite susp_branch_err.
      reflexivity.
  - destruct (phase s) eqn:Hp; try discriminate. injection Hstep as <-.
    pose proof (ctl_phase _ _ HC) as Hph. rewrite Hp in Hph.
    destruct Hph as (HU & Hok & HK).
    unfold susp_json_resume. destruct (json suspRes) as [e|data] eqn:Hj.
    + apply ErrOk_catch; [exact HE|]. right. right. right. eauto.
    + destruct (get_prop "items" data) as [e|its] eqn:Hi.
      * apply ErrOk_catch; [exact HE|]. right. right. right.
        exists suspRes. split; [exact HU|]. split; [exact Hok|].
        right. left. eauto.
      * destruct (get_prop "comparison_cnt" data) as [e|c] eqn:Hc;
          [|destruct (Number_ (nullish c (JNum 0))) as [e|n] eqn:Hn].
        -- apply ErrOk_catch; [exact HE|]. right. right. right.
           exists suspRes. split; [exact HU|]. split; [exact Hok|].
           right. left. eauto.
        -- apply ErrOk_catch; [exact HE|]. right. right. right.
           exists suspRes. split; [exact HU|]. split; [exact Hok|].
           right. right. eauto.
        -- apply (ErrOk_same s); [exact HE|]. rewrite finally_err.
           reflexivity.
  - injection Hstep as <-. exact HE.
Qed.

Lemma failed_request_not_ok k u :
  apiFetch fetch kpi_path = Fulfilled k -> ok k = true ->
  apiFetch fetch susp_path = Fulfilled u ->
  failed_request fetch -> False.
Proof.
  intros HK Hok HU [(k' & HK' & Hk') | [[e He] | [e He]]]; congruence.
Qed.

Lemma load_resume_cancelled r s : cancelled (load_resume r s) = cancelled s.
Proof.
  unfold load_resume. destruct r as [e|[k u]]; [apply catch_fields|].
  destruct (negb (cancelled s)); [|apply finally_fields].
  destruct (negb (ok k)); [|reflexivity]. kept susp_branch_fields.
Qed.

Lemma susp_json_resume_cancelled u s :
  cancelled (susp_json_resume u s) = cancelled s.
Proof.
  unfold susp_json_resume. destruct (json u) as [e|data];
    [apply catch_fields|].
  destruct (get_prop "items" data); [apply catch_fields|].
  destruct (get_prop "comparison_cnt" data) as [e|c]; [kept catch_fields|].
  destruct (Number_ (nullish c (JNum 0)));
    [kept catch_fields|kept finally_fields].
Qed.

Lemma Reported_load : Reported load.
Proof.
  intros _ [H | [u H]]; simpl in H; discriminate.
Qed.

Lemma Reported_step s ev s' :
  Ctl s -> Reported s -> step fetch s ev = Some s' -> Reported s'.
Proof.
  intros HC HR Hstep. destruct ev; simpl in Hstep.
  - destruct (kpiSettled s); [discriminate|]. injection Hstep as <-.
    exact HR.
  - destruct (suspSettled s); [discriminate|]. injection Hstep as <-.
    exact HR.
  - destruct (phase s) eqn:Hp; try discriminate.
    destruct (all s) as [r|] eqn:Ha; try discriminate.
    injection Hstep as <-.
    intros Hlive Hph Hfail.
    assert (Hc : cancelled s = false)
      by (rewrite <- Hlive; symmetry; apply load_resume_cancelled).
    revert Hph. rewrite load_resume_phase.
    unfold load_resume. destruct r as [e|[k u]].
    + intros _. rewrite catch_err, Hc. apply shown_message_nonempty.
    + rewrite Hc. cbn [negb].
      destruct (ctl_fulfilled _ _ HC _ _ Ha) as [HK HU].
      destruct (ok k) eqn:Hk; cbn [negb].
      * intros _. exfalso.
        exact (failed_request_not_ok k u HK Hk HU Hfail).
      * intros _. rewrite susp_branch_err. simpl. apply kpi_message_nonempty.
  - destruct (phase s) eqn:Hp; try discriminate. injection Hstep as <-.
    pose proof (ctl_phase _ _ HC) as Hph. rewrite Hp in Hph.
    destruct Hph as (HK & HU & Hok).
    intros _ _ Hfail. exfalso.
    exact (failed_request_not_ok _ _ HK Hok HU Hfail).
  - destruct (phase s) eqn:Hp; try discriminate. injection Hstep as <-.
    intros Hlive _ Hfail.
    assert (Hc : cancelled s = false)
      by (rewrite <- Hlive; symmetry; apply susp_json_resume_cancelled).
    assert (Hpre : err s <> "") by (apply HR; eauto).
    unfold susp_json_resume. destruct (json suspRes) as [e|data].
    + rewrite catch_err, Hc. apply shown_message_nonempty.
    + destruct (get_prop "items" data).
      * rewrite catch_err, Hc. apply shown_message_nonempty.
      * destruct (get_prop "comparison_cnt" data) as [e|c];
          [|destruct (Number_ (nullish c (JNum 0))) as [e|n]].
        -- rewrite catch_err. simpl. rewrite Hc.
           apply shown_message_nonempty.
        -- rewrite catch_err. simpl. rewrite Hc.
           apply shown_message_nonempty.
        -- rewrite finally_err. exact Hpre.
  - injection Hstep as <-. intros H. simpl in H. discriminate.
Qed.

(** *** Every state a run reaches *)

Lemma reachable evs : forall s s',
  Ctl s /\ Prov s /\ LoadingOk s /\ ErrOk s /\ Reported s ->
  steps fetch s evs = Some s' ->
  Ctl s' /\ Prov s' /\ LoadingOk s' /\ ErrOk s' /\ Reported s'.
Proof.
  induction evs as [|ev rest IH]; simpl; intros s s' H Hst.
  - injection Hst as <-. exact H.
  - destruct (step fetch s ev) as [s1|] eqn:E; [|discriminate].
    destruct H as (HC & HP & HL & HE & HR).
    apply (IH s1 s'); [|exact Hst].
    split; [exact (Ctl_step s ev s1 HC E)|].
    split; [exact (Prov_step s ev s1 HC HP E)|].
    split; [exact (LoadingOk_step s ev s1 HL E)|].
    split; [exact (ErrOk_step s ev s1 HC HE E)|].
    exact (Reported_step s ev s1 HC HR E).
Qed.

Lemma reachable_load evs s :
  steps fetch load evs = Some s ->
  Ctl s /\ Prov s /\ LoadingOk s /\ ErrOk s /\ Reported s.
Proof.
  apply reachable.
  split; [apply Ctl_load|]. split; [apply Prov_load|].
  split; [apply LoadingOk_load|]. split; [apply ErrOk_load|].
  apply Reported_load.
Qed.

(** X10.  The overview shows its loading state for as long as [load] is
    under way, and a run that is over and was not cleaned up has lowered
    it: every path of [load] ends in the [finally] block. *)
Theorem load_loading_until_over evs s :
  steps fetch load evs = Some s ->
  (phase s <> Done -> loading s = true) /\
  (phase s = Done -> cancelled s = false -> loading s = false).
Proof. intros Hs. apply (reachable_load evs s Hs). Qed.

(** X11.  What the overview shows comes from the bodies of responses with
    a success status: the KPIs are the parsed body of the KPI response, and
    then the other request was answered too; the list is always an array,
    and when it is not empty it is the array under [items] of the
    suspicious-files body. *)
Theorem load_shows_response_bodies evs s :
  steps fetch load evs = Some s ->
  (forall v, kpis s = Some v ->
     exists k u, apiFetch fetch kpi_path = Fulfilled k /\ ok k = true /\
                 json k = inr v /\ apiFetch fetch susp_path = Fulfilled u) /\
  (exists l, items s = JArr l) /\
  (forall l, items s = JArr l -> l <> [] ->
     exists u data, apiFetch fetch susp_path = Fulfilled u /\ ok u = true /\
                    json u = inr data /\
                    get_prop "items" data = inr (Some (JArr l))).
Proof.
  intros Hs. destruct (reachable_load evs s Hs) as (_ & HP & _).
  split; [apply HP|].
  destruct (prov_items _ _ HP) as [E | (u & data & l & HU & Hok & Hj & Hi & E)].
  - split; [eauto|]. intros l El Hne. congruence.
  - split; [eauto|]. intros l' El _. rewrite E in El. injection El as <-.
    eauto 10.
Qed.

(** X12.  An error on the overview has a cause: it is empty, or the KPI
    message of a KPI response with a status outside 200 to 299, or the
    message of an error that a rejected fetch, an unreadable body or a
    [comparison_cnt] that does not convert to a number threw.  A
    suspicious-files response with a status outside 200 to 299 is none of
    these: with the KPIs loaded it leaves the error empty. *)
Theorem load_error_has_cause evs s :
  steps fetch load evs = Some s ->
  (err s = "" \/
   (exists k, apiFetch fetch kpi_path = Fulfilled k /\ ok k = false /\
              err s = kpi_message k) \/
   (exists e, cause fetch e /\ err s = shown_message e)) /\
  (forall k u v,
     apiFetch fetch kpi_path = Fulfilled k -> ok k = true ->
     json k = inr v ->
     apiFetch fetch susp_path = Fulfilled u -> ok u = false ->
     err s = "").
Proof.
  intros Hs. destruct (reachable_load evs s Hs) as (_ & _ & _ & HE & _).
  split; [exact HE|].
  intros k u v HK Hk Hj HU Hu.
  destruct HE as [E | [(k' & HK' & Hk' & _) | (e & Hc & _)]];
    [exact E|congruence|].
  destruct Hc as [H | [H | [(k' & HK' & _ & Hj') | (u' & HU' & Hu' & _)]]];
    congruence.
Qed.

(** X13.  A failed request is reported: when a run that was not cleaned up
    is over and the KPI request was answered with a status outside 200 to
    299, or one of the two fetches rejected, the error is not empty and no
    KPIs are shown. *)
Theorem load_reports_failure evs s :
  steps fetch load evs = Some s ->
  cancelled s = false -> phase s = Done -> failed_request fetch ->
  err s <> "" /\ kpis s = None.
Proof.
  intros Hs Hc Hp Hfail.
  destruct (reachable_load evs s Hs) as (_ & HP & _ & _ & HR).
  split; [apply HR; auto|].
  destruct (kpis s) as [v|] eqn:Hv; [|reflexivity].
  destruct (prov_kpis _ _ HP v Hv) as (k & u & HK & Hk & _ & HU).
  exfalso. exact (failed_request_not_ok k u HK Hk HU Hfail).
Qed.

End Load.

Lemma load_loading_until_over_witness :
  exists s,
    steps overview_net load
      [SettleSusp; SettleKpi; Resume; SettleKpiJson; SettleSuspJson] = Some s /\
    phase s = Done /\ cancelled s = false /\ loading s = false.
Proof.
  eexists. split; [reflexivity|]. split; [reflexivity|]. split; [reflexivity|].
  apply (proj2 (load_loading_until_over overview_net
                  [SettleSusp; SettleKpi; Resume; SettleKpiJson; SettleSuspJson]
                  _ eq_refl) eq_refl eq_refl).
Defined.

Lemma load_shows_response_bodies_witness :
  exists s k,
    steps overview_net load
      [SettleSusp; SettleKpi; Resume; SettleKpiJson; SettleSuspJson] = Some s /\
    kpis s = Some (JObj [("malware_matches", JNum 2); ("total_files", JNum 40)]) /\
    apiFetch overview_net kpi_path = Fulfilled k /\
    json k = inr (JObj [("malware_matches", JNum 2); ("total_files", JNum 40)]).
Proof.
  eexists.
  destruct (proj1 (load_shows_response_bodies overview_net
                     [SettleSusp; SettleKpi; Resume; SettleKpiJson;
                      SettleSuspJson] _ eq_refl) _ eq_refl)
    as (k & u & HK & _ & Hj & _).
  exists k. split; [reflexivity|]. split; [reflexivity|].
  split; [exact HK|exact Hj].
Defined.

Lemma load_error_has_cause_witness :
  exists s k u,
    steps overview_net_susp_down load
      [SettleKpi; SettleSusp; Resume; SettleKpiJson] = Some s /\
    apiFetch overview_net_susp_down kpi_path = Fulfilled k /\ ok k = true /\
    apiFetch overview_net_susp_down susp_path = Fulfilled u /\ ok u = false /\
    phase s = Done /\ err s = "".
Proof.
  eexists _, _, _. split; [reflexivity|]. split; [reflexivity|].
  split; [reflexivity|]. split; [reflexivity|]. split; [reflexivity|].
  split; [reflexivity|].
  apply (proj2 (load_error_has_cause overview_net_susp_down
                  [SettleKpi; SettleSusp; Resume; SettleKpiJson] _ eq_refl)
           _ _ _ eq_refl eq_refl eq_refl eq_refl eq_refl).
Defined.

(** A [comparison_cnt] that does not convert: the list is shown, the count
    is not written, and the error is the one of the conversion. *)
Remark load_count_does_not_convert :
  exists s,
    steps overview_net_odd_count load
      [SettleKpi; SettleSusp; Resume; SettleKpiJson; SettleSuspJson] = Some s /\
    items s = JArr [JObj [("host", JStr "srv1")]] /\
    comparisonCnt s = Number (JNum 0) /\
    err s = "Cannot convert object to primitive value" /\
    loading s = false /\
    cause overview_net_odd_count cannot_convert.
Proof.
  eexists. repeat (split; [reflexivity|]).
  right. right. right. eexists. split; [reflexivity|]. split; [reflexivity|].
  right. right. eexists _, _. split; [reflexivity|]. split; reflexivity.
Qed.

Lemma load_reports_failure_witness :
  exists s,
    steps overview_net_down load [SettleKpi; SettleSusp; Resume] = Some s /\
    cancelled s = false /\ phase s = Done /\
    failed_request overview_net_down /\
    err s <> "" /\ kpis s = None.
Proof.
  eexists. split; [reflexivity|]. split; [reflexivity|]. split; [reflexivity|].
  assert (Hfail : failed_request overview_net_down).
  { left. eexists. split; reflexivity. }
  split; [exact Hfail|].
  apply (load_reports_failure overview_net_down
           [SettleKpi; SettleSusp; Resume] _ eq_refl eq_refl eq_refl Hfail).
Defined.

End OverviewMoreFacts.

(** ** More on the gateway *)

Module GatewayMoreFacts.

Lemma Headers_delete_absent n h :
  Headers_has n h = false -> Headers_delete n h = h.
Proof.
  induction h as [|[k w] t IH]; simpl; [reflexivity|].
  intros H. apply orb_false_iff in H as [Hk Ht].
  rewrite Hk. simpl. rewrite IH by exact Ht. reflexivity.
Qed.

Lemma filter_name_has n h :
  List.filter (fun e : Header => name_eqb (fst e) n) h = [] ->
  Headers_has n h = false.
Proof.
  induction h as [|[k w] t IH]; simpl; [reflexivity|].
  destruct (name_eqb k n); simpl; [discriminate|exact IH].
Qed.

(** After [set n v] one header is named [n]: the first of that name, or
    the new last one, holding [v]. *)
Lemma filter_name_set n v h :
  exists k, name_eqb k n = true /\
            List.filter (fun e : Header => name_eqb (fst e) n) (Headers_set n v h)
            = [(k, v)].
Proof.
  induction h as [|[k w] t IH]; simpl.
  - exists n. rewrite name_eqb_refl. auto.
  - destruct (name_eqb k n) eqn:E; simpl; rewrite E.
    + exists k. rewrite filter_name_delete. auto.
    + exact IH.
Qed.

(** Setting the one header of a name to the value it has changes
    nothing. *)
Lemma Headers_set_same n v h k :
  List.filter (fun e : Header => name_eqb (fst e) n) h = [(k, v)] ->
  Headers_set n v h = h.
Proof.
  induction h as [|[k' w] t IH]; simpl; [discriminate|].
  destruct (name_eqb k' n) eqn:E; simpl.
  - intros [= -> -> Ht].
    rewrite Headers_delete_absent by (apply filter_name_has, Ht).
    reflexivity.
  - intros Ht. rewrite IH by exact Ht. reflexivity.
Qed.

Section Gateway.

Variable fetch : string -> RequestInit -> Thrown + Response.

(** X14.  Whatever accept headers the inbound request has, none, one or
    several, the request sent upstream has exactly one. *)
Theorem proxy_single_accept req ctx :
  exists target init k v,
    fetches (effects (proxy fetch req ctx)) = [(target, init)] /\
    name_eqb k "accept" = true /\
    List.filter (fun e : Header => name_eqb (fst e) "accept")
      (init_headers init) = [(k, v)].
Proof.
  pose proof (proxy_run fetch req ctx) as H. cbv zeta in H.
  match type of H with
  | _ = (_ :: _ ++ [Fetch ?u ?i], _) =>
      destruct (filter_name_set "accept"
                  (default "application/json"
                     (Headers_get "accept"
                        (Headers_delete "connection"
                           (Headers_delete "host" (req_headers req)))))
                  (Headers_delete "connection"
                     (Headers_delete "host" (req_headers req))))
        as (k & Hk & Hf);
      exists u, i, k
  end.
  eexists. split; [rewrite H; apply fetches_proxy_trace|].
  split; [exact Hk|exact Hf].
Qed.

(** X15.  The gateway behind a gateway: a request whose headers are those
    a first pass has sent upstream goes through a second pass with its
    headers unchanged. *)
Theorem proxy_headers_idempotent req ctx req2 ctx2 :
  exists target init target2 init2,
    fetches (effects (proxy fetch req ctx)) = [(target, init)] /\
    fetches (effects (proxy fetch req2 ctx2)) = [(target2, init2)] /\
    (req_headers req2 = init_headers init ->
     init_headers init2 = init_headers init).
Proof.
  pose proof (proxy_run fetch req ctx) as H. cbv zeta in H.
  pose proof (proxy_run fetch req2 ctx2) as H2. cbv zeta in H2.
  match type of H with
  | _ = (_ :: _ ++ [Fetch ?u ?i], _) => exists u, i
  end.
  match type of H2 with
  | _ = (_ :: _ ++ [Fetch ?u ?i], _) => exists u, i
  end.
  split; [rewrite H; apply fetches_proxy_trace|].
  split; [rewrite H2; apply fetches_proxy_trace|].
  cbn [init_headers]. intros ->.
  set (h := Headers_delete "connection"
              (Headers_delete "host" (req_headers req))).
  set (v := default "application/json" (Headers_get "accept" h)).
  assert (Hhost : Headers_has "host" (Headers_set "accept" v h) = false).
  { rewrite Headers_has_set_other by reflexivity. unfold h.
    rewrite Headers_has_delete_other by reflexivity.
    apply Headers_has_delete. }
  assert (Hconn : Headers_has "connection" (Headers_set "accept" v h) = false).
  { rewrite Headers_has_set_other by reflexivity. apply Headers_has_delete. }
  rewrite (Headers_delete_absent "host") by exact Hhost.
  rewrite (Headers_delete_absent "connection") by exact Hconn.
  rewrite Headers_get_set. simpl.
  destruct (filter_name_set "accept" v h) as (k & _ & Hf).
  apply (Headers_set_same _ _ _ k Hf).
Qed.

(** Where the host of a URL is: the third piece when the URL is cut at its
    slashes. *)
Lemma split_origin rest :
  split "/" ("http://api:8000/" +:+ rest)
  = "http:" :: "" :: "api:8000" :: split "/" rest.
Proof.
  change ("http://api:8000/" +:+ rest)
    with ("http:" +:+ String "/" ("" +:+ String "/" ("api:8000" +:+ String "/" rest))).
  rewrite !split_app by reflexivity. reflexivity.
Qed.

(** X16.  No segment and no query moves the request to another host: cut
    at its slashes, the upstream URL starts with the scheme, the empty
    piece and [api:8000]. *)
Theorem proxy_host_fixed req ctx :
  exists target init,
    fetches (effects (proxy fetch req ctx)) = [(target, init)] /\
    take 3 (split "/" target) = ["http:"; ""; "api:8000"].
Proof.
  proxy_request fetch req ctx H.
  split; [rewrite H; apply fetches_proxy_trace|].
  rewrite split_origin. reflexivity.
Qed.

Lemma contains_join c parts :
  contains c "/" = false ->
  Forall (fun p => contains c p = false) parts ->
  contains c (join "/" parts) = false.
Proof.
  intros Hc. induction 1 as [|p rest Hp Hrest IH]; [reflexivity|].
  destruct rest as [|q rest]; [exact Hp|].
  change (join "/" (p :: q :: rest))
    with (p +:+ "/" +:+ join "/" (q :: rest)).
  rewrite !contains_app, Hp, Hc, IH. reflexivity.
Qed.

(** X18.  From the page to the upstream: the request [apiFetch] makes for
    a path, routed to the gateway with the segments of that path, is sent
    to [http://api:8000] followed by the very path, query included. *)
Theorem apiFetch_through_proxy req ctx origin url parts search :
  (forall net, apiFetch net ("/" +:+ join "/" parts +:+ search) = net url) ->
  req_url req = origin +:+ url ->
  params ctx = Some {| path := Some parts |} ->
  contains "?" origin = false -> contains "#" origin = false ->
  Forall (fun p => contains "?" p = false) parts ->
  Forall (fun p => contains "#" p = false) parts ->
  (search = "" \/
   exists query, search = "?" +:+ query /\ query <> "" /\
                 contains "#" query = false) ->
  exists init,
    fetches (effects (proxy fetch req ctx))
    = [("http://api:8000" +:+ "/" +:+ join "/" parts +:+ search, init)].
Proof.
  intros Hapi Hurl Hp Hoq Hoh Hpq Hph Hsearch.
  assert (Eurl : url = "/api" +:+ "/" +:+ join "/" parts +:+ search).
  { specialize (Hapi (fun u => Rejected (Err u))).
    unfold apiFetch in Hapi. congruence. }
  pose proof (proxy_run fetch req ctx) as Hrun. cbv zeta in Hrun.
  rewrite Hp in Hrun. simpl in Hrun.
  match type of Hrun with
  | _ = (_ :: _ ++ [Fetch _ ?i], _) => exists i
  end.
  rewrite Hrun. unfold effects. cbn [fst]. rewrite fetches_proxy_trace.
  f_equal. f_equal.
  assert (Hbase_q : contains "?" (origin +:+ "/api/" +:+ join "/" parts) = false).
  { rewrite !contains_app, Hoq, contains_join by (reflexivity || assumption).
    reflexivity. }
  assert (Hbase_h : contains "#" (origin +:+ "/api/" +:+ join "/" parts) = false).
  { rewrite !contains_app, Hoh, contains_join by (reflexivity || assumption).
    reflexivity. }
  assert (Eall : req_url req
                 = (origin +:+ "/api/" +:+ join "/" parts) +:+ search).
  { rewrite Hurl, Eurl.
    rewrite !CsvFacts.append_assoc_s. reflexivity. }
  assert (Hs : URL_search (req_url req) = search).
  { rewrite Eall. destruct Hsearch as [-> | (query & -> & Hne & Hq)].
    - rewrite CsvFacts.append_nil_r. apply URL_search_no_query, Hbase_q.
    - apply URL_search_query; assumption. }
  rewrite Hs. reflexivity.
Qed.

End Gateway.

Lemma apiFetch_through_proxy_witness :
  exists init,
    fetches (effects (proxy upstream_404
                        {| req_url := "http://localhost:3000/api/analysis/large-executables?limit=200";
                           req_method := "GET";
                           req_headers := [];
                           req_body := [] |}
                        (ctx_of ["analysis"; "large-executables"])))
    = [("http://api:8000/analysis/large-executables?limit=200", init)].
Proof.
  apply (apiFetch_through_proxy upstream_404 _ _ "http://localhost:3000"
           "/api/analysis/large-executables?limit=200"
           ["analysis"; "large-executables"] "?limit=200").
  - intros net. reflexivity.
  - reflexivity.
  - reflexivity.
  - reflexivity.
  - reflexivity.
  - repeat constructor.
  - repeat constructor.
  - right. exists "limit=200". split; [reflexivity|]. split; [discriminate|reflexivity].
Defined.

Lemma proxy_headers_idempotent_witness :
  exists init init2,
    fetches (effects (proxy upstream_404 delete_user_7 (ctx_of ["a"])))
    = [("http://api:8000/a?force=1", init)] /\
    fetches (effects (proxy upstream_404
                        {| req_url := "http://gw2/api/a";
                           req_method := "DELETE";
                           req_headers := [("Cookie", "session=abc");
                                           ("accept", "application/json")];
                           req_body := [] |} (ctx_of ["a"])))
    = [("http://api:8000/a", init2)] /\
    init_headers init2 = init_headers init.
Proof.
  destruct (proxy_headers_idempotent upstream_404 delete_user_7 (ctx_of ["a"])
              {| req_url := "http://gw2/api/a";
                 req_method := "DELETE";
                 req_headers := [("Cookie", "session=abc");
                                 ("accept", "application/json")];
                 req_body := [] |} (ctx_of ["a"]))
    as (target & init & target2 & init2 & H1 & H2 & Hidem).
  exists init, init2.
  assert (E1 : (target, init)
               = ("http://api:8000/a?force=1",
                  {| init_method := "DELETE";
                     init_headers := [("Cookie", "session=abc");
                                      ("accept", "application/json")];
                     init_body := Some [] |})).
  { assert (Hc : fetches (effects (proxy upstream_404 delete_user_7 (ctx_of ["a"])))
                 = [("http://api:8000/a?force=1",
                     {| init_method := "DELETE";
                        init_headers := [("Cookie", "session=abc");
                                         ("accept", "application/json")];
                        init_body := Some [] |})]) by reflexivity.
    rewrite H1 in Hc. injection Hc as -> ->. reflexivity. }
  injection E1 as -> ->.
  assert (E2 : target2 = "http://api:8000/a").
  { assert (Hc : exists i, fetches (effects (proxy upstream_404
                        {| req_url := "http://gw2/api/a";
                           req_method := "DELETE";
                           req_headers := [("Cookie", "session=abc");
                                           ("accept", "application/json")];
                           req_body := [] |} (ctx_of ["a"])))
                 = [("http://api:8000/a", i)]) by (eexists; reflexivity).
    destruct Hc as [i Hc]. rewrite H2 in Hc. injection Hc as -> _.
    reflexivity. }
  subst target2.
  split; [exact H1|]. split; [exact H2|]. apply Hidem. reflexivity.
Defined.

End GatewayMoreFacts.

(** ** The scan-findings page *)

Module ScansLoadFacts.
Import ScansLoad.

Section Load.

Variable fetch : string -> FetchOutcome.
Variable nas_first : bool.

(** X19.  The page leaves its loading state exactly when both requests are
    answered and the body of each answer with an ok status parses to
    something other than [null]; that is also exactly when the promise of
    [load] is fulfilled.  In every other case [loading] stays raised. *)
Theorem load_lowers_loading_iff s :
  let r := load fetch nas_first s in
  (loading (fst r) = false <->
   exists scanRes nasRes v w,
     apiFetch fetch scan_path = Fulfilled scanRes /\
     apiFetch fetch nas_path = Fulfilled nasRes /\
     items_of scanRes = inr v /\ items_of nasRes = inr w) /\
  (loading (fst r) = false <-> snd r = inr tt) /\
  (loading (fst r) = true <-> exists e, snd r = inl e).
Proof.
  cbv zeta. unfold load.
  destruct (apiFetch fetch scan_path) as [e1|scanRes] eqn:E1;
    destruct (apiFetch fetch nas_path) as [e2|nasRes] eqn:E2; simpl.
  1-3: (split; [|split]); split; intros H;
       try discriminate; try reflexivity; eauto;
       destruct H as (? & ? & ? & ? & ? & ? & _); discriminate.
  destruct (items_of scanRes) as [e|v] eqn:Es; simpl.
  { (split; [|split]); split; intros H;
      try discriminate; try reflexivity; eauto.
    destruct H as (? & ? & ? & ? & [= <-] & _ & H & _). congruence. }
  destruct (items_of nasRes) as [e|w] eqn:En; simpl.
  { (split; [|split]); split; intros H;
      try discriminate; try reflexivity; eauto.
    destruct H as (? & ? & ? & ? & _ & [= <-] & _ & H). congruence. }
  split; [|split]; split; intros H.
  - exists scanRes, nasRes, v, w. auto.
  - reflexivity.
  - reflexivity.
  - reflexivity.
  - discriminate.
  - destruct H as [? H]. discriminate.
Qed.

(** X20.  A request that is rejected leaves the page as it was, but for
    [loading], which is raised and stays so: no list is written and no
    error is kept. *)
Theorem load_rejected_keeps_loading s :
  (exists e, apiFetch fetch scan_path = Rejected e) \/
  (exists e, apiFetch fetch nas_path = Rejected e) ->
  exists e,
    load fetch nas_first s = (setLoading true s, inl e).
Proof.
  unfold load. intros [[e H]|[e H]]; rewrite H.
  - destruct (apiFetch fetch nas_path); eauto.
  - destruct (apiFetch fetch scan_path); eauto.
Qed.

(** X21.  An answer with a status outside 200 to 299 is no error on this
    page: whatever its status and body, its table is empty and loading
    ends. *)
Theorem load_not_ok_is_empty s scanRes nasRes :
  apiFetch fetch scan_path = Fulfilled scanRes ->
  apiFetch fetch nas_path = Fulfilled nasRes ->
  ok scanRes = false -> ok nasRes = false ->
  load fetch nas_first s
  = ({| scanItems := JArr []; nasItems := JArr []; loading := false |},
     inr tt).
Proof.
  intros H1 H2 O1 O2. unfold load, items_of. rewrite H1, H2, O1, O2.
  reflexivity.
Qed.

End Load.

Lemma load_rejected_keeps_loading_witness :
  exists e, load scans_net false mounted = (setLoading true mounted, inl e).
Proof.
  apply (load_rejected_keeps_loading scans_net false mounted).
  right. exists (Err "Failed to fetch"). reflexivity.
Defined.

Lemma load_not_ok_is_empty_witness :
  load scans_net_500 false mounted
  = ({| scanItems := JArr []; nasItems := JArr []; loading := false |},
     inr tt).
Proof.
  apply (load_not_ok_is_empty scans_net_500 false mounted
           {| status := 500; statusText := "Internal Server Error";
              text := inr "boom"; json := inl (Err "Unexpected token") |}
           {| status := 500; statusText := "Internal Server Error";
              text := inr "boom"; json := inl (Err "Unexpected token") |});
    reflexivity.
Defined.

End ScansLoadFacts.

(** ** The YARA panel *)

Module YaraFacts.
Import Yara.

Lemma Map_get_set k k' v m :
  Map_get k (Map_set k' v m)
  = if String.eqb k' k then Some v else Map_get k m.
Proof.
  induction m as [|[k0 v0] t IH]; simpl; [reflexivity|].
  destruct (String.eqb_spec k0 k') as [->|N0]; simpl.
  - destruct (String.eqb k' k); reflexivity.
  - rewrite IH.
    destruct (String.eqb_spec k0 k) as [->|N1];
      destruct (String.eqb_spec k' k) as [->|N2];
      congruence.
Qed.

Lemma Map_keys_set_In k k' v m :
  In k (Map_keys (Map_set k' v m)) <-> k = k' \/ In k (Map_keys m).
Proof.
  unfold Map_keys. induction m as [|[k0 v0] t IH]; simpl.
  - intuition.
  - destruct (String.eqb_spec k0 k') as [->|N0]; simpl.
    + intuition.
    + rewrite IH. intuition.
Qed.

Lemma Map_keys_set_NoDup k v m :
  NoDup (Map_keys m) -> NoDup (Map_keys (Map_set k v m)).
Proof.
  unfold Map_keys. induction m as [|[k0 v0] t IH]; simpl; intros H.
  - apply NoDup_cons. split; [apply not_elem_of_nil|constructor].
  - apply NoDup_cons in H as [Hn Ht].
    destruct (String.eqb_spec k0 k) as [->|N0]; simpl.
    + apply NoDup_cons. auto.
    + apply NoDup_cons. split; [|auto].
      rewrite list_elem_of_In. rewrite list_elem_of_In in Hn.
      intros Hin. apply (Map_keys_set_In k0 k v t) in Hin as [E|Hin].
      * congruence.
      * exact (Hn Hin).
Qed.

Section Panel.

Variable numberToString : Z -> string.

Lemma filename_of_object r name :
  filename_of numberToString r = Some name -> truthy r = true.
Proof.
  unfold filename_of, get_opt. destruct r; try discriminate. reflexivity.
Qed.

(** One turn of the loop, when it does not throw. *)
Lemma add_row_inr m r m' :
  add_row numberToString m r = inr m' ->
  m' = match filename_of numberToString r with
       | Some name => Map_set name r m
       | None => m
       end /\
  forall f, get_opt "filename" r = Some f -> truthy f = true ->
            String_ numberToString f = inr (text_of numberToString f).
Proof.
  unfold add_row, filename_of.
  destruct (get_opt "filename" r) as [f|];
    [|intros [= <-]; split; [reflexivity|discriminate]].
  destruct (truthy f) eqn:T;
    [|intros [= <-]; split; [reflexivity|intros f' [= <-]; congruence]].
  unfold String_. destruct (ToPrimitive_throws f) eqn:P; simpl;
    [discriminate|].
  intros [= <-]. split; [reflexivity|]. intros f' [= <-] _.
  rewrite P. reflexivity.
Qed.

(** One turn throws on a [filename] that does not convert. *)
Lemma add_row_inl m r :
  (exists e, add_row numberToString m r = inl e) <->
  exists f, get_opt "filename" r = Some f /\ ToPrimitive_throws f = true.
Proof.
  unfold add_row. destruct (get_opt "filename" r) as [f|].
  - destruct (truthy f) eqn:T.
    + unfold String_. destruct (ToPrimitive_throws f) eqn:P; simpl.
      * split; eauto.
      * split; [intros [e H]; discriminate|].
        intros (f' & [= <-] & H). congruence.
    + split; [intros [e H]; discriminate|].
      intros (f' & [= <-] & H). destruct f; discriminate.
  - split; [intros [e H]; discriminate|]. intros (f & H & _). discriminate.
Qed.

Lemma find_last {A} (p : A -> bool) l a :
  find p (l ++ [a])
  = match find p l with
    | Some x => Some x
    | None => if p a then Some a else None
    end.
Proof.
  induction l as [|x l IH]; [reflexivity|].
  simpl. destruct (p x); [reflexivity|exact IH].
Qed.

(** The loop of [recentPeByFilename] over a map that holds entries
    already: the last row of a name wins, and the names no row has keep
    what the map held. *)
Lemma add_rows_get name items : forall m m',
  add_rows numberToString items m = inr m' ->
  Map_get name m'
  = match find (has_name numberToString name) (rev items) with
    | Some r => Some r
    | None => Map_get name m
    end.
Proof.
  induction items as [|r rest IH]; simpl; intros m m'.
  - intros [= <-]. reflexivity.
  - destruct (add_row numberToString m r) as [e|m1] eqn:E1; simpl;
      [discriminate|].
    intros H. rewrite (IH m1 m' H), find_last.
    destruct (find _ (rev rest)); [reflexivity|].
    apply add_row_inr in E1 as [-> _]. unfold has_name.
    destruct (filename_of numberToString r) as [n|]; [|reflexivity].
    rewrite Map_get_set. destruct (String.eqb n name); reflexivity.
Qed.

Lemma add_rows_inl items : forall m,
  (exists e, add_rows numberToString items m = inl e) <->
  exists r f, In r items /\ get_opt "filename" r = Some f /\
              ToPrimitive_throws f = true.
Proof.
  induction items as [|r rest IH]; simpl; intros m.
  - split; [intros [e H]; discriminate|intros (r & f & [] & _)].
  - destruct (add_row numberToString m r) as [e|m1] eqn:E1; simpl.
    + split; [|eauto]. intros _.
      destruct (proj1 (add_row_inl m r) (ex_intro _ e E1)) as (f & Hf & Ht).
      exists r, f. auto.
    + rewrite IH. split.
      * intros (r' & f & Hin & Hf & Ht). exists r', f. auto.
      * intros (r' & f & [<-|Hin] & Hf & Ht); [|eauto 6].
        destruct (proj2 (add_row_inl m r) (ex_intro _ f (conj Hf Ht)))
          as [e He].
        congruence.
Qed.

(** X22.  When the loop of [recentPeByFilename] returns, the row the map
    holds for a name is the last row of the block whose [filename] is
    truthy and reads as that name, and a name no row has is not in the map;
    the loop throws exactly when a row has a [filename] that does not
    convert to a string. *)
Theorem recentPeByFilename_get items :
  (forall byFilename name,
     recentPeByFilename numberToString items = inr byFilename ->
     Map_get name byFilename
     = find (has_name numberToString name) (rev items)) /\
  ((exists e, recentPeByFilename numberToString items = inl e) <->
   exists r f, In r items /\ get_opt "filename" r = Some f /\
               ToPrimitive_throws f = true).
Proof.
  unfold recentPeByFilename. split.
  - intros byFilename name H. rewrite (add_rows_get name items [] _ H).
    destruct (find _ _); reflexivity.
  - apply add_rows_inl.
Qed.

Lemma add_rows_keys_NoDup items : forall m m',
  add_rows numberToString items m = inr m' ->
  NoDup (Map_keys m) -> NoDup (Map_keys m').
Proof.
  induction items as [|r rest IH]; simpl; intros m m'.
  - intros [= <-] H. exact H.
  - destruct (add_row numberToString m r) as [e|m1] eqn:E1; simpl;
      [discriminate|].
    intros H Hm. apply (IH m1 m' H).
    apply add_row_inr in E1 as [-> _].
    destruct (filename_of numberToString r); [|exact Hm].
    apply Map_keys_set_NoDup, Hm.
Qed.

Lemma add_rows_keys_In items k : forall m m',
  add_rows numberToString items m = inr m' ->
  (In k (Map_keys m') <->
   In k (Map_keys m) \/
   exists r, In r items /\ filename_of numberToString r = Some k).
Proof.
  induction items as [|a l IH]; simpl; intros m m'.
  - intros [= <-]. split; [auto|]. intros [H|(r & [] & _)]. exact H.
  - destruct (add_row numberToString m a) as [e|m1] eqn:E1; simpl;
      [discriminate|].
    intros H. rewrite (IH m1 m' H).
    apply add_row_inr in E1 as [-> _].
    destruct (filename_of numberToString a) as [n|] eqn:E.
    + rewrite Map_keys_set_In. split.
      * intros [[->|Hk]|(r & Hr & Hn)]; eauto 6.
      * intros [Hk|(r & [<-|Hr] & Hn)]; eauto 6.
        left. left. congruence.
    + split.
      * intros [Hk|(r & Hr & Hn)]; eauto 6.
      * intros [Hk|(r & [<-|Hr] & Hn)]; eauto 6. congruence.
Qed.

(** X23.  The names offered for selection, when the map is built: every
    name some row of the block carries, each once. *)
Theorem recentPeByFilename_keys items byFilename :
  recentPeByFilename numberToString items = inr byFilename ->
  NoDup (Map_keys byFilename) /\
  forall name,
    In name (Map_keys byFilename) <->
    exists r, In r items /\ filename_of numberToString r = Some name.
Proof.
  unfold recentPeByFilename. intros H. split.
  - apply (add_rows_keys_NoDup items [] _ H). constructor.
  - intros name. rewrite (add_rows_keys_In items name [] _ H). simpl.
    intuition.
Qed.

Variable fetch : string -> FetchOutcome.

Lemma msg_or_error e : message_or (message_of e) "Error" <> "".
Proof.
  unfold message_or. destruct (String.eqb_spec (message_of e) "");
    [discriminate|assumption].
Qed.

Lemma yara_try_ok r s s' :
  yara_try r s = inr s' ->
  yaraBusy s' = yaraBusy s /\
  (s' = setYaraMsg msg_no_rule s \/
   exists v, truthy v = true /\ s' = setYaraMsg msg_rule (setYaraRule v s)).
Proof.
  unfold yara_try. destruct r as [e|res]; [discriminate|].
  destruct (negb (ok res)); [discriminate|].
  destruct (json res) as [e|data]; [discriminate|].
  destruct (get_prop "rule" data) as [e|[v|]]; [discriminate| |].
  - destruct (truthy v) eqn:T; intros [= <-]; split; eauto.
  - intros [= <-]. split; eauto.
Qed.

(** X24.  A click on Generate that finds the panel idle leaves it idle
    again, with a message that is not empty; and a rule is shown only
    with the message that a rule was generated. *)
Theorem generateYara_ends_idle byFilename yaraSelected s :
  yaraBusy s = false ->
  let s' := generateYara fetch byFilename yaraSelected s in
  yaraBusy s' = false /\ yaraMsg s' <> "" /\
  (truthy (yaraRule s') = true -> yaraMsg s' = msg_rule).
Proof.
  intros Hb. cbv zeta. unfold generateYara, generateYara_start.
  assert (Hret : let s' := setYaraMsg msg_none_selected
                             (setYaraRule (JStr "") (setYaraMsg "" s)) in
                 yaraBusy s' = false /\ yaraMsg s' <> "" /\
                 (truthy (yaraRule s') = true -> yaraMsg s' = msg_rule)).
  { simpl. split; [exact Hb|]. split; [discriminate|]. discriminate. }
  destruct (Map_get yaraSelected byFilename) as [row|]; [|exact Hret].
  destruct (truthy row); [|exact Hret].
  unfold generateYara_resume.
  destruct (yara_try _ _) as [e|s'] eqn:E.
  - simpl. split; [reflexivity|]. split; [apply msg_or_error|discriminate].
  - apply yara_try_ok in E as [_ [->|(v & Hv & ->)]]; simpl.
    + split; [reflexivity|]. split; discriminate.
    + split; [reflexivity|]. split; [discriminate|reflexivity].
Qed.

(** X25.  With the map built from the rows of the block, the request is
    made for a row of the block whose name reads as the selected one, and
    that name is in its body; without such a row no request is made and
    the panel says that no file is selected. *)
Theorem generateYara_posts_selected items byFilename yaraSelected s :
  recentPeByFilename numberToString items = inr byFilename ->
  match generateYara_start byFilename yaraSelected s with
  | Awaiting s' body =>
      exists row f,
        In row items /\ body = yara_body row /\
        get_opt "filename" body = Some f /\ truthy f = true /\
        String_ numberToString f = inr yaraSelected /\
        yaraBusy s' = true
  | Returned s' =>
      (forall r, In r items -> has_name numberToString yaraSelected r = false) /\
      yaraMsg s' = msg_none_selected /\ yaraBusy s' = yaraBusy s
  end.
Proof.
  unfold generateYara_start, recentPeByFilename. intros Hmap.
  rewrite (add_rows_get yaraSelected items [] _ Hmap).
  destruct (find _ _) as [row|] eqn:F.
  - apply find_some in F as [Hin Hn]. apply in_rev in Hin.
    unfold has_name in Hn.
    destruct (filename_of numberToString row) as [n|] eqn:En; [|discriminate].
    rewrite (filename_of_object row n En).
    apply String.eqb_eq in Hn. subst n.
    unfold filename_of in En.
    destruct (get_opt "filename" row) as [f|] eqn:Ef; [|discriminate].
    destruct (truthy f) eqn:Tf; [|discriminate].
    injection En as En.
    exists row, f. split; [exact Hin|]. split; [reflexivity|].
    split; [|split; [exact Tf|split; [|reflexivity]]].
    + unfold yara_body, stringify_prop. rewrite Ef. simpl.
      reflexivity.
    + (* the name converted when the map was built *)
      destruct (String_ numberToString f) as [e|t] eqn:Es.
      * exfalso.
        assert (Hthrow : exists e', add_rows numberToString items [] = inl e').
        { apply add_rows_inl. exists row, f.
          split; [exact Hin|]. split; [exact Ef|].
          unfold String_ in Es.
          destruct (ToPrimitive_throws f); [reflexivity|discriminate]. }
        destruct Hthrow as [e' He']. congruence.
      * unfold String_ in Es.
        destruct (ToPrimitive_throws f); [discriminate|].
        injection Es as <-. rewrite En. reflexivity.
  - split; [|split; reflexivity].
    intros r Hr. apply in_rev in Hr.
    exact (find_none _ _ F r Hr).
Qed.

End Panel.

Lemma recentPeByFilename_get_witness :
  exists byFilename,
    recentPeByFilename print_int sample_pe = inr byFilename /\
    Map_get "a.exe" byFilename
    = Some (JObj [("filename", JStr "a.exe"); ("sha256", JStr "33")]).
Proof.
  eexists. split; [reflexivity|].
  rewrite (proj1 (recentPeByFilename_get print_int sample_pe) _ "a.exe"
             eq_refl).
  reflexivity.
Defined.

Lemma recentPeByFilename_keys_witness :
  exists byFilename,
    recentPeByFilename print_int sample_pe = inr byFilename /\
    NoDup (Map_keys byFilename) /\ Map_keys byFilename = ["a.exe"; "b.dll"].
Proof.
  eexists. split; [reflexivity|].
  split; [|reflexivity].
  exact (proj1 (recentPeByFilename_keys print_int sample_pe _ eq_refl)).
Defined.

Lemma generateYara_ends_idle_witness :
  let s' := generateYara yara_net
              [("a.exe", JObj [("filename", JStr "a.exe")])] "a.exe" idle in
  yaraBusy s' = false /\ yaraMsg s' <> "" /\
  (truthy (yaraRule s') = true -> yaraMsg s' = msg_rule).
Proof.
  apply (generateYara_ends_idle yara_net
           [("a.exe", JObj [("filename", JStr "a.exe")])] "a.exe" idle).
  reflexivity.
Defined.

Lemma generateYara_posts_selected_witness :
  exists byFilename s' body,
    recentPeByFilename print_int sample_pe = inr byFilename /\
    generateYara_start byFilename "a.exe" idle = Awaiting s' body /\
    get_opt "sha256" body = Some (JStr "33") /\ yaraBusy s' = true.
Proof.
  eexists _, _, _. split; [reflexivity|]. split; [reflexivity|].
  pose proof (generateYara_posts_selected print_int sample_pe _ "a.exe" idle
                eq_refl) as H.
  destruct H as (row & f & _ & _ & _ & _ & _ & Hbusy).
  split; [reflexivity|exact Hbusy].
Defined.

End YaraFacts.
